(** * photo-tool: a shallow embedding of [photo_tool/watermark.py] and
    [photo_tool/utils.py], and the properties of the watermark compositor,
    the font locator and the batch/single driver.

    Conventions.
    - A Python [str] is a list of Unicode code points ([list N]).
    - A Python [int] is a [Z]; a Python [float] is an IEEE-754 binary64
      value, [spec_float] of the Standard Library with [prec = 53] and
      [emax = 1024].  Mixed arithmetic follows Python's coercion rule
      (an [int] meeting a [float] is converted first).
    - Exceptions are values of [exn]; a computation that may raise returns
      a [result].
    - Pillow, FreeType and the operating system are interfaces: records of
      operations whose fields are the calls the source makes. *)

From Stdlib Require Import ZArith NArith Bool List Lia Ascii String.
From Stdlib Require Import Floats.SpecFloat.
Import ListNotations.

Local Open Scope Z_scope.

(* ================================================================== *)
(** * Python strings *)
(* ================================================================== *)

Module PyStr.

Definition char := N.
Definition str := list char.

(** An ASCII literal as a Python string. *)
Definition lit (s : string) : str :=
  List.map N_of_ascii (list_ascii_of_string s).

Definition eqb (a b : str) : bool :=
  if list_eq_dec N.eq_dec a b then true else false.

(** [str.isspace] on one code point: the characters [str.split()] and
    [str.strip()] treat as whitespace. *)
Definition isspace (c : char) : bool :=
  (((9 <=? c) && (c <=? 13)) || ((28 <=? c) && (c <=? 32))
   || (c =? 133) || (c =? 160) || (c =? 5760)
   || ((8192 <=? c) && (c <=? 8202))
   || (c =? 8232) || (c =? 8233) || (c =? 8239) || (c =? 8287)
   || (c =? 12288))%N.

(** [s.split(sep)] for a one-character separator. *)
Fixpoint split_sep (sep : char) (s : str) : list str :=
  match s with
  | [] => [[]]
  | c :: s' =>
      if N.eqb c sep then [] :: split_sep sep s'
      else match split_sep sep s' with
           | seg :: rest => (c :: seg) :: rest
           | [] => [[c]]
           end
  end.

(** [s.split()]: the maximal runs of non-whitespace characters. *)
Fixpoint split_ws (s : str) : list str :=
  match s with
  | [] => []
  | c :: s' =>
      if isspace c then split_ws s'
      else match s' with
           | [] => [[c]]
           | d :: _ =>
               if isspace d then [c] :: split_ws s'
               else match split_ws s' with
                    | tok :: rest => (c :: tok) :: rest
                    | [] => [[c]]
                    end
           end
  end.

Fixpoint lstrip (s : str) : str :=
  match s with
  | [] => []
  | c :: s' => if isspace c then lstrip s' else s
  end.

Definition rstrip (s : str) : str := rev (lstrip (rev s)).

(** [s.strip()] *)
Definition strip (s : str) : str := rstrip (lstrip s).

(** [sep.join(parts)] *)
Fixpoint join (sep : str) (parts : list str) : str :=
  match parts with
  | [] => []
  | [p] => p
  | p :: rest => p ++ sep ++ join sep rest
  end.

Definition startswith (p s : str) : bool := eqb (firstn (List.length p) s) p.

Definition endswith (p s : str) : bool :=
  eqb (rev (firstn (List.length p) (rev s))) p.

End PyStr.
Export PyStr.

(* ================================================================== *)
(** * Exceptions and results *)
(* ================================================================== *)

(** The message of an exception: the source's f-string and the values it
    interpolates. *)
Definition message := (string * list str)%type.

Inductive exn :=
| ValueError (msg : message)
| IOError (msg : message)
| RuntimeError (msg : message)
| KeyError (key : str)
| TypeError
| AttributeError
| OverflowError
| RecursionError
| OSError (code : Z).

Inductive result (A : Type) :=
| Ok (a : A)
| Raise (e : exn).
Arguments Ok {A} a.
Arguments Raise {A} e.

Definition rbind {A B} (m : result A) (k : A -> result B) : result B :=
  match m with
  | Ok a => k a
  | Raise e => Raise e
  end.

Declare Scope result_scope.
Delimit Scope result_scope with result.
Notation "x <- m ;; k" := (rbind m (fun x => k))
  (at level 61, m at next level, right associativity) : result_scope.
Notation "' p <- m ;; k" := (rbind m (fun p => k))
  (at level 61, p pattern, m at next level, right associativity) : result_scope.

Definition is_raise {A} (r : result A) : bool :=
  match r with Raise _ => true | Ok _ => false end.

(* ================================================================== *)
(** * The position argument of [add_watermark] (watermark.py, 37-49) *)
(* ================================================================== *)

Module Position.

(** The source codes each axis as [-1] or [1]. *)
Definition RIGHT : Z := -1.
Definition LEFT : Z := 1.
Definition BOTTOM : Z := -1.
Definition TOP : Z := 1.

Definition unrecognized (position : str) : exn :=
  ValueError ("Unrecognized position: {position!r}"%string, [position]).

(** The body of [for pos in position.split()]. *)
Fixpoint parse_tokens (position : str) (toks : list str) (h_pos v_pos : Z)
  : result (Z * Z) :=
  match toks with
  | [] => Ok (h_pos, v_pos)
  | pos :: toks' =>
      if eqb pos (lit "right") then parse_tokens position toks' (-1) v_pos
      else if eqb pos (lit "left") then parse_tokens position toks' 1 v_pos
      else if eqb pos (lit "bottom") then parse_tokens position toks' h_pos (-1)
      else if eqb pos (lit "top") then parse_tokens position toks' h_pos 1
      else Raise (unrecognized position)
  end.

Definition parse_position (position : str) : result (Z * Z) :=
  parse_tokens position (split_ws position) (-1) (-1).

Definition is_h_token (t : str) : bool := eqb t (lit "right") || eqb t (lit "left").
Definition is_v_token (t : str) : bool := eqb t (lit "bottom") || eqb t (lit "top").
Definition is_token (t : str) : bool := is_h_token t || is_v_token t.

Definition h_code (t : str) : Z := if eqb t (lit "left") then 1 else -1.
Definition v_code (t : str) : Z := if eqb t (lit "top") then 1 else -1.

(** The value an axis ends with: the code of the last token naming the
    axis, or the default when no token names it. *)
Definition axis_value (is_axis : str -> bool) (code : str -> Z)
  (default : Z) (toks : list str) : Z :=
  match rev (filter is_axis toks) with
  | [] => default
  | t :: _ => code t
  end.

(** How many tokens name an axis. *)
Definition axis_count (is_axis : str -> bool) (toks : list str) : nat :=
  List.length (filter is_axis toks).

End Position.

(* ================================================================== *)
(** * Python numbers: [int], [float] and their mixed arithmetic *)
(* ================================================================== *)

Module PyNum.

Definition prec : Z := 53.
Definition emax : Z := 1024.

Definition float : Set := spec_float.

Definition fadd : float -> float -> float := SFadd prec emax.
Definition fsub : float -> float -> float := SFsub prec emax.
Definition fmul : float -> float -> float := SFmul prec emax.

(** A well-formed binary64 value. *)
Definition valid (f : float) : bool := valid_binary prec emax f.

Definition is_finite (f : float) : bool :=
  match f with
  | S754_zero _ | S754_finite _ _ _ => true
  | _ => false
  end.

Definition is_nan (f : float) : bool :=
  match f with S754_nan => true | _ => false end.

(** [float(z)], correctly rounded.  (Python raises [OverflowError] from
    [2**1024] on; the integers converted here are image and glyph sizes.) *)
Definition float_of_int (z : Z) : float := binary_normalize prec emax z 0 false.

(** The literals of the source: [0.04 = 0x1.47ae147ae147bp-5] and [1.0]. *)
Definition f0_04 : float := S754_finite false 5764607523034235 (-57).
Definition f1_0 : float := S754_finite false 4503599627370496 (-52).
Definition f0_0 : float := S754_zero false.

(** The exact order between a float and an integer, as Python compares
    them ([None] for NaN). *)
Definition compare_float_Z (f : float) (z : Z) : option comparison :=
  match f with
  | S754_nan => None
  | S754_infinity s => Some (if s then Lt else Gt)
  | S754_zero _ => Some (0 ?= z)
  | S754_finite s m e =>
      let v := cond_Zopp s (Zpos m) in
      Some (if 0 <=? e then (v * 2 ^ e ?= z) else (v ?= z * 2 ^ (- e)))
  end.

Inductive num :=
| NInt (z : Z)
| NFloat (f : float).

Definition to_float (a : num) : float :=
  match a with
  | NInt z => float_of_int z
  | NFloat f => f
  end.

Definition num_add (a b : num) : num :=
  match a, b with
  | NInt x, NInt y => NInt (x + y)
  | _, _ => NFloat (fadd (to_float a) (to_float b))
  end.

Definition num_sub (a b : num) : num :=
  match a, b with
  | NInt x, NInt y => NInt (x - y)
  | _, _ => NFloat (fsub (to_float a) (to_float b))
  end.

Definition num_mul (a b : num) : num :=
  match a, b with
  | NInt x, NInt y => NInt (x * y)
  | _, _ => NFloat (fmul (to_float a) (to_float b))
  end.

Definition num_compare (a b : num) : option comparison :=
  match a, b with
  | NInt x, NInt y => Some (x ?= y)
  | NInt x, NFloat g => option_map CompOpp (compare_float_Z g x)
  | NFloat f, NInt y => compare_float_Z f y
  | NFloat f, NFloat g => SFcompare f g
  end.

(** [a > b], [a < b], [a <= b] *)
Definition num_gt (a b : num) : bool :=
  match num_compare a b with Some Gt => true | _ => false end.
Definition num_lt (a b : num) : bool :=
  match num_compare a b with Some Lt => true | _ => false end.
Definition num_le (a b : num) : bool :=
  match num_compare a b with Some (Lt | Eq) => true | _ => false end.

(** [int(a)]: truncation toward zero. *)
Definition py_int (a : num) : result Z :=
  match a with
  | NInt z => Ok z
  | NFloat S754_nan =>
      Raise (ValueError ("cannot convert float NaN to integer"%string, []))
  | NFloat (S754_infinity _) => Raise OverflowError
  | NFloat (S754_zero _) => Ok 0
  | NFloat (S754_finite s m e) =>
      Ok (cond_Zopp s (if 0 <=? e then Zpos m * 2 ^ e else Zpos m / 2 ^ (- e)))
  end.

End PyNum.
Export PyNum.

(* ================================================================== *)
(** * Pillow images *)
(* ================================================================== *)

Module Pillow.

(** An RGBA pixel; every channel is a byte. *)
Definition pixel := (Z * Z * Z * Z)%type.

Definition data := Z -> Z -> pixel.
Definition band := Z -> Z -> Z.

(** An image: [im.size] and the pixel at each [(x, y)] inside it. *)
Record image := Image { size : Z * Z; getpixel : data }.

Definition width (im : image) : Z := fst (size im).
Definition height (im : image) : Z := snd (size im).

Definition alpha_of (p : pixel) : Z := let '(_, _, _, a) := p in a.

Definition with_alpha (p : pixel) (a : Z) : pixel :=
  let '(r, g, b, _) := p in (r, g, b, a).

Definition byte (v : Z) : Prop := 0 <= v <= 255.

Definition pixel_ok (p : pixel) : Prop :=
  let '(r, g, b, a) := p in byte r /\ byte g /\ byte b /\ byte a.

(** Every pixel inside the image holds bytes. *)
Definition image_ok (im : image) : Prop :=
  forall x y, 0 <= x < width im -> 0 <= y < height im ->
    pixel_ok (getpixel im x y).

(** Same size and the same pixel at every position inside it. *)
Definition pixel_identical (a b : image) : Prop :=
  size a = size b /\
  forall x y, 0 <= x < width a -> 0 <= y < height a ->
    getpixel a x y = getpixel b x y.

(** [CLIP8] *)
Definition clip8 (v : Z) : Z := if v <? 0 then 0 else if 255 <? v then 255 else v.

(** [Image.new('RGBA', size, color)] *)
Definition new (sz : Z * Z) (color : pixel) : image :=
  let '(r, g, b, a) := color in
  Image sz (fun _ _ => (clip8 r, clip8 g, clip8 b, clip8 a)).

(** [im.split()[3]] *)
Definition alpha_band (im : image) : band := fun x y => alpha_of (getpixel im x y).

(** [band.point(lut)] for a 256-entry table. *)
Definition point (lut : Z -> Z) (b : band) : band := fun x y => clip8 (lut (b x y)).

(** [im.putalpha(band)] *)
Definition putalpha (im : image) (b : band) : image :=
  Image (size im) (fun x y => with_alpha (getpixel im x y) (b x y)).

(** [ImageChops.offset(im, xoffset, yoffset)]: data wraps around the edges.
    For an image without pixels the C code reduces the offsets modulo zero,
    which the hardware may trap; the model is meant for images that have
    pixels, and gives an image without pixels back as it is. *)
Definition offset (im : image) (xoffset yoffset : Z) : image :=
  Image (size im)
    (fun x y => getpixel im ((x - xoffset) mod width im) ((y - yoffset) mod height im)).

(** [DIV255] and [BLEND8] of Pillow's paste. *)
Definition div255 (a : Z) : Z :=
  let tmp := a + 128 in Z.shiftr (Z.shiftr tmp 8 + tmp) 8.

Definition blend8 (mask in1 in2 : Z) : Z := div255 (in1 * (255 - mask) + in2 * mask).

Definition paste_pixel (mask : Z) (dst src : pixel) : pixel :=
  let '(r1, g1, b1, a1) := dst in
  let '(r2, g2, b2, a2) := src in
  (blend8 mask r1 r2, blend8 mask g1 g2, blend8 mask b1 b2, blend8 mask a1 a2).

(** [Image.composite(image1, image2, mask)]: a copy of [image2] with
    [image1] pasted through the alpha band of [mask]. *)
Definition composite (image1 image2 mask : image) : image :=
  Image (size image2)
    (fun x y => paste_pixel (alpha_of (getpixel mask x y))
                  (getpixel image2 x y) (getpixel image1 x y)).

Inductive align := AlignLeft | AlignRight.

(** One [draw.text(xy=(x, y), text=line, font=font, align=...)] call. *)
Record text_call := TextCall {
  call_x : num;
  call_y : num;
  call_text : str;
  call_align : align
}.

(** What the source asks of FreeType and of Pillow's rasterizers.  Each
    operation works on the pixels of an image whose size it is given and
    keeps that size. *)
Record engine := Engine {
  (** [ImageFont.truetype(font_file, size).getsize(text)] *)
  getsize : str -> Z -> str -> Z * Z;
  (** [ImageDraw.Draw(im, 'RGBA').text(...)] with the font of that size *)
  draw_text : str -> Z -> Z * Z -> data -> text_call -> result data;
  (** [im.filter(ImageFilter.GaussianBlur(radius))] *)
  gaussian_blur : num -> Z * Z -> data -> result data;
  (** one pixel of [Image.alpha_composite(dst, src)] *)
  alpha_composite_pixel : pixel -> pixel -> pixel;
  (** one value of [Image.blend(im1, im2, alpha)] for [alpha] other than 0 *)
  blend_value : float -> Z -> Z -> Z
}.

(** [Image.alpha_composite(dst, src)] *)
Definition alpha_composite (E : engine) (dst src : image) : image :=
  Image (size dst)
    (fun x y => alpha_composite_pixel E (getpixel dst x y) (getpixel src x y)).

(** [Image.blend(im1, im2, alpha)] on one band: a copy of [im1] when
    [alpha == 0.0]. *)
Definition blend (E : engine) (im1 im2 : band) (alpha : float) : band :=
  if SFeqb alpha f0_0 then im1
  else fun x y => blend_value E alpha (im1 x y) (im2 x y).

(** [ImageEnhance.Brightness(band).enhance(factor)]: the blend of a black
    band with [band]. *)
Definition brightness_enhance (E : engine) (b : band) (factor : float) : band :=
  blend E (fun _ _ => 0) b factor.

End Pillow.

(* ================================================================== *)
(** * The watermark compositor (watermark.py, 14-108) *)
(* ================================================================== *)

Module Watermark.
Import Pillow Position.

Local Open Scope result_scope.

(** The calibration string of line 55, as code points. *)
Definition calibration : str :=
  [25668; 24433; 47; 21518; 26399; 65306; 64; 48; 50; 95; 121; 117; 121;
   117; 107; 111]%N.

(** The keyword arguments of [add_watermark] that the driver stores in
    its [options] dictionary. *)
Record options := Options {
  text : str;
  position : str;
  font_size : float;
  opacity : float;
  line_spacing : float;
  shadow_offset : float;
  shadow_blur_radius : float
}.

Definition color := (float * float * float * float)%type.

(** The default [shadow_color=(0., 0., 0., 1.)]. *)
Definition default_shadow_color : color := (f0_0, f0_0, f0_0, f1_0).

(** A Python [int] handed to Pillow's C layer as a C [int] ([i] of
    [PyArg_ParseTuple]), and as a C [long] or [long long] ([PyLong_AsLong],
    [L] of [PyArg_ParseTuple]; both have 64 bits on macOS). *)
Definition c_int (z : Z) : result Z :=
  if (- 2 ^ 31 <=? z) && (z <? 2 ^ 31) then Ok z else Raise OverflowError.

Definition c_long (z : Z) : result Z :=
  if (- 2 ^ 63 <=? z) && (z <? 2 ^ 63) then Ok z else Raise OverflowError.

(** The entries of a lookup table as C [long]s. *)
Fixpoint c_longs (l : list Z) : result (list Z) :=
  match l with
  | [] => Ok []
  | z :: rest => z <- c_long z ;; rest <- c_longs rest ;; Ok (z :: rest)
  end.

(** [[f(i) for i in range(i, i + n)]] *)
Fixpoint build_lut (f : Z -> result Z) (n : nat) (i : Z) : result (list Z) :=
  match n with
  | O => Ok []
  | S n' => v <- f i ;; rest <- build_lut f n' (i + 1) ;; Ok (v :: rest)
  end.

Definition lookup (lut : list Z) (i : Z) : Z := nth (Z.to_nat i) lut 0.

Section Compositor.

Variable E : engine.

(** [int(v * 255)] for one component of [shadow_color]. *)
Definition color_channel (v : float) : result Z :=
  py_int (num_mul (NFloat v) (NInt 255)).

(** The layer [make_shadow] builds before it moves and blurs it
    (lines 18-19): [shadow_color] everywhere, with the alpha band of [im]
    mapped through [lambda i: int(i * shadow_color[3])].  [Image.new] reads
    the colour tuple as a [long long] and three [int]s and clips each to a
    byte; [point] calls the function on 0..255 first, then reads the table
    as [long]s and clips each entry to a byte. *)
Definition shadow_base (im : image) (shadow_color : color) : result image :=
  let '(cr, cg, cb, ca) := shadow_color in
  r <- color_channel cr ;;
  g <- color_channel cg ;;
  b <- color_channel cb ;;
  a <- color_channel ca ;;
  r <- c_long r ;;
  g <- c_int g ;;
  b <- c_int b ;;
  a <- c_int a ;;
  let shadow_im := new (size im) (r, g, b, a) in
  lut <- build_lut (fun i => py_int (num_mul (NInt i) (NFloat ca))) 256 0 ;;
  lut <- c_longs lut ;;
  Ok (putalpha shadow_im (point (lookup lut) (alpha_band im))).

(** [make_shadow(im, offset, shadow_color, blur_radius)] *)
Definition make_shadow (im : image) (offset : num * num) (shadow_color : color)
  (blur_radius : num) : result image :=
  shadow_im <- shadow_base im shadow_color ;;
  xoffset <- py_int (fst offset) ;;
  yoffset <- py_int (snd offset) ;;
  xoffset <- c_int xoffset ;;
  yoffset <- c_int yoffset ;;
  let shadow_im := Pillow.offset shadow_im xoffset yoffset in
  d <- gaussian_blur E blur_radius (size shadow_im) (getpixel shadow_im) ;;
  Ok (Image (size shadow_im) d).

(** The bound of line 56: [min(w, h) * 0.04 * font_size] for [w, h = input_image.size]. *)
Definition threshold (sz : Z * Z) (font_size : float) : num :=
  num_mul (num_mul (NInt (Z.min (fst sz) (snd sz))) (NFloat f0_04)) (NFloat font_size).

(** The [while True] loop of lines 53-59, started at [size]; [None] when
    [fuel] iterations do not reach the [break].  The result is the size
    at the [break] and the line height measured there. *)
Fixpoint autosize (font_file : str) (thr : num) (fuel : nat) (size : Z)
  : option (Z * Z) :=
  match fuel with
  | O => None
  | S fuel' =>
      let '(w, line_height) := getsize E font_file size calibration in
      if num_gt (NInt line_height) thr then Some (size, line_height)
      else autosize font_file thr fuel' (size + 2)
  end.

(** [spacing = line_spacing * margin] *)
Definition spacing_of (line_spacing : float) (margin : Z) : num :=
  num_mul (NFloat line_spacing) (NInt margin).

(** The loop of lines 66-69. *)
Fixpoint bbox_loop (font_file : str) (size : Z) (spacing : num)
  (lines : list str) (wm_width : Z) (wm_height : num) : Z * num :=
  match lines with
  | [] => (wm_width, wm_height)
  | line :: rest =>
      let '(w, h) := getsize E font_file size line in
      bbox_loop font_file size spacing rest (Z.max wm_width w)
        (num_add (num_add wm_height (NInt h)) spacing)
  end.

(** Lines 65-70: [(wm_width, wm_height)]. *)
Definition text_bbox (font_file : str) (size : Z) (spacing : num)
  (lines : list str) : Z * num :=
  let '(wm_width, wm_height) := bbox_loop font_file size spacing lines 0 (NInt 0) in
  (wm_width, num_sub wm_height spacing).

(** The loop of lines 76-85 from the cursor [y]: its [draw.text] calls. *)
Fixpoint plot_loop (font_file : str) (size : Z) (im_w : Z) (h_pos : Z)
  (margin : Z) (spacing : num) (lines : list str) (y : num) : list text_call :=
  match lines with
  | [] => []
  | line :: rest =>
      let '(w, h) := getsize E font_file size line in
      let x := if h_pos =? -1 then im_w - w - margin else margin in
      TextCall (NInt x) y line (if h_pos =? 1 then AlignLeft else AlignRight)
      :: plot_loop font_file size im_w h_pos margin spacing rest
           (num_add y (num_add (NInt h) spacing))
  end.

(** The first value of the cursor (line 75). *)
Definition start_y (im_h : Z) (v_pos : Z) (margin : Z) (wm_height : num) : num :=
  if v_pos =? -1 then num_sub (num_sub (NInt im_h) wm_height) (NInt margin)
  else NInt margin.

(** [plot_lines]: the calls it makes on its drawing context, in order. *)
Definition plot_lines (font_file : str) (size : Z) (sz : Z * Z) (h_pos v_pos : Z)
  (margin : Z) (spacing : num) (wm_height : num) (lines : list str)
  : list text_call :=
  plot_loop font_file size (fst sz) h_pos margin spacing lines
    (start_y (snd sz) v_pos margin wm_height).

(** The calls applied to the pixels of the layer, in order. *)
Fixpoint draw_all (font_file : str) (size : Z) (sz : Z * Z) (d : data)
  (calls : list text_call) : result data :=
  match calls with
  | [] => Ok d
  | c :: rest =>
      d' <- draw_text E font_file size sz d c ;;
      draw_all font_file size sz d' rest
  end.

(** Lines 88-89: the transparent layer with the lines drawn on it. *)
Definition text_layer (sz : Z * Z) (font_file : str) (size : Z)
  (calls : list text_call) : result image :=
  let wm_image := new sz (0, 0, 0, 0) in
  d <- draw_all font_file size sz (getpixel wm_image) calls ;;
  Ok (Image sz d).

(** Lines 92-97: the drop shadow of the text layer. *)
Definition shadow_layer (wm_image : image) (o : options) (shadow_color : color)
  (margin : Z) : result image :=
  let off := num_mul (NInt margin) (NFloat (shadow_offset o)) in
  make_shadow wm_image (off, off) shadow_color
    (num_mul (NFloat (shadow_blur_radius o)) (NInt margin)).

(** Lines 98-104: shadow under text, opacity, and the layer over the
    input image. *)
Definition overlay (input_image wm_image shadow_image : image) (opacity : float)
  : image :=
  let wm_image := alpha_composite E shadow_image wm_image in
  let alpha := alpha_band wm_image in
  let alpha := brightness_enhance E alpha opacity in
  let wm_image := putalpha wm_image alpha in
  composite wm_image input_image wm_image.

(** Lines 61-108, after the font is chosen. *)
Definition compose (input_image : image) (o : options) (font_file : str)
  (shadow_color : color) (h_pos v_pos : Z) (size margin : Z) : result image :=
  let sz := Pillow.size input_image in
  let spacing := spacing_of (line_spacing o) margin in
  let lines := split_sep 10%N (text o) in
  let '(wm_width, wm_height) := text_bbox font_file size spacing lines in
  wm_image <- text_layer sz font_file size
                (plot_lines font_file size sz h_pos v_pos margin spacing wm_height lines) ;;
  shadow_image <- shadow_layer wm_image o shadow_color margin ;;
  Ok (overlay input_image wm_image shadow_image (opacity o)).

(** [add_watermark(input_image, font_file=font_file, **options)]; [None]
    when the size search does not end within [fuel] iterations. *)
Definition add_watermark (fuel : nat) (input_image : image) (o : options)
  (font_file : str) (shadow_color : color) : option (result image) :=
  match parse_position (position o) with
  | Raise e => Some (Raise e)
  | Ok (h_pos, v_pos) =>
      match autosize font_file (threshold (Pillow.size input_image) (font_size o)) fuel 2 with
      | None => None
      | Some (size, line_height) =>
          let margin := line_height in
          Some (compose input_image o font_file shadow_color h_pos v_pos size margin)
      end
  end.

End Compositor.

End Watermark.

(* ================================================================== *)
(** * Python values, dictionaries and JSON data *)
(* ================================================================== *)

Module PyVal.

Unset Elimination Schemes.

(** What [json.load] can return and [json.dumps] accepts. *)
Inductive pyval :=
| VNone
| VBool (b : bool)
| VInt (z : Z)
| VFloat (f : float)
| VStr (s : str)
| VList (l : list pyval)
| VDict (d : list (str * pyval)).

Set Elimination Schemes.

(** A [dict] with string keys, in insertion order. *)
Definition dict := list (str * pyval).

Fixpoint dict_get (k : str) (d : dict) : option pyval :=
  match d with
  | [] => None
  | (k', v) :: d' => if eqb k' k then Some v else dict_get k d'
  end.

(** [d[k] = v]: replaces the value of a present key, appends a new one. *)
Fixpoint dict_set (k : str) (v : pyval) (d : dict) : dict :=
  match d with
  | [] => [(k, v)]
  | (k', v') :: d' => if eqb k' k then (k', v) :: d' else (k', v') :: dict_set k v d'
  end.

Fixpoint dict_remove (k : str) (d : dict) : dict :=
  match d with
  | [] => []
  | (k', v) :: d' => if eqb k' k then d' else (k', v) :: dict_remove k d'
  end.

(** [d.pop(k)] *)
Definition dict_pop (k : str) (d : dict) : result (pyval * dict) :=
  match dict_get k d with
  | Some v => Ok (v, dict_remove k d)
  | None => Raise (KeyError k)
  end.

(** [options.pop(k)] on whatever [json.load] returned: only a [dict] has
    a [pop] that takes a string. *)
Definition py_pop (k : str) (v : pyval) : result (pyval * pyval) :=
  match v with
  | VDict d =>
      match dict_pop k d with
      | Ok (x, d') => Ok (x, VDict d')
      | Raise e => Raise e
      end
  | VList _ => Raise TypeError
  | _ => Raise AttributeError
  end.

(** [a == v] for a string [a]. *)
Definition str_equals (a : str) (v : pyval) : bool :=
  match v with
  | VStr s => eqb a s
  | _ => false
  end.

(** A number as a float; an [int] that rounds to infinity is Python's
    "int too large to convert to float". *)
Definition as_float (v : pyval) : result float :=
  match v with
  | VFloat f => Ok f
  | VInt z =>
      if is_finite (float_of_int z) then Ok (float_of_int z) else Raise OverflowError
  | VBool b => Ok (float_of_int (if b then 1 else 0))
  | _ => Raise TypeError
  end.

Definition as_str (v : pyval) : result str :=
  match v with
  | VStr s => Ok s
  | _ => Raise AttributeError
  end.

End PyVal.
Export PyVal.

(* ================================================================== *)
(** * The operating system, the font locator, the job runner and the
      driver (utils.py; watermark.py, 111-223) *)
(* ================================================================== *)

Module Driver.
Import Pillow Watermark.

(** What a run does to its surroundings, in order. *)
Inductive event :=
| EPrint (msg : message)
| EIsFile (path : str)
| EIsDir (path : str)
| EListDir (path : str)
| EOpenRead (path : str)
| EOpenWrite (path : str) (content : str)
| ERunJob (input_file : str) (output_file : pyval) (font_file : str)
    (quality : pyval) (options : pyval) (overwrite : bool)
| EImageOpen (path : str)
| EImageSave (path : pyval)
| EProbe (path : str)
| ETempDir
| EPngSave (path : str)
| EOverlay (input_file : str) (output_file : pyval) (overwrite : bool)
| ECleanup (path : str).

(** How a run ends: it returns, raises, or loops for ever. *)
Inductive outcome (A : Type) :=
| Done (a : A)
| Raised (e : exn)
| Diverged.
Arguments Done {A} a.
Arguments Raised {A} e.
Arguments Diverged {A}.

Section World.

(** The state of the file system and of everything else outside. *)
Variable W : Type.

(** The calls the source makes on [os], [sys], [codecs], [json],
    [PIL.Image] files and [ffmpeg]. *)
Record system := System {
  platform : str;
  expanduser : str -> str;
  recursion_limit : nat;
  isfile : W -> str -> bool;
  isdir : W -> str -> bool;
  listdir : W -> str -> result (list str);
  (** [codecs.open(path, 'rb', 'utf-8')] and reading it *)
  read_text : W -> str -> result str;
  (** [codecs.open(path, 'wb', 'utf-8')] and [f.write(cnt)] *)
  write_text : W -> str -> str -> W * result unit;
  json_loads : str -> result pyval;
  json_dumps : pyval -> str;
  (** [os.path.splitext(path)[-1].lower()] *)
  lower_ext : str -> str;
  (** [Image.open(path)] *)
  image_open : W -> str -> result image;
  (** [im.save(path, quality=quality, optimize=True, progressive=True,
      subsampling=0)] *)
  image_save : W -> image -> pyval -> pyval -> W * result unit;
  (** [ffmpeg.probe], the first video stream and its width and height *)
  probe_size : W -> str -> result (Z * Z);
  (** [TemporaryDirectory()]: the directory it makes *)
  make_temp_dir : W -> W * result str;
  (** [output_image.save(png_file, format='PNG')] *)
  png_save : W -> image -> str -> W * result unit;
  (** [ffmpeg.filter([ffmpeg.input(input_file), ffmpeg.input(png_file)],
      'overlay', 0, 0).output(output_file).run(overwrite_output=overwrite)] *)
  overlay_video : W -> str -> str -> pyval -> bool -> W * result unit;
  (** leaving the [with] block: the directory is removed *)
  cleanup : W -> str -> W * result unit
}.

Variable sys : system.
Variable E : engine.

(** A computation: from a state to the events, the state and the outcome. *)
Definition M (A : Type) : Type := W -> list event * W * outcome A.

Definition ret {A} (a : A) : M A := fun w => ([], w, Done a).

Definition bind {A B} (m : M A) (k : A -> M B) : M B :=
  fun w =>
    let '(t1, w1, o) := m w in
    match o with
    | Done a => let '(t2, w2, o2) := k a w1 in (t1 ++ t2, w2, o2)
    | Raised e => (t1, w1, Raised e)
    | Diverged => (t1, w1, Diverged)
    end.

Definition raise {A} (e : exn) : M A := fun w => ([], w, Raised e).

Definition emit (ev : event) : M unit := fun w => ([ev], w, Done tt).

Definition lift {A} (r : result A) : M A :=
  fun w => match r with
           | Ok a => ([], w, Done a)
           | Raise e => ([], w, Raised e)
           end.

(** A call that reads the state. *)
Definition ask {A} (ev : event) (f : W -> A) : M A := fun w => ([ev], w, Done (f w)).

Definition ask_result {A} (ev : event) (f : W -> result A) : M A :=
  fun w => match f w with
           | Ok a => ([ev], w, Done a)
           | Raise e => ([ev], w, Raised e)
           end.

(** A call that changes the state. *)
Definition act (ev : event) (f : W -> W * result unit) : M unit :=
  fun w => match f w with
           | (w', Ok _) => ([ev], w', Done tt)
           | (w', Raise e) => ([ev], w', Raised e)
           end.

Declare Scope m_scope.
Delimit Scope m_scope with m.
Notation "x <- m ;; k" := (bind m (fun x => k))
  (at level 61, m at next level, right associativity) : m_scope.
Notation "m ;; k" := (bind m (fun _ => k))
  (at level 61, right associativity) : m_scope.
Local Open Scope m_scope.

(** ** utils.py *)

(** [os.path.join(a, b)] *)
Definition path_join (a b : str) : str :=
  if startswith (lit "/") b then b
  else if match a with [] => true | _ => endswith (lit "/") a end then a ++ b
  else a ++ lit "/" ++ b.

Definition search_exts : list str := [lit ".otf"; lit ".ttf"; lit ".ttc"].

(** [[n.strip() for n in family.split(',') if n.strip()]] *)
Definition search_names (family : str) : list str :=
  List.map strip
    (filter (fun n => match strip n with [] => false | _ => true end)
       (split_sep 44%N family)).

(** The first loop of [traverse_dir]. *)
Fixpoint find_ext (search_dir search_name : str) (exts : list str) : M (option str) :=
  match exts with
  | [] => ret None
  | ext :: exts' =>
      let path := path_join search_dir (search_name ++ ext) in
      b <- ask (EIsFile path) (fun w => isfile sys w path) ;;
      if b then ret (Some path) else find_ext search_dir search_name exts'
  end.

(** [traverse_dir(search_dir, search_name)]; [depth] is the number of
    nested calls Python still allows. *)
Fixpoint traverse_dir (depth : nat) (search_dir search_name : str) : M (option str) :=
  match depth with
  | O => raise RecursionError
  | S depth' =>
      r <- find_ext search_dir search_name search_exts ;;
      match r with
      | Some path => ret (Some path)
      | None =>
          subdirs <- ask_result (EListDir search_dir) (fun w => listdir sys w search_dir) ;;
          (fix each (subdirs : list str) : M (option str) :=
             match subdirs with
             | [] => ret None
             | subdir :: rest =>
                 let path := path_join search_dir subdir in
                 b <- ask (EIsDir path) (fun w => isdir sys w path) ;;
                 if b then
                   r <- traverse_dir depth' path search_name ;;
                   match r with
                   | Some p => ret (Some p)
                   | None => each rest
                   end
                 else each rest
             end) subdirs
      end
  end.

(** The inner loop of [get_font]: [for search_dir in search_dirs]. *)
Fixpoint search_in_dirs (search_name : str) (search_dirs : list str) : M (option str) :=
  match search_dirs with
  | [] => ret None
  | search_dir :: rest =>
      r <- traverse_dir (recursion_limit sys) search_dir search_name ;;
      match r with
      | Some p => ret (Some p)
      | None => search_in_dirs search_name rest
      end
  end.

(** The outer loop: [for search_name in search_names]. *)
Fixpoint search_for_names (search_names : list str) (search_dirs : list str)
  : M (option str) :=
  match search_names with
  | [] => ret None
  | search_name :: rest =>
      r <- search_in_dirs search_name search_dirs ;;
      match r with
      | Some p => ret (Some p)
      | None => search_for_names rest search_dirs
      end
  end.

Definition not_supported : exn :=
  RuntimeError ("Not supported platform: {sys.platform}"%string, [platform sys]).

Definition font_not_found (family : str) : exn :=
  IOError ("Font not found: {family}"%string, [family]).

(** [get_font(family)] *)
Definition get_font (family : pyval) : M str :=
  if eqb (platform sys) (lit "darwin") then
    let search_dirs :=
      [lit "/System/Library/Fonts"; expanduser sys (lit "~/Library/Fonts")] in
    family <- lift (as_str family) ;;
    r <- search_for_names (search_names family) search_dirs ;;
    match r with
    | Some p => ret p
    | None => raise (font_not_found family)
    end
  else raise not_supported.

(** ** watermark.py: the job runner *)

Definition keyword_names : list str :=
  [lit "text"; lit "position"; lit "font_size"; lit "opacity"; lit "line_spacing";
   lit "shadow_offset"; lit "shadow_blur_radius"; lit "shadow_color"].

Definition keyword (k : str) (d : dict) : result pyval :=
  match dict_get k d with
  | Some v => Ok v
  | None => Raise TypeError
  end.

Definition as_color (v : pyval) : result color :=
  match v with
  | VList [r; g; b; a] =>
      (r <- as_float r ;; g <- as_float g ;; b <- as_float b ;; a <- as_float a ;;
       Ok (r, g, b, a))%result
  | _ => Raise TypeError
  end.

(** The call [add_watermark(input_image, font_file=font_file, **options)]
    binds the entries of [options] to the parameters: a missing or an
    unexpected name is a [TypeError].  The values get the types of the
    record here: integers given for the float parameters are converted, and
    a value the record cannot hold is refused, at the call, where Python
    fails only when the body comes to use the value. *)
Definition bind_options (options : pyval) : result (Watermark.options * color) :=
  match options with
  | VDict d =>
      if forallb (fun kv => existsb (eqb (fst kv)) keyword_names) d then
        (text <- keyword (lit "text") d ;;
         text <- as_str text ;;
         position <- keyword (lit "position") d ;;
         position <- as_str position ;;
         font_size <- keyword (lit "font_size") d ;;
         font_size <- as_float font_size ;;
         opacity <- keyword (lit "opacity") d ;;
         opacity <- as_float opacity ;;
         line_spacing <- keyword (lit "line_spacing") d ;;
         line_spacing <- as_float line_spacing ;;
         shadow_offset <- keyword (lit "shadow_offset") d ;;
         shadow_offset <- as_float shadow_offset ;;
         shadow_blur_radius <- keyword (lit "shadow_blur_radius") d ;;
         shadow_blur_radius <- as_float shadow_blur_radius ;;
         shadow_color <-
           match dict_get (lit "shadow_color") d with
           | Some c => as_color c
           | None => Ok default_shadow_color
           end ;;
         Ok (Options text position font_size opacity line_spacing shadow_offset
               shadow_blur_radius, shadow_color))%result
      else Raise TypeError
  | _ => Raise TypeError
  end.

(** The compositor as a step of a run. *)
Definition call_add_watermark (fuel : nat) (input_image : image) (font_file : str)
  (options : pyval) : M image :=
  match bind_options options with
  | Raise e => raise e
  | Ok (o, shadow_color) =>
      fun w =>
        match add_watermark E fuel input_image o font_file shadow_color with
        | None => ([], w, Diverged)
        | Some (Ok im) => ([], w, Done im)
        | Some (Raise e) => ([], w, Raised e)
        end
  end.

Definition image_exts : list str := [lit ".jpg"; lit ".jpeg"; lit ".png"; lit ".bmp"].

Definition video_exts : list str :=
  [lit ".avi"; lit ".m4a"; lit ".mkv"; lit ".mov"; lit ".mp4"; lit ".wmv"].

Definition unsupported (input_ext : str) : exn :=
  IOError ("Unsupported file extension: {input_ext}"%string, [input_ext]).

(** Lines 134-141: the watermark is saved in a temporary directory and
    laid over the video; the directory is removed when the block is left,
    also by an exception. *)
Definition render_video (input_file : str) (output_image : image)
  (output_file : pyval) (overwrite : bool) : M unit :=
  fun w =>
    match make_temp_dir sys w with
    | (w1, Raise e) => ([ETempDir], w1, Raised e)
    | (w1, Ok temp_dir) =>
        let png_file := path_join temp_dir (lit "watermark.png") in
        let '(t, w2, o) :=
          (act (EPngSave png_file) (fun w => png_save sys w output_image png_file) ;;
           act (EOverlay input_file output_file overwrite)
             (fun w => overlay_video sys w input_file png_file output_file overwrite))
            w1 in
        match cleanup sys w2 temp_dir with
        | (w3, Ok _) => (ETempDir :: t ++ [ECleanup temp_dir], w3, o)
        | (w3, Raise e) => (ETempDir :: t ++ [ECleanup temp_dir], w3, Raised e)
        end
    end.

(** [run_job(input_file, output_file, font_file, quality, options,
    overwrite)]; its first event records the call. *)
Definition run_job (fuel : nat) (input_file : str) (output_file : pyval)
  (font_file : str) (quality : pyval) (options : pyval) (overwrite : bool) : M unit :=
  emit (ERunJob input_file output_file font_file quality options overwrite) ;;
  let input_ext := lower_ext sys input_file in
  if existsb (eqb input_ext) image_exts then
    input_image <- ask_result (EImageOpen input_file)
                     (fun w => image_open sys w input_file) ;;
    output_image <- call_add_watermark fuel input_image font_file options ;;
    act (EImageSave output_file)
      (fun w => image_save sys w output_image output_file quality)
  else if existsb (eqb input_ext) video_exts then
    wh <- ask_result (EProbe input_file) (fun w => probe_size sys w input_file) ;;
    let input_image := Pillow.new wh (255, 255, 255, 0) in
    output_image <- call_add_watermark fuel input_image font_file options ;;
    render_video input_file output_image output_file overwrite
  else raise (unsupported input_ext).

(** ** watermark.py: the driver *)

(** The parameters click passes to [main]. *)
Record arguments := Args {
  cli_text : list str;
  cli_position : str;
  cli_font_family : str;
  cli_font_size : float;
  cli_opacity : float;
  cli_line_spacing : float;
  cli_shadow_offset : float;
  cli_shadow_blur_radius : float;
  cli_input_file : option str;
  cli_output_file : option str;
  cli_quality : Z;
  cli_batch_files : list str
}.

Definition same_file : exn :=
  IOError ("`input_file` == `output_file`, which is not allowed."%string, []).

Definition batch_conflict : exn :=
  ValueError ("`--text`, `--input-file` or `--output-file` is not allowed for batch mode."%string, []).

Definition single_missing : exn :=
  ValueError ("`--text`, `--input-file` or `--output-file` is required for single-file mode."%string, []).

(** One round of [for input_file in batch_files] (lines 180-192). *)
Definition batch_job (fuel : nat) (input_file : str) : M unit :=
  let meta_file := input_file ++ lit ".json" in
  b <- ask (EIsFile meta_file) (fun w => isfile sys w meta_file) ;;
  if b then
    emit (EPrint ("> Input file: {input_file}"%string, [input_file])) ;;
    cnt <- ask_result (EOpenRead meta_file) (fun w => read_text sys w meta_file) ;;
    options <- lift (json_loads sys cnt) ;;
    fo <- lift (py_pop (lit "font_family") options) ;;
    font_file <- get_font (fst fo) ;;
    oo <- lift (py_pop (lit "output_file") (snd fo)) ;;
    qo <- lift (py_pop (lit "quality") (snd oo)) ;;
    emit (EPrint ("Font file: {font_file}"%string, [font_file])) ;;
    if str_equals input_file (fst oo) then raise same_file
    else run_job fuel input_file (fst oo) font_file (fst qo) (snd qo) true
  else ret tt.

Fixpoint batch_loop (fuel : nat) (batch_files : list str) : M unit :=
  match batch_files with
  | [] => ret tt
  | input_file :: rest => batch_job fuel input_file ;; batch_loop fuel rest
  end.

(** The [options] dictionary of single-file mode (lines 206-214). *)
Definition single_options (a : arguments) (text : str) : dict :=
  [(lit "text", VStr text);
   (lit "position", VStr (cli_position a));
   (lit "font_size", VFloat (cli_font_size a));
   (lit "opacity", VFloat (cli_opacity a));
   (lit "line_spacing", VFloat (cli_line_spacing a));
   (lit "shadow_offset", VFloat (cli_shadow_offset a));
   (lit "shadow_blur_radius", VFloat (cli_shadow_blur_radius a))].

(** What the sidecar holds (lines 217-220). *)
Definition sidecar_options (a : arguments) (options : dict) (output_file : str) : dict :=
  dict_set (lit "quality") (VInt (cli_quality a))
    (dict_set (lit "output_file") (VStr output_file)
       (dict_set (lit "font_family") (VStr (cli_font_family a)) options)).

(** [main(...)] *)
Definition main (fuel : nat) (a : arguments) : M unit :=
  match cli_batch_files a with
  | _ :: _ =>
      batch_files <-
        (if list_eq_dec (list_eq_dec N.eq_dec) (cli_batch_files a) [lit "."]
         then ask_result (EListDir (lit ".")) (fun w => listdir sys w (lit "."))
         else ret (cli_batch_files a)) ;;
      match cli_text a, cli_input_file a, cli_output_file a with
      | [], None, None =>
          emit (EPrint ("Enter batch mode"%string, [])) ;;
          batch_loop fuel batch_files
      | _, _, _ => raise batch_conflict
      end
  | [] =>
      match cli_text a, cli_input_file a, cli_output_file a with
      | _ :: _, Some input_file, Some output_file =>
          let text := join (lit (String "010"%char EmptyString)) (cli_text a) in
          emit (EPrint ("> Input file: {input_file}\n  Output file: {output_file}"%string,
                        [input_file; output_file])) ;;
          if eqb input_file output_file then raise same_file
          else
            font_file <- get_font (VStr (cli_font_family a)) ;;
            emit (EPrint ("Font file: {font_file}"%string, [font_file])) ;;
            let options := single_options a text in
            run_job fuel input_file (VStr output_file) font_file
              (VInt (cli_quality a)) (VDict options) false ;;
            let options := sidecar_options a options output_file in
            let cnt := json_dumps sys (VDict options) in
            act (EOpenWrite (input_file ++ lit ".json") cnt)
              (fun w => write_text sys w (input_file ++ lit ".json") cnt)
      | _, _, _ => raise single_missing
      end
  end.

End World.

Arguments ret {W A} a.
Arguments bind {W A B} m k.
Arguments raise {W A} e.
Arguments emit {W} ev.
Arguments lift {W A} r.
Arguments ask {W A} ev f.
Arguments ask_result {W A} ev f.
Arguments act {W} ev f.
Arguments find_ext {W} sys search_dir search_name exts.
Arguments traverse_dir {W} sys depth search_dir search_name.
Arguments search_in_dirs {W} sys search_name search_dirs.
Arguments search_for_names {W} sys search_names search_dirs.
Arguments not_supported {W} sys.
Arguments get_font {W} sys family.
Arguments call_add_watermark {W} E fuel input_image font_file options.
Arguments render_video {W} sys input_file output_image output_file overwrite.
Arguments run_job {W} sys E fuel input_file output_file font_file quality options overwrite.
Arguments batch_job {W} sys E fuel input_file.
Arguments batch_loop {W} sys E fuel batch_files.
Arguments main {W} sys E fuel a.

End Driver.


(** * The vocabulary of the properties *)

Import Pillow Position Watermark Driver.

(** ** Strings *)

(** Strings of whitespace only ([str.strip] removes them whole). *)
Definition blank (s : str) : Prop := Forall (fun c => isspace c = true) s.

(** The separator of [font_family.split(',')] (utils.py, line 16). *)
Definition comma : char := 44%N.

(** The filter [if s] of the list comprehension of utils.py, line 16. *)
Definition nonempty (s : str) : bool := match s with [] => false | _ => true end.

(** A string that is not empty and neither starts nor ends with whitespace. *)
Definition trimmed (s : str) : bool :=
  match s with [] => false | c :: _ => negb (isspace c) end
  && match rev s with [] => false | d :: _ => negb (isspace d) end.

(** A segment between two commas: whitespace only, or a name with
    whitespace around it. *)
Inductive segment_of : option str -> str -> Prop :=
| segment_blank s : blank s -> segment_of None s
| segment_name l name r :
    blank l -> blank r -> trimmed name = true -> ~ In comma name ->
    segment_of (Some name) (l ++ name ++ r).

(** The names among the segments, in their order. *)
Definition names_of (l : list (option str)) : list str :=
  flat_map (fun o => match o with Some n => [n] | None => [] end) l.

(** ** The size search *)

(** The measured line height of the calibration string at [size] (lines
    54-55). *)
Definition line_height_at (E : engine) (font_file : str) (size : Z) : Z :=
  snd (getsize E font_file size calibration).

(** The test of line 56: the line height at [size] is above the bound. *)
Definition exceeds (E : engine) (font_file : str) (thr : num) (size : Z)
  : bool := num_gt (NInt (line_height_at E font_file size)) thr.

(** ** Traces *)

(** The calls of [run_job] in a trace. *)
Definition is_run_job (ev : event) : bool :=
  match ev with ERunJob _ _ _ _ _ _ => true | _ => false end.

Definition run_jobs (t : list event) : list event := filter is_run_job t.

(** Events that neither run a job nor write anything. *)
Definition harmless (ev : event) : bool :=
  match ev with
  | EPrint _ | EIsFile _ | EIsDir _ | EListDir _ | EOpenRead _ => true
  | _ => false
  end.

(** The three parts of what a computation returns from a state. *)
Definition trace_of {W A} (r : list event * W * outcome A) : list event := fst (fst r).

Definition world_of {W A} (r : list event * W * outcome A) : W := snd (fst r).

Definition outcome_of {W A} (r : list event * W * outcome A) : outcome A := snd r.

(** Every event of [m] satisfies [P]. *)
Definition emits {W : Type} (P : event -> bool) {A} (m : M W A) : Prop :=
  forall w, forallb P (trace_of (m w)) = true.

(** [m] leaves the state as it is and never diverges. *)
Definition pure_read {W A : Type} (m : M W A) : Prop :=
  forall w, world_of (m w) = w /\ outcome_of (m w) <> Diverged.

(** [get_font] only looks: events that read, state unchanged, no divergence. *)
Definition looks {W A : Type} (m : M W A) : Prop := emits harmless m /\ pure_read m.

(** A job the driver may run: its input is not its output. *)
Definition job_ok (ev : event) : bool :=
  match ev with
  | ERunJob i o _ _ _ _ => negb (str_equals i o)
  | _ => true
  end.

(** Any event but a call of [run_job]. *)
Definition not_job (ev : event) : bool := negb (is_run_job ev).

(** From state [w], [m] raises, changes nothing and emits harmless events. *)
Definition refuses_at {W : Type} (w : W) {A} (m : M W A) : Prop :=
  exists e t, m w = (t, w, Raised e) /\ forallb harmless t = true.




(** The separator of ['\n'.join(text)] (line 198). *)
Definition newline : str := lit (String "010"%char EmptyString).

(** ** binary64 rounding *)

(** Round to nearest, ties to even, of [x / d]. *)
Definition rnd (x d : Z) : Z :=
  let f := x / d in
  match 2 * (x mod d) ?= d with
  | Lt => f
  | Eq => if Z.even f then f else f + 1
  | Gt => f + 1
  end.

(** The record after [k >= 1] steps from an exact [m]. *)
Definition shifted (m : Z) (k : Z) : shr_record :=
  Build_shr_record (m / 2 ^ k) (Z.odd (m / 2 ^ (k - 1)))
    (negb (m mod 2 ^ (k - 1) =? 0)).

(** [fexp] for binary64. *)
Definition fexp64 (e : Z) : Z := Z.max (e - 53) (-1074).

(** What [binary_round_aux] returns for the rounded mantissa [q] at
    exponent [E]. *)
Definition packed (sx : bool) (q E : Z) : float :=
  if q =? 0 then S754_zero sx
  else if q <? 2 ^ 53 then
    if E <=? 971 then S754_finite sx (Z.to_pos q) E else S754_infinity sx
  else
    if E + 1 <=? 971 then S754_finite sx (Z.to_pos (2 ^ 52)) (E + 1)
    else S754_infinity sx.

(** Values are scaled by [2^K]: every exponent met is at least [-K]. *)
Definition K : Z := 2148.

(** Integers with the two infinities, for the scaled values of floats. *)
Inductive ext := NegInf | Fin (x : Z) | PosInf.

Definition ext_le (a b : ext) : Prop :=
  match a, b with
  | NegInf, _ => True
  | _, PosInf => True
  | Fin x, Fin y => x <= y
  | _, _ => False
  end.

Definition ext_lt (a b : ext) : Prop :=
  match a, b with
  | NegInf, NegInf => False
  | NegInf, _ => True
  | PosInf, _ => False
  | Fin x, Fin y => x < y
  | Fin _, PosInf => True
  | Fin _, NegInf => False
  end.

(** Negation. *)
Definition ext_opp (a : ext) : ext :=
  match a with
  | NegInf => PosInf
  | Fin x => Fin (- x)
  | PosInf => NegInf
  end.

(** The value of a float, scaled by [2^K]; [None] for NaN. *)
Definition sval (f : float) : option ext :=
  match f with
  | S754_nan => None
  | S754_infinity s => Some (if s then NegInf else PosInf)
  | S754_zero _ => Some (Fin 0)
  | S754_finite s m e => Some (Fin (cond_Zopp s (Zpos m * 2 ^ (e + K))))
  end.

(** A scaled magnitude, or infinity from [2^1024] on. *)
Definition clamp (v : Z) : ext := if v <? 2 ^ (1024 + K) then Fin v else PosInf.

(** A magnitude with the sign [s]. *)
Definition signed (s : bool) (a : ext) : ext := if s then ext_opp a else a.

(** The value [binary_round_aux] gives a positive number [x], scaled,
    whose binade is [2^(L-1) <= x < 2^L]. *)
Definition rounded (x L : Z) : Z :=
  let D := 2 ^ (fexp64 L + K) in rnd x D * D.

(** A mantissa and exponent in canonical form. *)
Definition canon (m : positive) (e : Z) : Prop :=
  fexp64 (Zpos (digits2_pos m) + e) = e.

(** The shapes a rounded result of sign [s] can take. *)
Inductive rounded_form (s : bool) : float -> Prop :=
| RF_zero : rounded_form s (S754_zero s)
| RF_inf : rounded_form s (S754_infinity s)
| RF_finite m e : canon m e -> e <= 971 -> rounded_form s (S754_finite s m e).

(** ** An example: a toy rasterizer, a toy JSON codec and a file system *)

(** A toy rasterizer: every glyph is [size] wide and high, the empty
    string measures nothing, drawing and blurring leave the pixels. *)
Definition demo_engine : engine :=
  Engine
    (fun _ size s =>
       match s with
       | [] => (0, 0)
       | _ => (size * Z.of_nat (List.length s), size)
       end)
    (fun _ _ _ d _ => Ok d)
    (fun _ _ d => Ok d)
    (fun dst src => src)
    (fun _ a b => b).

(** An opaque image of 100 by 50 pixels. *)
Definition demo_image : image :=
  Image (100, 50) (fun x y => (clip8 x, clip8 y, 7, 255)).

(** The floats 2.0, 0.2, 0.05 and 0.75. *)
Definition f2_0 : float := S754_finite false 4503599627370496 (-51).

Definition f0_2 : float := S754_finite false 7205759403792794 (-55).

Definition f0_05 : float := S754_finite false 7205759403792794 (-57).

Definition f0_75 : float := S754_finite false 6755399441055744 (-53).

(** A style with the defaults of the command line but for the position. *)
Definition demo_options (text : str) (font_size opacity : float) : options :=
  Options text (lit "left top") font_size opacity f0_2 f0_04 f0_05.

Definition demo_font : str := lit "/System/Library/Fonts/Demo.ttf".

(** A toy serializer: a tag, then the parts; strings, lists and
    dictionaries have their length first. *)
Definition enc_Z (z : Z) : list N := [if z <? 0 then 1%N else 0%N; Z.abs_N z].

Definition enc_float (f : float) : list N :=
  match f with
  | S754_zero s => [0%N; if s then 1%N else 0%N]
  | S754_infinity s => [1%N; if s then 1%N else 0%N]
  | S754_nan => [2%N]
  | S754_finite s m e => [3%N; if s then 1%N else 0%N; Npos m] ++ enc_Z e
  end.

Fixpoint encode (v : pyval) : list N :=
  match v with
  | VNone => [0%N]
  | VBool b => [1%N; if b then 1%N else 0%N]
  | VInt z => 2%N :: enc_Z z
  | VFloat f => 3%N :: enc_float f
  | VStr s => 4%N :: N.of_nat (List.length s) :: s
  | VList l =>
      5%N :: N.of_nat (List.length l)
      :: (fix each (l : list pyval) : list N :=
            match l with
            | [] => []
            | x :: r => encode x ++ each r
            end) l
  | VDict d =>
      6%N :: N.of_nat (List.length d)
      :: (fix each (d : list (str * pyval)) : list N :=
            match d with
            | [] => []
            | (k, x) :: r => N.of_nat (List.length k) :: k ++ encode x ++ each r
            end) d
  end.

(** Its inverse; [fuel] bounds the depth of nesting. *)
Definition dec_Z (s : list N) : option (Z * list N) :=
  match s with
  | sg :: n :: r => Some (if N.eqb sg 1 then - Z.of_N n else Z.of_N n, r)
  | _ => None
  end.

Definition dec_float (s : list N) : option (float * list N) :=
  match s with
  | 0%N :: sg :: r => Some (S754_zero (N.eqb sg 1), r)
  | 1%N :: sg :: r => Some (S754_infinity (N.eqb sg 1), r)
  | 2%N :: r => Some (S754_nan, r)
  | 3%N :: sg :: Npos m :: r =>
      match dec_Z r with
      | Some (e, r') => Some (S754_finite (N.eqb sg 1) m e, r')
      | None => None
      end
  | _ => None
  end.

Fixpoint decode (fuel : nat) (s : list N) : option (pyval * list N) :=
  match fuel with
  | O => None
  | S fuel' =>
      match s with
      | 0%N :: r => Some (VNone, r)
      | 1%N :: b :: r => Some (VBool (N.eqb b 1), r)
      | 2%N :: r => option_map (fun zr => (VInt (fst zr), snd zr)) (dec_Z r)
      | 3%N :: r => option_map (fun fr => (VFloat (fst fr), snd fr)) (dec_float r)
      | 4%N :: n :: r =>
          Some (VStr (firstn (N.to_nat n) r), skipn (N.to_nat n) r)
      | 5%N :: n :: r =>
          (fix each (k : nat) (r : list N) : option (pyval * list N) :=
             match k with
             | O => Some (VList [], r)
             | S k' =>
                 match decode fuel' r with
                 | Some (x, r') =>
                     match each k' r' with
                     | Some (VList l, r'') => Some (VList (x :: l), r'')
                     | _ => None
                     end
                 | None => None
                 end
             end) (N.to_nat n) r
      | 6%N :: n :: r =>
          (fix each (k : nat) (r : list N) : option (pyval * list N) :=
             match k with
             | O => Some (VDict [], r)
             | S k' =>
                 match r with
                 | len :: r1 =>
                     let key := firstn (N.to_nat len) r1 in
                     match decode fuel' (skipn (N.to_nat len) r1) with
                     | Some (x, r') =>
                         match each k' r' with
                         | Some (VDict d, r'') => Some (VDict ((key, x) :: d), r'')
                         | _ => None
                         end
                     | None => None
                     end
                 | [] => None
                 end
             end) (N.to_nat n) r
      | _ => None
      end
  end.

Definition demo_loads (s : str) : result pyval :=
  match decode (S (List.length s)) s with
  | Some (v, []) => Ok v
  | _ => Raise (ValueError ("Expecting value"%string, []))
  end.

(** A toy system: the state is the list of files written, with their
    text; one font is installed. *)
Definition demo_world := list (str * str).

Definition has_file (w : demo_world) (path : str) : bool :=
  existsb (fun kv => eqb (fst kv) path) w.

Definition demo_ext (path : str) : str :=
  rev (firstn 4 (rev path)).

Definition demo_save (w : demo_world) (path : pyval) : demo_world * result unit :=
  match path with
  | VStr p => ((p, []) :: w, Ok tt)
  | _ => (w, Raise TypeError)
  end.

Definition demo_system : system demo_world :=
  System demo_world
    (lit "darwin")
    (fun p => lit "/Users/demo" ++ skipn 1 p)
    10
    (fun w p => eqb p demo_font || has_file w p)
    (fun _ _ => false)
    (fun _ _ => Ok [])
    (fun w p =>
       match find (fun kv => eqb (fst kv) p) w with
       | Some kv => Ok (snd kv)
       | None => Raise (OSError 2)
       end)
    (fun w p cnt => ((p, cnt) :: w, Ok tt))
    demo_loads
    encode
    demo_ext
    (fun _ _ => Ok demo_image)
    (fun w _ path _ => demo_save w path)
    (fun _ _ => Ok (64, 48))
    (fun w => (w, Ok (lit "/tmp/wm")))
    (fun w _ path => ((path, []) :: w, Ok tt))
    (fun w _ _ path _ => demo_save w path)
    (fun w temp_dir =>
       (filter (fun kv => negb (eqb (fst kv) (path_join temp_dir (lit "watermark.png")))) w,
        Ok tt)).

(** The command line of a single run. *)
Definition demo_args (input_file output_file : str) : arguments :=
  Args [lit "hi"; lit "there"] (lit "left top") (lit "Demo, Other") f1_0 f0_75
    f0_2 f0_04 f0_05 (Some input_file) (Some output_file) 95 [].

(** The single run on "a.jpg" with output "b.jpg", and the options
    dictionary it builds (lines 206-214). *)
Definition demo_single : arguments := demo_args (lit "a.jpg") (lit "b.jpg").

Definition demo_single_options : pyval :=
  VDict (single_options demo_single (join newline (cli_text demo_single))).



(** ** Floats that are not below zero *)

(** A float that is not below zero (and so is no NaN). *)
Definition nonneg_float (f : float) : bool := valid f && SFleb f0_0 f.

(** A float between 0.0 and 1.0. *)
Definition unit_float (f : float) : bool := nonneg_float f && SFleb f f1_0.

(** The floats that are neither NaN nor below zero. *)
Definition above_zero (f : float) : Prop :=
  match f with
  | S754_zero _ => True
  | S754_infinity s | S754_finite s _ _ => s = false
  | S754_nan => False
  end.

(** ** The font locator *)

(** The questions [get_font] asks the file system. *)
Definition is_query (ev : event) : bool :=
  match ev with
  | EIsFile _ | EIsDir _ | EListDir _ => true
  | _ => false
  end.

(** The elements of [l] up to and including the first that satisfies [f]. *)
Fixpoint upto {A} (f : A -> bool) (l : list A) : list A :=
  match l with
  | [] => []
  | x :: r => x :: if f x then [] else upto f r
  end.

(** The path [traverse_dir] tests for a name and an extension in a
    directory (utils.py, line 22). *)
Definition candidate (search_dir search_name ext : str) : str :=
  path_join search_dir (search_name ++ ext).

(** The directories [traverse_dir] can reach from [root] in the state [w]:
    [root] itself, and every entry that [os.listdir] gives for a reached
    directory and that [os.path.isdir] accepts (utils.py, lines 26-29). *)
Inductive below {W : Type} (sys : system W) (w : W) (root : str) : str -> Prop :=
| below_root : below sys w root root
| below_sub dir subs sub :
    below sys w root dir ->
    listdir W sys w dir = Ok subs ->
    In sub subs ->
    isdir W sys w (path_join dir sub) = true ->
    below sys w root (path_join dir sub).

(** Whatever [m] returns from [w] satisfies [Q]. *)
Definition yields {W A : Type} (w : W) (m : M W A) (Q : A -> Prop) : Prop :=
  forall t w' a, m w = (t, w', Done a) -> Q a.

(** The two directories searched on macOS (utils.py, lines 9-12). *)
Definition font_roots {W : Type} (sys : system W) : list str :=
  [lit "/System/Library/Fonts"; expanduser W sys (lit "~/Library/Fonts")].

(** What [traverse_dir] may return for the name [n] from [root]: nothing,
    or a file that is there, named [n] with one of the extensions, in a
    directory below [root]. *)
Definition hit {W : Type} (sys : system W) (w : W) (root n : str) (r : option str)
  : Prop :=
  forall p, r = Some p ->
    isfile W sys w p = true
    /\ exists dir ext,
         below sys w root dir /\ In ext search_exts /\ p = candidate dir n ext.

(** A file system in which no directory can be listed. *)
Definition locked_system : system demo_world :=
  System demo_world
    (lit "darwin")
    (expanduser demo_world demo_system)
    10
    (fun _ _ => false)
    (fun _ _ => false)
    (fun _ _ => Raise (OSError 13))
    (read_text demo_world demo_system)
    (write_text demo_world demo_system)
    (json_loads demo_world demo_system)
    (json_dumps demo_world demo_system)
    (lower_ext demo_world demo_system)
    (image_open demo_world demo_system)
    (image_save demo_world demo_system)
    (probe_size demo_world demo_system)
    (make_temp_dir demo_world demo_system)
    (png_save demo_world demo_system)
    (overlay_video demo_world demo_system)
    (cleanup demo_world demo_system).

(** ** Writes *)

(** The events that change the file system: the sidecar, the image, the
    temporary directory with its PNG, the video, the removal of the directory. *)
Definition is_write (ev : event) : bool :=
  match ev with
  | EOpenWrite _ _ | EImageSave _ | ETempDir | EPngSave _ | EOverlay _ _ _
  | ECleanup _ => true
  | _ => false
  end.

(** The events that write nothing. *)
Definition quiet (ev : event) : bool := negb (is_write ev).

(** The events other than the writing of a sidecar. *)
Definition no_sidecar (ev : event) : bool :=
  match ev with
  | EOpenWrite _ _ => false
  | _ => true
  end.

(** The three entries batch mode pops from a sidecar (lines 185-187). *)
Definition popped_keys : list str :=
  [lit "font_family"; lit "output_file"; lit "quality"].

(** The parameters of [add_watermark] that have no default (lines 26-33,
    [font_file] apart). *)
Definition required_names : list str :=
  [lit "text"; lit "position"; lit "font_size"; lit "opacity"; lit "line_spacing";
   lit "shadow_offset"; lit "shadow_blur_radius"].

(** The style a single run hands to the compositor. *)
Definition single_style (a : arguments) : options :=
  Options (join newline (cli_text a)) (cli_position a) (cli_font_size a)
    (cli_opacity a) (cli_line_spacing a) (cli_shadow_offset a)
    (cli_shadow_blur_radius a).

(** The batch run with another style, font family and quality. *)
Definition demo_replay_other : arguments :=
  Args [] (lit "left top") (lit "Other") f2_0 f0_0 f0_05 f0_2 f0_04 None None 10
    [lit "c.jpg"; lit "a.jpg"; lit "b.jpg"].

(** ** More examples *)

(** The command line of a batch run on three files. *)
Definition demo_replay : arguments :=
  Args [] (lit "right bottom") (lit "Demo") f1_0 f0_75 f0_2 f0_04 f0_05 None None 95
    [lit "c.jpg"; lit "a.jpg"; lit "b.jpg"].

(** A state in which the sidecar of "a.jpg" is no JSON text. *)
Definition demo_broken : demo_world := [(lit "a.jpg.json", lit "x")].

(** A state in which the sidecar of "a.jpg" names no font family. *)
Definition demo_partial : demo_world :=
  [(lit "a.jpg.json", encode (VDict [(lit "output_file", VStr (lit "b.jpg"))]))].

(** A state with a font of the user's own. *)
Definition demo_home : demo_world := [(lit "/Users/demo/Library/Fonts/Mine.otf", [])].

(** A file system with one font, in a directory below the system fonts. *)
Definition nested_system : system demo_world :=
  System demo_world
    (platform demo_world demo_system)
    (expanduser demo_world demo_system)
    (recursion_limit demo_world demo_system)
    (fun _ p => eqb p (lit "/System/Library/Fonts/Sub/Deep.ttf"))
    (fun _ p => eqb p (lit "/System/Library/Fonts/Sub"))
    (fun _ p => if eqb p (lit "/System/Library/Fonts")
                then Ok [lit "readme"; lit "Sub"] else Ok [])
    (read_text demo_world demo_system)
    (write_text demo_world demo_system)
    (json_loads demo_world demo_system)
    (json_dumps demo_world demo_system)
    (lower_ext demo_world demo_system)
    (image_open demo_world demo_system)
    (image_save demo_world demo_system)
    (probe_size demo_world demo_system)
    (make_temp_dir demo_world demo_system)
    (png_save demo_world demo_system)
    (overlay_video demo_world demo_system)
    (cleanup demo_world demo_system).


(** * Properties *)

(** * Strings: [strip] and [split] *)

Lemma str_eqb_eq (a b : str) : PyStr.eqb a b = true <-> a = b.
Proof.
  unfold PyStr.eqb. destruct (list_eq_dec N.eq_dec a b); split; congruence.
Qed.

Lemma lstrip_blank s : blank s -> lstrip s = [].
Proof.
  induction 1 as [|c s Hc _ IH]; simpl; [reflexivity|]. now rewrite Hc.
Qed.

Lemma lstrip_nil_blank s : lstrip s = [] -> blank s.
Proof.
  induction s as [|c s IH]; simpl; intros H; [constructor|].
  destruct (isspace c) eqn:Hc; [|discriminate]. constructor; [exact Hc|exact (IH H)].
Qed.

Lemma lstrip_app_char s c :
  lstrip (s ++ [c])
  = match lstrip s with
    | [] => if isspace c then [] else [c]
    | l => l ++ [c]
    end.
Proof.
  induction s as [|d s IH]; simpl.
  - reflexivity.
  - destruct (isspace d); [exact IH|reflexivity].
Qed.

Lemma rstrip_cons c s :
  rstrip (c :: s)
  = match rstrip s with
    | [] => if isspace c then [] else [c]
    | r => c :: r
    end.
Proof.
  unfold rstrip. simpl rev. rewrite lstrip_app_char.
  destruct (lstrip (rev s)) as [|d l] eqn:El.
  - simpl. destruct (isspace c); reflexivity.
  - rewrite rev_app_distr. simpl.
    destruct (rev l ++ [d]) eqn:E2; [destruct (rev l); discriminate|reflexivity].
Qed.

Lemma rstrip_nil : rstrip [] = [].
Proof. reflexivity. Qed.

Lemma rstrip_blank s : blank s -> rstrip s = [].
Proof.
  induction 1 as [|c s Hc _ IH]; [reflexivity|]. rewrite rstrip_cons, IH, Hc. reflexivity.
Qed.

Lemma strip_blank s : blank s -> strip s = [].
Proof. intros H. unfold strip. now rewrite (lstrip_blank s H). Qed.

Lemma rstrip_head c s : isspace c = false -> exists r, rstrip (c :: s) = c :: r.
Proof.
  intros Hc. rewrite rstrip_cons, Hc. destruct (rstrip s); eauto.
Qed.

Lemma lstrip_head s : lstrip s = [] \/ exists c r, lstrip s = c :: r /\ isspace c = false.
Proof.
  induction s as [|c s IH]; simpl; [now left|].
  destruct (isspace c) eqn:Hc; [exact IH|]. right. eauto.
Qed.

Lemma lstrip_idem s : lstrip (lstrip s) = lstrip s.
Proof.
  destruct (lstrip_head s) as [->|(c & r & -> & Hc)]; [reflexivity|]. simpl. now rewrite Hc.
Qed.

Lemma rstrip_idem s : rstrip (rstrip s) = rstrip s.
Proof.
  unfold rstrip. rewrite rev_involutive, lstrip_idem. reflexivity.
Qed.

Lemma lstrip_strip s : lstrip (strip s) = strip s.
Proof.
  unfold strip. destruct (lstrip_head s) as [->|(c & r & -> & Hc)]; [reflexivity|].
  destruct (rstrip_head c r Hc) as [r' ->]. simpl. now rewrite Hc.
Qed.

Lemma rstrip_strip s : rstrip (strip s) = strip s.
Proof. unfold strip. apply rstrip_idem. Qed.

Lemma strip_idem s : strip (strip s) = strip s.
Proof. unfold strip at 1. rewrite lstrip_strip. apply rstrip_strip. Qed.

(** [strip] ignores whitespace added on either side. *)
Lemma lstrip_app_blank l s : blank l -> lstrip (l ++ s) = lstrip s.
Proof.
  induction 1 as [|c l Hc _ IH]; simpl; [reflexivity|]. now rewrite Hc.
Qed.

Lemma blank_rev s : blank s -> blank (rev s).
Proof. unfold blank. intros H. apply Forall_rev. exact H. Qed.

Lemma rstrip_app_blank s r : blank r -> rstrip (s ++ r) = rstrip s.
Proof.
  intros H. unfold rstrip. rewrite rev_app_distr, lstrip_app_blank; [reflexivity|].
  now apply blank_rev.
Qed.

Lemma lstrip_rstrip_comm s : lstrip (rstrip s) = rstrip (lstrip s).
Proof.
  induction s as [|c s IH]; [reflexivity|].
  simpl lstrip. destruct (isspace c) eqn:Hc.
  - rewrite rstrip_cons, Hc. rewrite <- IH.
    destruct (rstrip s); [reflexivity|]. cbn [lstrip]. now rewrite Hc.
  - rewrite rstrip_cons, Hc. destruct (rstrip s); simpl; now rewrite Hc.
Qed.

Lemma strip_pad l s r : blank l -> blank r -> strip (l ++ s ++ r) = strip s.
Proof.
  intros Hl Hr. unfold strip. rewrite lstrip_app_blank by exact Hl.
  rewrite <- !lstrip_rstrip_comm. now rewrite rstrip_app_blank.
Qed.

(** [split] and [join]. *)
Lemma split_sep_nonempty sep s : split_sep sep s <> [].
Proof.
  destruct s as [|c s]; simpl; [discriminate|].
  destruct (N.eqb c sep); [discriminate|]. destruct (split_sep sep s); discriminate.
Qed.

Lemma split_sep_free sep s : ~ In sep s -> split_sep sep s = [s].
Proof.
  induction s as [|c s IH]; intros H; simpl; [reflexivity|].
  destruct (N.eqb_spec c sep) as [->|Hne]; [exfalso; apply H; now left|].
  rewrite IH; [reflexivity|]. intros Hin. apply H. now right.
Qed.

Lemma split_sep_app sep s t :
  ~ In sep s -> split_sep sep (s ++ sep :: t) = s :: split_sep sep t.
Proof.
  induction s as [|c s IH]; intros H; simpl.
  - now rewrite N.eqb_refl.
  - destruct (N.eqb_spec c sep) as [->|Hne]; [exfalso; apply H; now left|].
    rewrite IH; [reflexivity|]. intros Hin. apply H. now right.
Qed.

Lemma split_sep_join sep segs :
  segs <> [] -> Forall (fun s => ~ In sep s) segs ->
  split_sep sep (join [sep] segs) = segs.
Proof.
  intros Hne Hall. induction Hall as [|s segs Hs Hall IH]; [congruence|].
  destruct segs as [|s2 segs].
  - simpl. now apply split_sep_free.
  - change (join [sep] (s :: s2 :: segs)) with (s ++ sep :: join [sep] (s2 :: segs)).
    rewrite split_sep_app by exact Hs. rewrite IH; [reflexivity|discriminate].
Qed.

Lemma split_sep_concat sep s : join [sep] (split_sep sep s) = s.
Proof.
  induction s as [|c s IH]; [reflexivity|]. simpl.
  destruct (N.eqb_spec c sep) as [->|Hne].
  - pose proof (split_sep_nonempty sep s) as Hn.
    destruct (split_sep sep s) as [|a l] eqn:Es; [congruence|].
    simpl. simpl in IH. now rewrite IH.
  - pose proof (split_sep_nonempty sep s) as Hn.
    destruct (split_sep sep s) as [|a l] eqn:Es; [congruence|].
    destruct l as [|b l]; simpl in *; now rewrite <- IH.
Qed.

Lemma split_sep_segments sep s : Forall (fun seg => ~ In sep seg) (split_sep sep s).
Proof.
  induction s as [|c s IH]; simpl.
  - constructor; [intros []|constructor].
  - destruct (N.eqb_spec c sep) as [->|Hne].
    + constructor; [intros []|exact IH].
    + pose proof (split_sep_nonempty sep s) as Hn.
      destruct (split_sep sep s) as [|a l]; [congruence|].
      inversion IH; subst. constructor; [|assumption].
      intros [H|H]; [congruence|contradiction].
Qed.

Lemma split_sep_within sep s (P : char -> Prop) :
  Forall P s -> Forall (Forall P) (split_sep sep s).
Proof.
  induction 1 as [|c s Hc _ IH]; simpl.
  - repeat constructor.
  - destruct (N.eqb c sep).
    + constructor; [constructor|exact IH].
    + pose proof (split_sep_nonempty sep s) as Hn.
      destruct (split_sep sep s) as [|a l]; [congruence|].
      inversion IH; subst. constructor; [constructor; assumption|assumption].
Qed.

(** * The position argument *)

Lemma str_eqb_refl (a : str) : PyStr.eqb a a = true.
Proof. apply str_eqb_eq. reflexivity. Qed.

Lemma axis_value_cons is_axis code d t toks :
  axis_value is_axis code d (t :: toks)
  = axis_value is_axis code (if is_axis t then code t else d) toks.
Proof.
  unfold axis_value. simpl. destruct (is_axis t); [|reflexivity].
  simpl. destruct (rev (filter is_axis toks)); reflexivity.
Qed.

Lemma parse_tokens_spec position toks : forall h v,
  parse_tokens position toks h v
  = if forallb is_token toks
    then Ok (axis_value is_h_token h_code h toks, axis_value is_v_token v_code v toks)
    else Raise (unrecognized position).
Proof.
  induction toks as [|t toks IH]; intros h v.
  - reflexivity.
  - rewrite !axis_value_cons. simpl parse_tokens. simpl forallb.
    unfold is_token, is_h_token, is_v_token, h_code, v_code.
    destruct (eqb t (lit "right")) eqn:Er.
    { apply str_eqb_eq in Er. subst t. rewrite IH. reflexivity. }
    destruct (eqb t (lit "left")) eqn:El.
    { apply str_eqb_eq in El. subst t. rewrite IH. reflexivity. }
    destruct (eqb t (lit "bottom")) eqn:Eb.
    { apply str_eqb_eq in Eb. subst t. rewrite IH. reflexivity. }
    destruct (eqb t (lit "top")) eqn:Et.
    { rewrite IH. reflexivity. }
    reflexivity.
Qed.

Lemma axis_value_range is_axis code d toks :
  (d = -1 \/ d = 1) -> (forall t, code t = -1 \/ code t = 1) ->
  axis_value is_axis code d toks = -1 \/ axis_value is_axis code d toks = 1.
Proof.
  intros Hd Hc. unfold axis_value. destruct (rev (filter is_axis toks)); auto.
Qed.

(** C8. A position is accepted exactly when every token of it is one of
    left, right, top, bottom, and is refused with the error of line 49
    otherwise.  An accepted position has one value per axis: the code of the
    last token of that axis, or the default (right, bottom) when no token
    names the axis.  Omitting an axis or naming it more than once is
    therefore no error. *)
Theorem parse_position_total position :
  parse_position position
  = (if forallb is_token (split_ws position)
     then Ok (axis_value is_h_token h_code RIGHT (split_ws position),
              axis_value is_v_token v_code BOTTOM (split_ws position))
     else Raise (unrecognized position))
  /\ (axis_value is_h_token h_code RIGHT (split_ws position) = RIGHT
      \/ axis_value is_h_token h_code RIGHT (split_ws position) = LEFT)
  /\ (axis_value is_v_token v_code BOTTOM (split_ws position) = BOTTOM
      \/ axis_value is_v_token v_code BOTTOM (split_ws position) = TOP).
Proof.
  split; [apply parse_tokens_spec|].
  split; apply axis_value_range; auto; intros t;
    unfold h_code, v_code; destruct (eqb t _); auto.
Qed.

(** * The font family argument and the monad of the driver *)

Lemma search_names_eq family :
  search_names family = filter nonempty (List.map strip (split_sep comma family)).
Proof.
  unfold search_names, comma. generalize (split_sep 44%N family) as l.
  induction l as [|s l IH]; [reflexivity|].
  cbn [filter List.map]. destruct (strip s) eqn:Es; cbn [nonempty].
  - exact IH.
  - cbn [List.map]. rewrite Es. f_equal. exact IH.
Qed.

Lemma search_names_in family n :
  In n (search_names family)
  <-> n <> [] /\ exists seg, In seg (split_sep comma family) /\ strip seg = n.
Proof.
  rewrite search_names_eq, filter_In, in_map_iff. split.
  - intros [(seg & Hs & Hin) Hn]. split; [destruct n; [discriminate|congruence]|eauto].
  - intros [Hn (seg & Hin & Hs)]. split; [eauto|]. destruct n; [congruence|reflexivity].
Qed.

Lemma search_names_stripped family n :
  In n (search_names family) -> n <> [] /\ strip n = n.
Proof.
  intros H. apply search_names_in in H. destruct H as [Hn (seg & _ & <-)].
  split; [exact Hn|apply strip_idem].
Qed.

Lemma search_names_join segs :
  segs <> [] -> Forall (fun s => ~ In comma s) segs ->
  search_names (join [comma] segs) = filter nonempty (List.map strip segs).
Proof.
  intros Hne Hfree. rewrite search_names_eq, split_sep_join; auto.
Qed.

Lemma map_strip_pad segs1 segs2 :
  Forall2 (fun a b => exists l r, blank l /\ blank r /\ b = l ++ a ++ r) segs1 segs2 ->
  List.map strip segs2 = List.map strip segs1.
Proof.
  induction 1 as [|a b l1 l2 (l & r & Hl & Hr & ->) _ IH]; simpl; [reflexivity|].
  now rewrite strip_pad, IH.
Qed.

Lemma blank_no_comma l : blank l -> ~ In comma l.
Proof.
  intros H Hin. unfold blank in H. rewrite Forall_forall in H.
  specialize (H _ Hin). discriminate.
Qed.

Lemma search_names_padding segs1 segs2 :
  segs1 <> [] -> Forall (fun s => ~ In comma s) segs1 ->
  Forall2 (fun a b => exists l r, blank l /\ blank r /\ b = l ++ a ++ r) segs1 segs2 ->
  search_names (join [comma] segs2) = search_names (join [comma] segs1).
Proof.
  intros Hne Hfree Hpad.
  assert (Hne2 : segs2 <> []) by (inversion Hpad; subst; congruence).
  assert (Hfree2 : Forall (fun s => ~ In comma s) segs2).
  { clear Hne Hne2. revert Hfree.
    induction Hpad as [|a b l1 l2 (l & r & Hl & Hr & ->) _ IH]; intros Hfree;
      [constructor|].
    inversion Hfree as [|? ? Ha Hl1]; subst. constructor.
    - rewrite !in_app_iff. intros [H|[H|H]].
      + exact (blank_no_comma _ Hl H).
      + contradiction.
      + exact (blank_no_comma _ Hr H).
    - apply IH; assumption. }
  rewrite !search_names_join by assumption. now rewrite (map_strip_pad _ _ Hpad).
Qed.

(** [strip] takes whitespace from both ends, and all of it. *)
Lemma lstrip_split s :
  exists l, blank l /\ s = l ++ lstrip s.
Proof.
  induction s as [|c s (l & Hl & Hs)]; [exists []; split; [constructor|reflexivity]|].
  cbn [lstrip]. destruct (isspace c) eqn:Hc.
  - exists (c :: l). split; [constructor; assumption|]. cbn. now f_equal.
  - exists []. split; [constructor|reflexivity].
Qed.

Lemma rstrip_split s :
  exists r, blank r /\ s = rstrip s ++ r.
Proof.
  destruct (lstrip_split (rev s)) as (l & Hl & Hs). exists (rev l).
  split; [now apply blank_rev|]. unfold rstrip.
  rewrite <- rev_app_distr, <- Hs. now rewrite rev_involutive.
Qed.

Lemma lstrip_trimmed s : trimmed s = true -> lstrip s = s.
Proof.
  unfold trimmed. destruct s as [|c s]; [discriminate|]. intros H.
  apply andb_prop in H. destruct H as [H _]. cbn [lstrip].
  destruct (isspace c); [discriminate|reflexivity].
Qed.

Lemma trimmed_rev s : trimmed (rev s) = trimmed s.
Proof.
  unfold trimmed. rewrite rev_involutive. apply andb_comm.
Qed.

Lemma strip_trimmed s : trimmed s = true -> strip s = s.
Proof.
  intros H. unfold strip, rstrip. rewrite (lstrip_trimmed s H).
  rewrite lstrip_trimmed by now rewrite trimmed_rev. apply rev_involutive.
Qed.

Lemma strip_split s :
  exists l r, blank l /\ blank r /\ s = l ++ strip s ++ r
              /\ (strip s = [] \/ trimmed (strip s) = true).
Proof.
  destruct (lstrip_split s) as (l & Hl & Hs).
  destruct (rstrip_split (lstrip s)) as (r & Hr & Ht). fold (strip s) in Ht.
  exists l, r. split; [exact Hl|]. split; [exact Hr|]. split; [congruence|].
  destruct (lstrip_head s) as [E|(c & t & E & Hc)].
  - left. unfold strip. rewrite E. apply rstrip_nil.
  - right. destruct (rstrip_head c t Hc) as [t' Et'].
    assert (Es : strip s = c :: t') by (unfold strip; now rewrite E).
    unfold trimmed. rewrite Es.
    assert (Er : rev (c :: t') = lstrip (rev (lstrip s))).
    { rewrite <- Es. unfold strip, rstrip. apply rev_involutive. }
    rewrite Er. destruct (lstrip_head (rev (lstrip s))) as [E2|(d & u & E2 & Hd)].
    + rewrite E2 in Er. apply (f_equal (@List.length _)) in Er.
      rewrite length_rev in Er. discriminate.
    + rewrite E2, Hc, Hd. reflexivity.
Qed.

Lemma segment_free o seg : segment_of o seg -> ~ In comma seg.
Proof.
  intros [s Hs|l name r Hl Hr _ Hn]; [now apply blank_no_comma|].
  rewrite !in_app_iff. intros [H|[H|H]];
    [exact (blank_no_comma _ Hl H)|contradiction|exact (blank_no_comma _ Hr H)].
Qed.

Lemma segment_strip o seg :
  segment_of o seg ->
  filter nonempty [strip seg] = match o with Some n => [n] | None => [] end.
Proof.
  intros [s Hs|l name r Hl Hr Ht Hn].
  - now rewrite strip_blank.
  - rewrite strip_pad, strip_trimmed by assumption.
    destruct name; [discriminate|reflexivity].
Qed.

Lemma search_names_segments names segs :
  segs <> [] -> Forall2 segment_of names segs ->
  search_names (join [comma] segs) = names_of names.
Proof.
  intros Hne H. rewrite search_names_join; [|exact Hne|].
  - clear Hne. induction H as [|o seg names segs Hs _ IH]; [reflexivity|].
    change (List.map strip (seg :: segs)) with ([strip seg] ++ List.map strip segs).
    unfold names_of in *. cbn [flat_map].
    rewrite filter_app, IH. f_equal. exact (segment_strip o seg Hs).
  - clear Hne. induction H as [|o seg names segs Hs _ IH]; constructor;
      [exact (segment_free o seg Hs)|exact IH].
Qed.

Lemma search_names_blank family :
  Forall (fun c => c = comma \/ isspace c = true) family -> search_names family = [].
Proof.
  intros H. rewrite search_names_eq.
  pose proof (split_sep_within comma family _ H) as Hw.
  pose proof (split_sep_segments comma family) as Hs.
  induction Hw as [|seg l Hseg _ IH]; [reflexivity|].
  inversion Hs; subst. simpl. rewrite strip_blank; [simpl; auto|].
  unfold blank. rewrite Forall_forall in *. intros c Hc.
  destruct (Hseg c Hc) as [->|Hsp]; [contradiction|exact Hsp].
Qed.

Section MonadLaws.
Context {W : Type}.

Lemma bind_ret {A B} (a : A) (k : A -> M W B) w : bind (ret a) k w = k a w.
Proof. unfold bind, ret. destruct (k a w) as [[t w'] o]. reflexivity. Qed.

Lemma bind_lift_ok {A B} (a : A) (k : A -> M W B) w : bind (lift (Ok a)) k w = k a w.
Proof. exact (bind_ret a k w). Qed.

Lemma bind_lift_raise {A B} e (k : A -> M W B) w :
  bind (lift (Raise e)) k w = ([], w, Raised e).
Proof. reflexivity. Qed.

Lemma bind_raise {A B} e (k : A -> M W B) w : bind (raise e) k w = ([], w, Raised e).
Proof. reflexivity. Qed.

Lemma bind_emit {B} ev (k : unit -> M W B) w :
  bind (emit ev) k w = (let '(t, w', o) := k tt w in (ev :: t, w', o)).
Proof. reflexivity. Qed.

Lemma bind_ask {A B} ev (f : W -> A) (k : A -> M W B) w :
  bind (ask ev f) k w = (let '(t, w', o) := k (f w) w in (ev :: t, w', o)).
Proof. reflexivity. Qed.

End MonadLaws.

Section GetFont.
Variable W : Type.
Variable sys : system W.

Lemma get_font_by_names f1 f2 w :
  search_names f1 = search_names f2 ->
  get_font sys (VStr f1) w = get_font sys (VStr f2) w
  \/ exists t w',
       get_font sys (VStr f1) w = (t, w', Raised (font_not_found f1))
       /\ get_font sys (VStr f2) w = (t, w', Raised (font_not_found f2)).
Proof.
  intros H. unfold get_font. destruct (eqb (platform W sys) (lit "darwin")); [|now left].
  cbn [as_str]. rewrite !bind_lift_ok, H. unfold bind.
  destruct (search_for_names sys (search_names f2) _ w) as [[t w'] [[p|]|e|]];
    cbn; auto.
  right. exists (t ++ []), w'. split; reflexivity.
Qed.

Lemma get_font_no_names family w :
  platform W sys = lit "darwin" -> search_names family = [] ->
  get_font sys (VStr family) w = ([], w, Raised (font_not_found family)).
Proof.
  intros Hp Hn. unfold get_font. rewrite Hp, (proj2 (str_eqb_eq _ _) eq_refl).
  cbn [as_str]. rewrite bind_lift_ok, Hn. reflexivity.
Qed.
End GetFont.

(** * Text layout and the size search *)

Section Layout.
Variable E : engine.
Variables (font_file : str) (size im_w h_pos margin : Z) (spacing : num).

Lemma plot_loop_length lines : forall y,
  List.length (plot_loop E font_file size im_w h_pos margin spacing lines y)
  = List.length lines.
Proof.
  induction lines as [|l ls IH]; intros y; simpl; [reflexivity|].
  destruct (getsize E font_file size l) as [w h]. simpl. now rewrite IH.
Qed.

Lemma plot_loop_nth lines : forall y i line,
  nth_error lines i = Some line ->
  exists c,
    nth_error (plot_loop E font_file size im_w h_pos margin spacing lines y) i = Some c
    /\ call_text c = line
    /\ call_x c = NInt (if h_pos =? RIGHT
                        then im_w - fst (getsize E font_file size line) - margin
                        else margin)
    /\ call_align c = (if h_pos =? LEFT then AlignLeft else AlignRight)
    /\ forall c',
        nth_error (plot_loop E font_file size im_w h_pos margin spacing lines y) (S i)
        = Some c' ->
        call_y c' = num_add (call_y c)
                      (num_add (NInt (snd (getsize E font_file size line))) spacing).
Proof.
  induction lines as [|l ls IH]; intros y i line Hi.
  - destruct i; discriminate.
  - destruct i as [|i]; simpl in Hi.
    + injection Hi as ->. simpl.
      destruct (getsize E font_file size line) as [w h] eqn:Eg. simpl.
      eexists. split; [reflexivity|]. simpl. repeat split.
      intros c' Hc'. destruct ls as [|l2 ls]; [discriminate|].
      simpl in Hc'. destruct (getsize E font_file size l2). 
      injection Hc' as <-. reflexivity.
    + simpl. destruct (getsize E font_file size l) as [w h]. 
      destruct (IH (num_add y (num_add (NInt h) spacing)) i line Hi) as (c & H1 & H2).
      exists c. split; [exact H1|exact H2].
Qed.

Lemma plot_loop_head l ls y :
  exists c, nth_error (plot_loop E font_file size im_w h_pos margin spacing (l :: ls) y) 0
            = Some c /\ call_y c = y.
Proof.
  simpl. destruct (getsize E font_file size l). eexists; split; reflexivity.
Qed.
End Layout.

(** C1. For a non-empty list of lines, the first [draw.text] call is at
    [margin] from the top when the vertical position is top and at
    [im_h - wm_height - margin] when it is bottom; the call of every line is
    at [margin] from the left when the horizontal position is left and at
    [im_w - w - margin], with [w] the measured width of that very line, when
    it is right; and the call that follows a line is lower by the measured
    height of that line plus the spacing. *)
Theorem plot_lines_layout (E : engine) font_file size im_w im_h h_pos v_pos
    margin spacing wm_height lines :
  lines <> [] ->
  let calls := plot_lines E font_file size (im_w, im_h) h_pos v_pos margin spacing
                 wm_height lines in
  (exists c0, nth_error calls 0 = Some c0
     /\ (v_pos = TOP -> call_y c0 = NInt margin)
     /\ (v_pos = BOTTOM ->
         call_y c0 = num_sub (num_sub (NInt im_h) wm_height) (NInt margin)))
  /\ forall i line, nth_error lines i = Some line ->
     exists c, nth_error calls i = Some c
       /\ call_text c = line
       /\ (h_pos = LEFT -> call_x c = NInt margin)
       /\ (h_pos = RIGHT ->
           call_x c = NInt (im_w - fst (getsize E font_file size line) - margin))
       /\ forall c', nth_error calls (S i) = Some c' ->
          call_y c' = num_add (call_y c)
                        (num_add (NInt (snd (getsize E font_file size line))) spacing).
Proof.
  intros Hne calls. split.
  - destruct lines as [|l ls]; [congruence|].
    destruct (plot_loop_head E font_file size im_w h_pos margin spacing l ls
                (start_y im_h v_pos margin wm_height)) as (c & Hc & Hy).
    exists c. split; [exact Hc|]. rewrite Hy. unfold start_y.
    split; intros ->; reflexivity.
  - intros i line Hi.
    destruct (plot_loop_nth E font_file size im_w h_pos margin spacing lines
                (start_y im_h v_pos margin wm_height) i line Hi)
      as (c & H1 & H2 & H3 & H4 & H5).
    exists c. split; [exact H1|]. split; [exact H2|].
    split; [|split; [|exact H5]]; intros ->; rewrite H3; reflexivity.
Qed.

Section Autosize.
Variable E : engine.
Variable font_file : str.
Variable thr : num.

Lemma autosize_step fuel size :
  autosize E font_file thr (S fuel) size
  = if exceeds E font_file thr size then Some (size, line_height_at E font_file size)
    else autosize E font_file thr fuel (size + 2).
Proof.
  unfold exceeds, line_height_at. simpl.
  destruct (getsize E font_file size calibration) as [w lh]. reflexivity.
Qed.

Lemma autosize_hit : forall k fuel size,
  exceeds E font_file thr (size + 2 * Z.of_nat k) = true ->
  (forall j, (j < k)%nat -> exceeds E font_file thr (size + 2 * Z.of_nat j) = false) ->
  (k < fuel)%nat ->
  autosize E font_file thr fuel size
  = Some (size + 2 * Z.of_nat k, line_height_at E font_file (size + 2 * Z.of_nat k)).
Proof.
  induction k as [|k IH]; intros fuel size Hk Hlt Hf.
  - destruct fuel; [lia|]. rewrite autosize_step.
    replace (size + 2 * Z.of_nat 0) with size in * by lia. now rewrite Hk.
  - destruct fuel; [lia|]. rewrite autosize_step.
    assert (H0 := Hlt 0%nat ltac:(lia)).
    replace (size + 2 * Z.of_nat 0) with size in H0 by lia. rewrite H0.
    replace (size + 2 * Z.of_nat (S k)) with (size + 2 + 2 * Z.of_nat k) in * by lia.
    apply IH; [exact Hk| |lia].
    intros j Hj. specialize (Hlt (S j) ltac:(lia)).
    now replace (size + 2 * Z.of_nat (S j)) with (size + 2 + 2 * Z.of_nat j) in Hlt by lia.
Qed.

Lemma autosize_miss : forall fuel size,
  (forall j, (j < fuel)%nat -> exceeds E font_file thr (size + 2 * Z.of_nat j) = false) ->
  autosize E font_file thr fuel size = None.
Proof.
  induction fuel as [|fuel IH]; intros size H; [reflexivity|].
  rewrite autosize_step.
  assert (H0 := H 0%nat ltac:(lia)).
  replace (size + 2 * Z.of_nat 0) with size in H0 by lia. rewrite H0.
  apply IH. intros j Hj. specialize (H (S j) ltac:(lia)).
  now replace (size + 2 * Z.of_nat (S j)) with (size + 2 + 2 * Z.of_nat j) in H by lia.
Qed.

Lemma first_hit (P : nat -> bool) : forall n, P n = true ->
  exists k, (k <= n)%nat /\ P k = true /\ forall j, (j < k)%nat -> P j = false.
Proof.
  induction n as [n IH] using (well_founded_induction lt_wf). intros Hn.
  destruct (existsb P (seq 0 n)) eqn:Ex.
  - apply existsb_exists in Ex. destruct Ex as (m & Hm & HPm).
    apply in_seq in Hm. destruct (IH m ltac:(lia) HPm) as (k & Hk & HPk & Hmin).
    exists k. split; [lia|]. split; assumption.
  - exists n. split; [lia|]. split; [assumption|].
    intros j Hj. destruct (P j) eqn:HPj; [|reflexivity].
    assert (existsb P (seq 0 n) = true); [|congruence].
    apply existsb_exists. exists j. split; [apply in_seq; lia|assumption].
Qed.

End Autosize.

(** * The text box of an empty text *)

(** Adding a finite float to zero and taking it away again gives zero. *)
Lemma shl_align_same m e : shl_align m e e = (m, e).
Proof. unfold shl_align. now rewrite Z.sub_diag. Qed.

Lemma fadd_zero_l f : is_finite f = true -> fadd f0_0 f = match f with S754_zero _ => f0_0 | _ => f end.
Proof. destruct f as [[|]| | |]; try discriminate; reflexivity. Qed.

Lemma fsub_diag f : is_finite f = true -> fsub f f = f0_0.
Proof.
  destruct f as [[|]| | |s m e]; try discriminate; try reflexivity.
  intros _. unfold fsub, SFsub. rewrite Z.min_id, shl_align_same. simpl fst.
  rewrite Z.sub_diag. reflexivity.
Qed.

Lemma fadd_zero_sub f : is_finite f = true -> fsub (fadd f0_0 f) f = f0_0.
Proof.
  intros H. rewrite fadd_zero_l by exact H.
  destruct f as [[|]| | |s m e]; try discriminate; try reflexivity.
  now apply fsub_diag.
Qed.

Lemma text_bbox_single (E : engine) font_file size spacing line :
  text_bbox E font_file size spacing [line]
  = (Z.max 0 (fst (getsize E font_file size line)),
     num_sub (num_add (num_add (NInt 0) (NInt (snd (getsize E font_file size line))))
                spacing) spacing).
Proof.
  unfold text_bbox. cbn [bbox_loop].
  destruct (getsize E font_file size line) as [w h]. reflexivity.
Qed.

Lemma split_sep_empty sep : split_sep sep [] = [[]].
Proof. reflexivity. Qed.

Lemma fadd_zero_sub_nan f : is_finite f = false -> fsub (fadd f0_0 f) f = S754_nan.
Proof. destruct f as [[|]|[|]| |s m e]; try discriminate; reflexivity. Qed.

Lemma empty_bbox_height (E : engine) font_file size line_spacing margin :
  snd (getsize E font_file size []) = 0 ->
  snd (text_bbox E font_file size (spacing_of line_spacing margin) [[]])
  = NFloat (if is_finite (to_float (spacing_of line_spacing margin))
            then f0_0 else S754_nan).
Proof.
  intros Hh. rewrite text_bbox_single, Hh. cbn [snd].
  unfold spacing_of in *.
  change (num_mul (NFloat line_spacing) (NInt margin))
    with (NFloat (fmul line_spacing (float_of_int margin))) in *.
  cbn [to_float].
  set (x := fmul line_spacing (float_of_int margin)) in *.
  change (num_add (NInt 0) (NInt 0)) with (NInt 0).
  change (num_add (NInt 0) (NFloat x)) with (NFloat (fadd f0_0 x)).
  change (num_sub (NFloat (fadd f0_0 x)) (NFloat x)) with (NFloat (fsub (fadd f0_0 x) x)).
  destruct (is_finite x) eqn:Hfin.
  - now rewrite fadd_zero_sub by exact Hfin.
  - now rewrite fadd_zero_sub_nan by exact Hfin.
Qed.

(** C9. For the empty text, whose only line is the empty line, when the
    font measures the empty line with height 0,
    [wm_height = 0 + 0 + spacing - spacing] is the float 0.0 when the
    spacing [line_spacing * margin] is finite and NaN when it is not; it is
    never below zero, and it is zero exactly when the spacing is finite.
    The compositor goes on with this height. *)
Theorem empty_text_height (E : engine) input o font_file shadow_color
    h_pos v_pos size margin :
  let spacing := spacing_of (line_spacing o) margin in
  let sz := Pillow.size input in
  text o = [] ->
  snd (getsize E font_file size []) = 0 ->
  let wm_height :=
    snd (text_bbox E font_file size spacing (split_sep 10%N (text o))) in
  wm_height = NFloat (if is_finite (to_float spacing) then f0_0 else S754_nan)
  /\ num_lt wm_height (NInt 0) = false
  /\ num_le wm_height (NInt 0) = is_finite (to_float spacing)
  /\ compose E input o font_file shadow_color h_pos v_pos size margin
     = (wm_image <- text_layer E sz font_file size
                      (plot_lines E font_file size sz h_pos v_pos margin spacing
                         wm_height [[]]) ;;
        shadow_image <- shadow_layer E wm_image o shadow_color margin ;;
        Ok (overlay E input wm_image shadow_image (opacity o)))%result.
Proof.
  intros spacing sz Ht Hh. cbv zeta.
  pose proof (empty_bbox_height E font_file size (line_spacing o) margin Hh) as Hb.
  unfold compose. rewrite Ht, split_sep_empty.
  fold spacing in Hb |- *. fold sz.
  destruct (text_bbox E font_file size spacing [[]]) as [wm_width wm_height].
  cbn [snd] in Hb |- *. subst wm_height.
  destruct (is_finite (to_float spacing)); repeat split.
Qed.

(** * Opacity zero, and the shadow layer *)

Lemma rbind_ok {A B} (m : result A) (k : A -> result B) b :
  rbind m k = Ok b -> exists a, m = Ok a /\ k a = Ok b.
Proof. destruct m as [a|e]; cbn; [eauto|discriminate]. Qed.

Lemma div255_byte v : 0 <= v <= 255 -> div255 (v * 255) = v.
Proof.
  intros H. unfold div255. rewrite !Z.shiftr_div_pow2 by lia.
  change (2 ^ 8) with 256.
  pose proof (Z.div_mod (v * 255 + 128) 256 ltac:(lia)) as D1.
  pose proof (Z.mod_pos_bound (v * 255 + 128) 256 ltac:(lia)) as B1.
  set (k := (v * 255 + 128) / 256) in *.
  pose proof (Z.div_mod (k + (v * 255 + 128)) 256 ltac:(lia)) as D2.
  pose proof (Z.mod_pos_bound (k + (v * 255 + 128)) 256 ltac:(lia)) as B2.
  lia.
Qed.

Lemma blend8_zero v s : byte v -> blend8 0 v s = v.
Proof.
  intros H. unfold blend8. replace (v * (255 - 0) + s * 0) with (v * 255) by lia.
  now apply div255_byte.
Qed.

Lemma paste_pixel_zero dst src : pixel_ok dst -> paste_pixel 0 dst src = dst.
Proof.
  destruct dst as [[[r g] b] a], src as [[[r2 g2] b2] a2]. unfold paste_pixel, pixel_ok.
  intros (Hr & Hg & Hb & Ha). now rewrite !blend8_zero.
Qed.

Lemma enhance_zero E b s : brightness_enhance E b (S754_zero s) = fun _ _ => 0.
Proof. destruct s; reflexivity. Qed.

Lemma overlay_transparent E input wm shadow s :
  image_ok input -> pixel_identical (overlay E input wm shadow (S754_zero s)) input.
Proof.
  intros Hok. unfold overlay. rewrite enhance_zero. split; [reflexivity|].
  intros x y Hx Hy. cbn [composite getpixel putalpha].
  match goal with |- paste_pixel (alpha_of (with_alpha ?p 0)) _ _ = _ =>
    replace (alpha_of (with_alpha p 0)) with 0 by (destruct p as [[[? ?] ?] ?]; reflexivity)
  end.
  apply paste_pixel_zero. apply Hok; assumption.
Qed.

(** C5. With opacity zero the image the compositor returns has the size of
    the input image and the same pixel at every position of it. *)
Theorem opacity_zero_identity E fuel input o font_file shadow_color out s :
  opacity o = S754_zero s ->
  image_ok input ->
  add_watermark E fuel input o font_file shadow_color = Some (Ok out) ->
  pixel_identical out input.
Proof.
  intros Hop Hok H. unfold add_watermark in H.
  destruct (parse_position (position o)) as [[h v]|e]; [|discriminate].
  destruct (autosize E font_file _ fuel 2) as [[size lh]|]; [|discriminate].
  injection H as H. unfold compose in H.
  destruct (text_bbox E font_file size _ _) as [wm_width wm_height].
  apply rbind_ok in H. destruct H as (wm & _ & H).
  apply rbind_ok in H. destruct H as (shadow & _ & H).
  injection H as <-. rewrite Hop. now apply overlay_transparent.
Qed.

Lemma build_lut_spec f : forall n i lut,
  build_lut f n i = Ok lut ->
  List.length lut = n /\
  forall j, (j < n)%nat -> f (i + Z.of_nat j) = Ok (nth j lut 0).
Proof.
  induction n as [|n IH]; intros i lut H; cbn [build_lut] in H.
  - injection H as <-. split; [reflexivity|]. intros j Hj. lia.
  - apply rbind_ok in H. destruct H as (v & Hv & H).
    apply rbind_ok in H. destruct H as (rest & Hr & H). injection H as <-.
    destruct (IH _ _ Hr) as [Hl Hn]. split; [cbn; now rewrite Hl|].
    intros [|j] Hj; cbn [nth].
    + now rewrite Z.add_0_r.
    + rewrite <- Hn by lia. f_equal. lia.
Qed.

Lemma lookup_spec f lut i :
  build_lut f 256 0 = Ok lut -> 0 <= i < 256 -> f i = Ok (lookup lut i).
Proof.
  intros H Hi. destruct (build_lut_spec f 256 0 lut H) as [_ Hn].
  unfold lookup. rewrite <- Hn by lia. f_equal. lia.
Qed.

Lemma c_int_ok z z' : c_int z = Ok z' -> z' = z.
Proof. unfold c_int. destruct (_ && _); [congruence|discriminate]. Qed.

Lemma c_long_ok z z' : c_long z = Ok z' -> z' = z.
Proof. unfold c_long. destruct (_ && _); [congruence|discriminate]. Qed.

Lemma c_longs_ok : forall l l', c_longs l = Ok l' -> l' = l.
Proof.
  induction l as [|z l IH]; intros l' H; cbn [c_longs] in H; [congruence|].
  apply rbind_ok in H. destruct H as (z' & Hz & H). apply c_long_ok in Hz. subst z'.
  apply rbind_ok in H. destruct H as (rest & Hr & H). apply IH in Hr. subst rest.
  congruence.
Qed.

(** C2. The shadow layer built from a text layer [wm]: before the blur its
    colour channels are [int(v * 255)] of the channels of the shadow colour,
    each clipped to a byte, the same at every pixel, and its alpha at a
    pixel is [int(i * ca)], clipped to a byte, for the alpha [i] of the text
    layer at the pixel it was moved from and the alpha [ca] of the shadow
    colour; the layer has the size of the text layer and is moved, wrapping
    around the edges, by [int(margin * shadow_offset)] pixels in both axes,
    the product being truncated toward zero; the Gaussian blur of radius
    [shadow_blur_radius * margin] of the moved layer gives the shadow, of
    the same size. *)
Theorem shadow_layer_spec E wm o shadow_color margin shadow :
  shadow_layer E wm o shadow_color margin = Ok shadow ->
  let '(cr, cg, cb, ca) := shadow_color in
  exists r g b dx moved,
    (* the colour of the layer *)
    py_int (num_mul (NFloat cr) (NInt 255)) = Ok r
    /\ py_int (num_mul (NFloat cg) (NInt 255)) = Ok g
    /\ py_int (num_mul (NFloat cb) (NInt 255)) = Ok b
    (* the translation: the product, truncated *)
    /\ py_int (num_mul (NInt margin) (NFloat (shadow_offset o))) = Ok dx
    /\ size moved = size wm
    (* the pixels: the colour, and the alpha of the text where the pixel
       comes from times the alpha of the colour, each clipped to a byte *)
    /\ (forall x y,
          let i := alpha_of (getpixel wm ((x - dx) mod width wm)
                               ((y - dx) mod height wm)) in
          0 <= i <= 255 ->
          exists a,
            py_int (num_mul (NInt i) (NFloat ca)) = Ok a
            /\ getpixel moved x y = (clip8 r, clip8 g, clip8 b, clip8 a))
    (* the blur *)
    /\ gaussian_blur E (num_mul (NFloat (shadow_blur_radius o)) (NInt margin))
         (size wm) (getpixel moved) = Ok (getpixel shadow)
    /\ size shadow = size wm.
Proof.
  destruct shadow_color as [[[cr cg] cb] ca]. unfold shadow_layer, make_shadow.
  intros H. apply rbind_ok in H. destruct H as (base & Hbase & H).
  cbn [fst snd] in H.
  apply rbind_ok in H. destruct H as (dx & Hdx & H).
  apply rbind_ok in H. destruct H as (dy & Hdy & H).
  rewrite Hdx in Hdy. injection Hdy as <-.
  apply rbind_ok in H. destruct H as (dx' & Hcx & H). apply c_int_ok in Hcx. subst dx'.
  apply rbind_ok in H. destruct H as (dy' & Hcy & H). apply c_int_ok in Hcy. subst dy'.
  apply rbind_ok in H. destruct H as (d & Hblur & H). injection H as <-.
  unfold shadow_base in Hbase.
  apply rbind_ok in Hbase. destruct Hbase as (r & Hr & Hbase).
  apply rbind_ok in Hbase. destruct Hbase as (g & Hg & Hbase).
  apply rbind_ok in Hbase. destruct Hbase as (b & Hb & Hbase).
  apply rbind_ok in Hbase. destruct Hbase as (a & Ha & Hbase).
  apply rbind_ok in Hbase. destruct Hbase as (r' & Hr' & Hbase).
  apply c_long_ok in Hr'. subst r'.
  apply rbind_ok in Hbase. destruct Hbase as (g' & Hg' & Hbase).
  apply c_int_ok in Hg'. subst g'.
  apply rbind_ok in Hbase. destruct Hbase as (b' & Hb' & Hbase).
  apply c_int_ok in Hb'. subst b'.
  apply rbind_ok in Hbase. destruct Hbase as (a' & Ha' & Hbase).
  apply c_int_ok in Ha'. subst a'.
  apply rbind_ok in Hbase. destruct Hbase as (lut & Hlut & Hbase).
  apply rbind_ok in Hbase. destruct Hbase as (lut' & Hlut' & Hbase).
  apply c_longs_ok in Hlut'. subst lut'.
  injection Hbase as <-.
  unfold color_channel in Hr, Hg, Hb, Ha.
  exists r, g, b, dx.
  eexists (Pillow.offset (putalpha (new (size wm) (r, g, b, a))
                            (point (lookup lut) (alpha_band wm))) dx dx).
  repeat (split; [assumption|]).
  split; [reflexivity|]. split.
  - intros x y. cbv zeta.
    set (i := alpha_of (getpixel wm ((x - dx) mod width wm) ((y - dx) mod height wm))).
    intros Hi. exists (lookup lut i). split.
    + apply (lookup_spec _ lut i Hlut). lia.
    + reflexivity.
  - split; [exact Hblur|reflexivity].
Qed.

(** * Traces: what a computation emits *)

Section Traces.
Context {W : Type}.

Variable P : event -> bool.

Lemma emits_ret {A} (a : A) : emits P (ret (W:=W) a).
Proof. intros w. reflexivity. Qed.

Lemma emits_raise {A} e : emits P (raise (W:=W) (A:=A) e).
Proof. intros w. reflexivity. Qed.

Lemma emits_lift {A} (r : result A) : emits P (lift (W:=W) r).
Proof. intros w. destruct r; reflexivity. Qed.

Lemma emits_emit ev : P ev = true -> emits P (emit (W:=W) ev).
Proof. intros H w. cbn. now rewrite H. Qed.

Lemma emits_ask {A} ev (f : W -> A) : P ev = true -> emits P (ask ev f).
Proof. intros H w. cbn. now rewrite H. Qed.

Lemma emits_ask_result {A} ev (f : W -> result A) : P ev = true -> emits P (ask_result ev f).
Proof. intros H w. unfold ask_result, trace_of. destruct (f w); cbn; now rewrite H. Qed.

Lemma emits_act ev f : P ev = true -> emits P (act (W:=W) ev f).
Proof.
  intros H w. unfold act, trace_of. destruct (f w) as [w' [u|e]]; cbn; now rewrite H.
Qed.

Lemma emits_bind {A B} (m : M W A) (k : A -> M W B) :
  emits P m -> (forall a, emits P (k a)) -> emits P (bind m k).
Proof.
  intros Hm Hk w. unfold bind, trace_of. specialize (Hm w). unfold trace_of in Hm.
  destruct (m w) as [[t1 w1] [a| |]]; cbn in *; try exact Hm.
  specialize (Hk a w1). unfold trace_of in Hk.
  destruct (k a w1) as [[t2 w2] o2]. cbn in *. rewrite forallb_app, Hm, Hk. reflexivity.
Qed.

Lemma pure_ret {A} (a : A) : pure_read (ret (W:=W) a).
Proof. intros w. split; [reflexivity|discriminate]. Qed.

Lemma pure_raise {A} e : pure_read (raise (W:=W) (A:=A) e).
Proof. intros w. split; [reflexivity|discriminate]. Qed.

Lemma pure_lift {A} (r : result A) : pure_read (lift (W:=W) r).
Proof. intros w. destruct r; (split; [reflexivity|discriminate]). Qed.

Lemma pure_emit ev : pure_read (emit (W:=W) ev).
Proof. intros w. split; [reflexivity|discriminate]. Qed.

Lemma pure_ask {A} ev (f : W -> A) : pure_read (ask ev f).
Proof. intros w. split; [reflexivity|discriminate]. Qed.

Lemma pure_ask_result {A} ev (f : W -> result A) : pure_read (ask_result ev f).
Proof.
  intros w. unfold ask_result, world_of, outcome_of.
  destruct (f w); (split; [reflexivity|discriminate]).
Qed.

Lemma pure_bind {A B} (m : M W A) (k : A -> M W B) :
  pure_read m -> (forall a, pure_read (k a)) -> pure_read (bind m k).
Proof.
  intros Hm Hk w. unfold bind, world_of, outcome_of. destruct (Hm w) as [H1 H2].
  unfold world_of, outcome_of in *.
  destruct (m w) as [[t1 w1] [a|e|]]; cbn in *; subst;
    [|split; [reflexivity|discriminate]|congruence].
  destruct (Hk a w) as [H3 H4]. unfold world_of, outcome_of in *.
  destruct (k a w) as [[t2 w2] o2]. cbn in *. split; assumption.
Qed.

End Traces.

Section FontLocator.
Context {W : Type}.
Variable sys : system W.

Lemma looks_ret {A} (a : A) : looks (ret (W:=W) a).
Proof. split; [apply emits_ret|apply pure_ret]. Qed.

Lemma looks_raise {A} e : looks (raise (W:=W) (A:=A) e).
Proof. split; [apply emits_raise|apply pure_raise]. Qed.

Lemma looks_lift {A} (r : result A) : looks (lift (W:=W) r).
Proof. split; [apply emits_lift|apply pure_lift]. Qed.

Lemma looks_bind {A B} (m : M W A) (k : A -> M W B) :
  looks m -> (forall a, looks (k a)) -> looks (bind m k).
Proof.
  intros [H1 H2] Hk. split; [apply emits_bind|apply pure_bind]; auto; intros a; apply Hk.
Qed.

Lemma looks_ask {A} ev (f : W -> A) : harmless ev = true -> looks (ask ev f).
Proof. split; [now apply emits_ask|apply pure_ask]. Qed.

Lemma looks_ask_result {A} ev (f : W -> result A) :
  harmless ev = true -> looks (ask_result ev f).
Proof. split; [now apply emits_ask_result|apply pure_ask_result]. Qed.

Lemma looks_emit ev : harmless ev = true -> looks (emit (W:=W) ev).
Proof. split; [now apply emits_emit|apply pure_emit]. Qed.

Lemma find_ext_looks d n exts : looks (find_ext sys d n exts).
Proof.
  induction exts as [|ext exts IH]; cbn [find_ext]; [apply looks_ret|].
  apply looks_bind; [now apply looks_ask|]. intros [|]; [apply looks_ret|exact IH].
Qed.

Lemma traverse_dir_looks depth : forall d n, looks (traverse_dir sys depth d n).
Proof.
  induction depth as [|depth IH]; intros d n; cbn [traverse_dir]; [apply looks_raise|].
  apply looks_bind; [apply find_ext_looks|]. intros [p|]; [apply looks_ret|].
  apply looks_bind; [now apply looks_ask_result|]. intros subdirs.
  induction subdirs as [|sd rest IHs]; [apply looks_ret|].
  apply looks_bind; [now apply looks_ask|]. intros [|]; [|exact IHs].
  apply looks_bind; [apply IH|]. intros [p|]; [apply looks_ret|exact IHs].
Qed.

Lemma search_in_dirs_looks n dirs : looks (search_in_dirs sys n dirs).
Proof.
  induction dirs as [|d dirs IH]; cbn [search_in_dirs]; [apply looks_ret|].
  apply looks_bind; [apply traverse_dir_looks|]. intros [p|]; [apply looks_ret|exact IH].
Qed.

Lemma search_for_names_looks names dirs : looks (search_for_names sys names dirs).
Proof.
  induction names as [|n names IH]; cbn [search_for_names]; [apply looks_ret|].
  apply looks_bind; [apply search_in_dirs_looks|]. intros [p|]; [apply looks_ret|exact IH].
Qed.

Lemma get_font_looks family : looks (get_font sys family).
Proof.
  unfold get_font. destruct (eqb _ _); [|apply looks_raise].
  apply looks_bind; [apply looks_lift|]. intros f.
  apply looks_bind; [apply search_for_names_looks|]. intros [p|];
    [apply looks_ret|apply looks_raise].
Qed.

End FontLocator.

(** * Every job the driver runs has an output other than its input *)

Section Runs.
Context {W : Type}.
Variable sys : system W.
Variable E : engine.

Lemma emits_weaken (P Q : event -> bool) {A} (m : M W A) :
  (forall ev, P ev = true -> Q ev = true) -> emits P m -> emits Q m.
Proof.
  intros H Hm w. specialize (Hm w). rewrite forallb_forall in *. auto.
Qed.

Lemma call_add_watermark_emits P fuel im ff o : emits P (call_add_watermark (W:=W) E fuel im ff o).
Proof.
  intros w. unfold call_add_watermark. destruct (bind_options o) as [[op c]|e]; [|reflexivity].
  destruct (add_watermark E fuel im op ff c) as [[r|e]|]; reflexivity.
Qed.

Lemma render_video_emits P i out o ov :
  P ETempDir = true -> (forall p, P (EPngSave p) = true) ->
  P (EOverlay i o ov) = true -> (forall d, P (ECleanup d) = true) ->
  emits P (render_video sys i out o ov).
Proof.
  intros H1 H2 H3 H4 w. unfold render_video, trace_of.
  destruct (make_temp_dir W sys w) as [w1 [d|e]]; [|cbn; now rewrite H1].
  match goal with |- context [bind ?m ?k w1] =>
    assert (Hb : emits P (bind m k))
      by (apply emits_bind; [now apply emits_act|intros _; now apply emits_act]);
    specialize (Hb w1); unfold trace_of in Hb;
    destruct (bind m k w1) as [[t w2] o2]
  end.
  cbn [fst] in Hb.
  destruct (cleanup W sys w2 d) as [w3 [u|e]]; cbn [fst forallb];
    rewrite H1, forallb_app, Hb; cbn; now rewrite H4.
Qed.

Lemma run_job_body_emits fuel i o ff q opts ov :
  exists body : M W unit,
    run_job sys E fuel i o ff q opts ov
    = bind (emit (ERunJob i o ff q opts ov)) (fun _ => body)
    /\ emits not_job body.
Proof.
  eexists. split; [reflexivity|]. cbv beta zeta.
  destruct (existsb _ image_exts).
  { apply emits_bind; [now apply emits_ask_result|]. intros im.
    apply emits_bind; [apply call_add_watermark_emits|]. intros out.
    now apply emits_act. }
  destruct (existsb _ video_exts).
  { apply emits_bind; [now apply emits_ask_result|]. intros wh.
    apply emits_bind; [apply call_add_watermark_emits|]. intros out.
    now apply render_video_emits. }
  apply emits_raise.
Qed.

Lemma run_job_emits_ok fuel i o ff q opts ov :
  str_equals i o = false -> emits job_ok (run_job sys E fuel i o ff q opts ov).
Proof.
  intros H. destruct (run_job_body_emits fuel i o ff q opts ov) as (body & -> & Hb).
  apply emits_bind.
  - apply emits_emit. cbn. now rewrite H.
  - intros _. eapply emits_weaken; [|exact Hb]. intros [] ; cbn; congruence.
Qed.

Lemma harmless_job_ok ev : harmless ev = true -> job_ok ev = true.
Proof. destruct ev; cbn; congruence. Qed.

Lemma get_font_emits_ok family : emits job_ok (get_font sys family).
Proof.
  eapply emits_weaken; [exact harmless_job_ok|]. apply get_font_looks.
Qed.

Lemma batch_job_emits_ok fuel f : emits job_ok (batch_job sys E fuel f).
Proof.
  unfold batch_job. apply emits_bind; [now apply emits_ask|]. intros [|]; [|apply emits_ret].
  apply emits_bind; [now apply emits_emit|]. intros _.
  apply emits_bind; [now apply emits_ask_result|]. intros cnt.
  apply emits_bind; [apply emits_lift|]. intros options.
  apply emits_bind; [apply emits_lift|]. intros fo.
  apply emits_bind; [apply get_font_emits_ok|]. intros ff.
  apply emits_bind; [apply emits_lift|]. intros oo.
  apply emits_bind; [apply emits_lift|]. intros qo.
  apply emits_bind; [now apply emits_emit|]. intros _.
  destruct (str_equals f (fst oo)) eqn:Eq; [apply emits_raise|].
  now apply run_job_emits_ok.
Qed.

Lemma batch_loop_emits_ok fuel files : emits job_ok (batch_loop sys E fuel files).
Proof.
  induction files as [|f files IH]; cbn [batch_loop]; [apply emits_ret|].
  apply emits_bind; [apply batch_job_emits_ok|]. intros _. exact IH.
Qed.

Lemma main_emits_ok fuel a : emits job_ok (main sys E fuel a).
Proof.
  unfold main. destruct (cli_batch_files a) as [|b bs].
  - destruct (cli_text a) as [|t ts]; [apply emits_raise|].
    destruct (cli_input_file a) as [i|]; [|apply emits_raise].
    destruct (cli_output_file a) as [o|]; [|apply emits_raise].
    apply emits_bind; [now apply emits_emit|]. intros _.
    destruct (eqb i o) eqn:Eio; [apply emits_raise|].
    apply emits_bind; [apply get_font_emits_ok|]. intros ff.
    apply emits_bind; [now apply emits_emit|]. intros _.
    apply emits_bind; [now apply run_job_emits_ok|]. intros _.
    now apply emits_act.
  - apply emits_bind.
    { destruct (list_eq_dec _ _ _); [now apply emits_ask_result|apply emits_ret]. }
    intros files.
    destruct (cli_text a); [|apply emits_raise].
    destruct (cli_input_file a); [apply emits_raise|].
    destruct (cli_output_file a); [apply emits_raise|].
    apply emits_bind; [now apply emits_emit|]. intros _. apply batch_loop_emits_ok.
Qed.

End Runs.

(** * Refusing a job whose output is its input *)

Section Refusal.
Context {W : Type}.
Variable sys : system W.
Variable E : engine.

Lemma refuses_raise (w : W) {A} e : refuses_at w (raise (A:=A) e).
Proof. exists e, []. split; reflexivity. Qed.

Lemma refuses_bind w {A B} (m : M W A) (k : A -> M W B) :
  looks m ->
  (forall a, outcome_of (m w) = Done a -> refuses_at w (k a)) ->
  refuses_at w (bind m k).
Proof.
  intros [He Hp] Hk. specialize (He w). destruct (Hp w) as [Hw Ho].
  unfold refuses_at, bind, trace_of, world_of, outcome_of in *.
  destruct (m w) as [[t1 w1] [a|e|]]; cbn in *; subst w1.
  - destruct (Hk a eq_refl) as (e & t2 & -> & Ht2). exists e, (t1 ++ t2).
    split; [reflexivity|]. now rewrite forallb_app, He, Ht2.
  - exists e, t1. split; [reflexivity|exact He].
  - congruence.
Qed.

Lemma dict_get_remove_other k k' d :
  eqb k' k = false -> dict_get k (dict_remove k' d) = dict_get k d.
Proof.
  intros Hk. induction d as [|[k0 v0] d IH]; [reflexivity|]. cbn [dict_remove dict_get].
  destruct (eqb k0 k') eqn:E0.
  - apply str_eqb_eq in E0. subst k0. now rewrite Hk.
  - cbn [dict_get]. destruct (eqb k0 k); [reflexivity|exact IH].
Qed.

Lemma batch_job_refuses fuel (f : str) w cnt d :
  isfile W sys w (f ++ lit ".json") = true ->
  read_text W sys w (f ++ lit ".json") = Ok cnt ->
  json_loads W sys cnt = Ok (VDict d) ->
  dict_get (lit "output_file") d = Some (VStr f) ->
  refuses_at w (batch_job sys E fuel f).
Proof.
  intros Hfile Hread Hjson Hout. unfold batch_job.
  apply refuses_bind; [now apply looks_ask|]. intros b Hb.
  unfold ask, outcome_of in Hb. cbn [snd] in Hb. injection Hb as <-. rewrite Hfile.
  apply refuses_bind; [now apply looks_emit|]. intros _ _.
  apply refuses_bind; [now apply looks_ask_result|]. intros cnt' Hc.
  unfold ask_result, outcome_of in Hc. rewrite Hread in Hc. cbn [snd] in Hc.
  injection Hc as <-.
  rewrite Hjson.
  apply refuses_bind; [apply looks_lift|]. intros options Ho. injection Ho as <-.
  apply refuses_bind; [apply looks_lift|]. intros fo Hfo.
  unfold py_pop, dict_pop in Hfo.
  destruct (dict_get (lit "font_family") d) as [fam|]; [|discriminate].
  injection Hfo as <-. cbn [fst snd].
  apply refuses_bind; [apply get_font_looks|]. intros ff _.
  apply refuses_bind; [apply looks_lift|]. intros oo Hoo.
  unfold py_pop, dict_pop in Hoo.
  rewrite dict_get_remove_other in Hoo by reflexivity. rewrite Hout in Hoo.
  injection Hoo as <-. cbn [fst snd].
  apply refuses_bind; [apply looks_lift|]. intros qo _.
  apply refuses_bind; [now apply looks_emit|]. intros _ _.
  cbn [str_equals]. rewrite (proj2 (str_eqb_eq f f) eq_refl). apply refuses_raise.
Qed.

Lemma bind_assoc {A B C} (m : M W A) (k : A -> M W B) (h : B -> M W C) w :
  bind (bind m k) h w = bind m (fun a => bind (k a) h) w.
Proof.
  unfold bind. destruct (m w) as [[t1 w1] [a|e|]]; try reflexivity.
  destruct (k a w1) as [[t2 w2] [b|e|]]; try reflexivity.
  destruct (h b w2) as [[t3 w3] o]. now rewrite app_assoc.
Qed.

Lemma bind_ext {A B} (m : M W A) (k k' : A -> M W B) w :
  (forall a w', k a w' = k' a w') -> bind m k w = bind m k' w.
Proof.
  intros H. unfold bind. destruct (m w) as [[t1 w1] [a|e|]]; try reflexivity.
  now rewrite H.
Qed.

Lemma batch_loop_app fuel l1 l2 w :
  batch_loop sys E fuel (l1 ++ l2) w
  = bind (batch_loop sys E fuel l1) (fun _ => batch_loop sys E fuel l2) w.
Proof.
  revert w. induction l1 as [|f l1 IH]; intros w.
  - cbn [app batch_loop]. now rewrite bind_ret.
  - cbn [app batch_loop]. rewrite bind_assoc. apply bind_ext. intros _ w'. apply IH.
Qed.

Lemma batch_loop_refuses fuel (pre : list str) (f : str) (rest : list str) w t1 w1 cnt d :
  batch_loop sys E fuel pre w = (t1, w1, Done tt) ->
  isfile W sys w1 (f ++ lit ".json") = true ->
  read_text W sys w1 (f ++ lit ".json") = Ok cnt ->
  json_loads W sys cnt = Ok (VDict d) ->
  dict_get (lit "output_file") d = Some (VStr f) ->
  exists e t2,
    batch_loop sys E fuel (pre ++ f :: rest) w = (t1 ++ t2, w1, Raised e)
    /\ forallb harmless t2 = true.
Proof.
  intros Hpre Hfile Hread Hjson Hout.
  destruct (batch_job_refuses fuel f w1 cnt d Hfile Hread Hjson Hout) as (e & t2 & Hj & Ht).
  exists e, t2. split; [|exact Ht].
  rewrite batch_loop_app. unfold bind at 1. rewrite Hpre.
  cbn [batch_loop]. unfold bind. rewrite Hj. reflexivity.
Qed.

Lemma single_same_file fuel a w p :
  cli_batch_files a = [] -> cli_input_file a = Some p -> cli_output_file a = Some p ->
  exists e t, main sys E fuel a w = (t, w, Raised e) /\ forallb harmless t = true.
Proof.
  intros Hb Hi Ho. unfold main. rewrite Hb, Hi, Ho.
  destruct (cli_text a) as [|t ts]; [exists single_missing, []; split; reflexivity|].
  rewrite (proj2 (str_eqb_eq p p) eq_refl).
  eexists _, _. split; reflexivity.
Qed.

Lemma batch_same_file fuel a (pre : list str) (f : str) (rest : list str) w t1 w1 cnt d :
  cli_batch_files a = pre ++ f :: rest -> cli_batch_files a <> [lit "."] ->
  cli_text a = [] -> cli_input_file a = None -> cli_output_file a = None ->
  batch_loop sys E fuel pre w = (t1, w1, Done tt) ->
  isfile W sys w1 (f ++ lit ".json") = true ->
  read_text W sys w1 (f ++ lit ".json") = Ok cnt ->
  json_loads W sys cnt = Ok (VDict d) ->
  dict_get (lit "output_file") d = Some (VStr f) ->
  exists e t2,
    main sys E fuel a w
    = (EPrint ("Enter batch mode"%string, []) :: t1 ++ t2, w1, Raised e)
    /\ forallb harmless t2 = true.
Proof.
  intros Hb Hdot Ht Hi Ho Hpre Hfile Hread Hjson Hout.
  destruct (batch_loop_refuses fuel pre f rest w t1 w1 cnt d Hpre Hfile Hread Hjson Hout)
    as (e & t2 & Hl & Hh).
  exists e, t2. split; [|exact Hh].
  unfold main. rewrite Ht, Hi, Ho.
  destruct (list_eq_dec (list_eq_dec N.eq_dec) (cli_batch_files a) [lit "."]) as [Heq|_];
    [contradiction|].
  destruct (cli_batch_files a) as [|b bs] eqn:Ebf; [destruct pre; discriminate|].
  rewrite bind_ret, bind_emit, Hb, Hl. reflexivity.
Qed.

End Refusal.

(** * The sidecar written by a single run *)

Section RoundTrip.
Context {W : Type}.
Variable sys : system W.
Variable E : engine.

Lemma bind_done_inv {A B} (m : M W A) (k : A -> M W B) w t w' b :
  bind m k w = (t, w', Done b) ->
  exists t1 w1 a t2,
    m w = (t1, w1, Done a) /\ k a w1 = (t2, w', Done b) /\ t = t1 ++ t2.
Proof.
  intros H. unfold bind in H.
  destruct (m w) as [[t1 w1] [a|e|]]; [|discriminate H|discriminate H].
  destruct (k a w1) as [[t2 w2] o2] eqn:Ek. injection H as <- <- ->.
  exists t1, w1, a, t2. repeat split. exact Ek.
Qed.



Lemma run_jobs_none P t :
  (forall ev, P ev = true -> is_run_job ev = false) ->
  forallb P t = true -> run_jobs t = [].
Proof.
  intros HP. induction t as [|ev t IH]; [reflexivity|]. cbn [forallb run_jobs filter].
  intros H. apply andb_true_iff in H. destruct H as [H1 H2].
  rewrite (HP ev H1). now apply IH.
Qed.

Lemma harmless_not_job ev : harmless ev = true -> is_run_job ev = false.
Proof. destruct ev; cbn; congruence. Qed.



Lemma get_font_run w family t w' o :
  get_font sys family w = (t, w', o) -> w' = w /\ run_jobs t = [].
Proof.
  intros H. destruct (get_font_looks sys family) as [He Hp].
  specialize (He w). destruct (Hp w) as [Hw _].
  unfold trace_of, world_of in *. rewrite H in *. cbn in *.
  split; [exact Hw|]. exact (run_jobs_none _ _ harmless_not_job He).
Qed.




Lemma single_options_bind a text :
  bind_options (VDict (single_options a text))
  = Ok (Options text (cli_position a) (cli_font_size a) (cli_opacity a)
          (cli_line_spacing a) (cli_shadow_offset a) (cli_shadow_blur_radius a),
        default_shadow_color).
Proof. reflexivity. Qed.



End RoundTrip.

(** * binary64: rounding to nearest even as Stdlib's [SpecFloat] computes it *)

(** ** Digits *)

Lemma digits2_size p : digits2_pos p = Pos.size p.
Proof. induction p; cbn; congruence. Qed.

Lemma digits_bounds p :
  2 ^ (Zpos (digits2_pos p) - 1) <= Zpos p < 2 ^ Zpos (digits2_pos p).
Proof.
  rewrite digits2_size. split.
  - pose proof (Pos.size_le p) as H.
    assert (H' : (2 ^ Zpos (Pos.size p) <= 2 * Zpos p)).
    { change (2 * Zpos p) with (Zpos p~0). rewrite <- Pos2Z.inj_pow. 
      apply Pos2Z.pos_le_pos. exact H. }
    replace (Zpos (Pos.size p)) with (Zpos (Pos.size p) - 1 + 1) in H' by lia.
    rewrite Z.pow_add_r in H' by lia. change (2 ^ 1) with 2 in H'. lia.
  - pose proof (Pos.size_gt p) as H. rewrite <- Pos2Z.inj_pow.
    apply Pos2Z.pos_lt_pos. exact H.
Qed.

(** The number of digits is the only [d] with [2^(d-1) <= m < 2^d]. *)
Lemma digits_unique p d :
  2 ^ (d - 1) <= Zpos p < 2 ^ d -> Zpos (digits2_pos p) = d.
Proof.
  intros [H1 H2]. pose proof (digits_bounds p) as [H3 H4].
  assert (Hd : 0 < d).
  { destruct (Z_lt_le_dec 0 d) as [Hd|Hd]; [assumption|].
    assert (2 ^ d <= 1); [|lia].
    destruct (Z.eq_dec d 0) as [->|]; [cbn; lia|]. rewrite Z.pow_neg_r by lia. lia. }
  destruct (Z.lt_trichotomy (Zpos (digits2_pos p)) d) as [H|[H|H]]; [|exact H|].
  - assert (2 ^ Zpos (digits2_pos p) <= 2 ^ (d - 1)) by (apply Z.pow_le_mono_r; lia). lia.
  - assert (2 ^ d <= 2 ^ (Zpos (digits2_pos p) - 1)) by (apply Z.pow_le_mono_r; lia). lia.
Qed.

(** ** Shifting right *)

Lemma iter_pos_iter {A} (f : A -> A) p x : iter_pos f p x = Pos.iter f x p.
Proof.
  revert x. induction p as [p IH|p IH|]; intros x; cbn.
  - rewrite !IH. rewrite <- Pos.iter_swap. f_equal. now rewrite <- Pos.iter_swap.
  - now rewrite !IH.
  - reflexivity.
Qed.

Lemma shr_1_spec m r s :
  0 <= m ->
  shr_1 (Build_shr_record m r s) = Build_shr_record (m / 2) (Z.odd m) (r || s).
Proof.
  intros Hm. destruct m as [|p|p]; [reflexivity| |lia].
  destruct p as [p|p|]; cbn [shr_1].
  - replace (Z.pos p~1 / 2) with (Zpos p); [reflexivity|].
    rewrite Pos2Z.inj_xI. apply Z.div_unique with (r := 1); lia.
  - replace (Z.pos p~0 / 2) with (Zpos p); [reflexivity|].
    rewrite Pos2Z.inj_xO. apply Z.div_unique with (r := 0); lia.
  - reflexivity.
Qed.

Lemma shifted_one m : 0 <= m -> shr_1 (Build_shr_record m false false) = shifted m 1.
Proof.
  intros Hm. rewrite shr_1_spec by exact Hm. unfold shifted.
  change (2 ^ 1) with 2. change (2 ^ (1 - 1)) with 1.
  rewrite Z.div_1_r, Z.mod_1_r. reflexivity.
Qed.

Lemma shifted_succ m k : 0 <= m -> 1 <= k -> shr_1 (shifted m k) = shifted m (k + 1).
Proof.
  intros Hm Hk. unfold shifted. rewrite shr_1_spec by (apply Z.div_pos; lia).
  replace (k + 1 - 1) with k by lia. f_equal.
  - rewrite Z.div_div by lia. f_equal. rewrite Z.pow_add_r by lia. reflexivity.
  - (* sticky *)
    replace k with (k - 1 + 1) at 3 by lia. rewrite Z.pow_add_r by lia.
    change (2 ^ 1) with 2.
    assert (Hp : 0 < 2 ^ (k - 1)) by (apply Z.pow_pos_nonneg; lia).
    rewrite Z.rem_mul_r by lia. rewrite Zmod_odd.
    pose proof (Z.mod_pos_bound m (2 ^ (k - 1)) Hp) as Hr.
    destruct (Z.odd (m / 2 ^ (k - 1))); cbn [orb].
    + destruct (Z.eqb_spec (m mod 2 ^ (k - 1) + 2 ^ (k - 1) * 1) 0); [lia|reflexivity].
    + rewrite Z.mul_0_r, Z.add_0_r. reflexivity.
Qed.

Lemma iter_shr_1 m p :
  0 <= m -> Pos.iter shr_1 (Build_shr_record m false false) p = shifted m (Zpos p).
Proof.
  intros Hm. induction p as [|p IH] using Pos.peano_ind.
  - cbn [Pos.iter]. now apply shifted_one.
  - rewrite Pos.iter_succ, IH, Pos2Z.inj_succ. apply shifted_succ; lia.
Qed.

Lemma rnd_one m : rnd m 1 = m.
Proof. unfold rnd. rewrite Z.mod_1_r, Z.div_1_r. reflexivity. Qed.

Lemma rnd_shifted m k :
  0 <= m -> 1 <= k ->
  round_nearest_even (shr_m (shifted m k)) (loc_of_shr_record (shifted m k))
  = rnd m (2 ^ k).
Proof.
  intros Hm Hk. unfold shifted, rnd. cbn [shr_m loc_of_shr_record].
  assert (Hp : 0 < 2 ^ (k - 1)) by (apply Z.pow_pos_nonneg; lia).
  assert (E2 : 2 ^ k = 2 ^ (k - 1) * 2).
  { replace k with (k - 1 + 1) at 1 by lia. now rewrite Z.pow_add_r by lia. }
  assert (Hrem : m mod 2 ^ k
                 = m mod 2 ^ (k - 1)
                   + 2 ^ (k - 1) * (if Z.odd (m / 2 ^ (k - 1)) then 1 else 0)).
  { rewrite E2 at 1. rewrite Z.rem_mul_r by lia. now rewrite Zmod_odd. }
  pose proof (Z.mod_pos_bound m (2 ^ (k - 1)) Hp) as Hr.
  destruct (Z.compare_spec (2 * (m mod 2 ^ k)) (2 ^ k)) as [Hc|Hc|Hc];
    destruct (Z.odd (m / 2 ^ (k - 1)));
    destruct (Z.eqb_spec (m mod 2 ^ (k - 1)) 0) as [Hz|Hz];
    cbn [negb round_nearest_even]; try reflexivity; exfalso; lia.
Qed.

Lemma fexp64_eq e : fexp prec emax e = fexp64 e.
Proof. reflexivity. Qed.

(** The first [shr_fexp] of [binary_round_aux] on an exact mantissa that
    is not shifted left. *)
Lemma shr_fexp_exact m e :
  0 <= m ->
  let E := fexp64 (Zdigits2 m + e) in
  e <= E ->
  exists mrs,
    shr_fexp prec emax m e loc_Exact = (mrs, E)
    /\ round_nearest_even (shr_m mrs) (loc_of_shr_record mrs) = rnd m (2 ^ (E - e)).
Proof.
  intros Hm E HE. unfold shr_fexp. rewrite fexp64_eq. fold E.
  cbn [shr_record_of_loc]. unfold shr.
  destruct (E - e) as [|p|p] eqn:En; [| |lia].
  - exists (Build_shr_record m false false). split; [f_equal; lia|].
    cbn [shr_m loc_of_shr_record round_nearest_even Z.pow]. now rewrite rnd_one.
  - exists (shifted m (Zpos p)). split.
    + rewrite iter_pos_iter, iter_shr_1 by exact Hm. f_equal. lia.
    + apply rnd_shifted; lia.
Qed.

Lemma rnd_bounds x d : 0 < d -> x / d <= rnd x d <= x / d + 1.
Proof.
  intros Hd. unfold rnd. destruct (2 * (x mod d) ?= d); [|lia|lia].
  destruct (Z.even (x / d)); lia.
Qed.

Lemma rnd_le_of_lt x d b : 0 < d -> x < b * d -> rnd x d <= b.
Proof.
  intros Hd H. pose proof (rnd_bounds x d Hd) as [_ Hu].
  assert (x / d < b) by (apply Z.div_lt_upper_bound; lia). lia.
Qed.

Lemma rnd_ge_of_le x d b : 0 < d -> b * d <= x -> b <= rnd x d.
Proof.
  intros Hd H. pose proof (rnd_bounds x d Hd) as [Hl _].
  assert (b <= x / d) by (apply Z.div_le_lower_bound; lia). lia.
Qed.

Lemma pow2_pos k : 0 <= k -> 0 < 2 ^ k.
Proof. intros. apply Z.pow_pos_nonneg; lia. Qed.

(** The rounded mantissa has at most 53 bits, or is [2^53]. *)
Lemma rnd_mantissa m e :
  let E := fexp64 (Zpos (digits2_pos m) + e) in
  e <= E ->
  let q := rnd (Zpos m) (2 ^ (E - e)) in
  0 <= q <= 2 ^ 53
  /\ (-1074 < E -> 2 ^ 52 <= q).
Proof.
  intros E HE q. pose proof (digits_bounds m) as [Hlo Hhi].
  set (d := Zpos (digits2_pos m)) in *.
  assert (Hd : 0 < 2 ^ (E - e)) by (apply pow2_pos; lia).
  assert (HEd : d + e - 53 <= E) by (unfold E, fexp64; lia).
  split; [split|].
  - apply rnd_ge_of_le; [exact Hd|lia].
  - apply rnd_le_of_lt; [exact Hd|].
    rewrite <- Z.pow_add_r by lia.
    assert (2 ^ d <= 2 ^ (53 + (E - e))) by (apply Z.pow_le_mono_r; lia). lia.
  - intros Hn. assert (E = d + e - 53) by (unfold E, fexp64 in *; lia).
    apply rnd_ge_of_le; [exact Hd|]. rewrite <- Z.pow_add_r by lia.
    replace (52 + (E - e)) with (d - 1) by lia. exact Hlo.
Qed.

Lemma Zdigits2_pos m : Zdigits2 (Zpos m) = Zpos (digits2_pos m).
Proof. reflexivity. Qed.

Lemma shr_fexp_keep q E :
  0 <= q < 2 ^ 53 -> -1074 <= E ->
  shr_fexp prec emax q E loc_Exact = (Build_shr_record q false false, E).
Proof.
  intros Hq HE. unfold shr_fexp. rewrite fexp64_eq. cbn [shr_record_of_loc].
  assert (Hn : fexp64 (Zdigits2 q + E) - E <= 0).
  { destruct q as [|p|p]; [cbn [Zdigits2]; unfold fexp64; lia| |lia].
    rewrite Zdigits2_pos. pose proof (digits_bounds p) as [Hlo _].
    assert (Zpos (digits2_pos p) <= 53).
    { destruct (Z_le_gt_dec (Zpos (digits2_pos p)) 53); [assumption|].
      assert (2 ^ 53 <= 2 ^ (Zpos (digits2_pos p) - 1)) by (apply Z.pow_le_mono_r; lia).
      lia. }
    unfold fexp64. lia. }
  unfold shr. destruct (fexp64 (Zdigits2 q + E) - E); [reflexivity|lia|reflexivity].
Qed.

Lemma shr_fexp_carry E :
  -1074 <= E ->
  shr_fexp prec emax (2 ^ 53) E loc_Exact = (Build_shr_record (2 ^ 52) false false, E + 1).
Proof.
  intros HE. unfold shr_fexp. rewrite fexp64_eq. cbn [shr_record_of_loc].
  change (Zdigits2 (2 ^ 53)) with 54.
  replace (fexp64 (54 + E) - E) with 1 by (unfold fexp64; lia).
  reflexivity.
Qed.

Theorem round_aux_spec sx m e :
  let E := fexp64 (Zpos (digits2_pos m) + e) in
  e <= E ->
  binary_round_aux prec emax sx (Zpos m) e loc_Exact
  = packed sx (rnd (Zpos m) (2 ^ (E - e))) E.
Proof.
  intros E HE. unfold binary_round_aux.
  destruct (shr_fexp_exact (Zpos m) e ltac:(lia) HE) as (mrs & -> & ->).
  rewrite Zdigits2_pos. fold E.
  destruct (rnd_mantissa m e HE) as [[Hq0 Hq1] _]. fold E in Hq0, Hq1.
  set (q := rnd (Zpos m) (2 ^ (E - e))) in *.
  assert (HEmin : -1074 <= E) by (unfold E, fexp64; lia).
  unfold packed. destruct (Z.eqb_spec q 0) as [Hz|Hz].
  - rewrite Hz. rewrite shr_fexp_keep by (cbn; lia). reflexivity.
  - destruct (Z.ltb_spec q (2 ^ 53)) as [Hlt|Hge].
    + rewrite shr_fexp_keep by lia. cbn [shr_m].
      destruct q as [|p|p]; [lia| |lia]. reflexivity.
    + assert (q = 2 ^ 53) by lia. rewrite H. rewrite shr_fexp_carry by lia.
      reflexivity.
Qed.

(** * binary64: scaled values and their order *)

Lemma ext_le_trans a b c : ext_le a b -> ext_le b c -> ext_le a c.
Proof. destruct a, b, c; cbn; try tauto; lia. Qed.

Lemma ext_le_lt_trans a b c : ext_le a b -> ext_lt b c -> ext_lt a c.
Proof. destruct a, b, c; cbn; try tauto; lia. Qed.

Lemma ext_opp_le a b : ext_le a b -> ext_le (ext_opp b) (ext_opp a).
Proof. destruct a, b; cbn; try tauto; lia. Qed.

Lemma clamp_mono u v : u <= v -> ext_le (clamp u) (clamp v).
Proof.
  intros H. unfold clamp.
  destruct (Z.ltb_spec u (2 ^ (1024 + K))), (Z.ltb_spec v (2 ^ (1024 + K))); cbn; lia.
Qed.

Lemma clamp_nonneg v : 0 <= v -> ext_le (Fin 0) (clamp v).
Proof. intros H. unfold clamp. destruct (_ <? _); cbn; lia. Qed.

Lemma pow2_split a b : 0 <= a -> 0 <= b -> 2 ^ (a + b) = 2 ^ a * 2 ^ b.
Proof. intros. apply Z.pow_add_r; assumption. Qed.

Lemma pow2_le a b : 0 <= a <= b -> 2 ^ a <= 2 ^ b.
Proof. intros. apply Z.pow_le_mono_r; lia. Qed.

(** The value of what [binary_round_aux] packs. *)
Lemma packed_sval s q E :
  0 <= q <= 2 ^ 53 -> -1074 <= E -> (-1074 < E -> 2 ^ 52 <= q) ->
  sval (packed s q E) = Some (signed s (clamp (q * 2 ^ (E + K)))).
Proof.
  intros Hq HE Hn. unfold packed.
  assert (HK : K = 2148) by reflexivity.
  assert (Hsplit : 2 ^ (1024 + K) = 2 ^ 53 * 2 ^ (971 + K))
    by (rewrite <- pow2_split by lia; f_equal; lia).
  destruct (Z.eqb_spec q 0) as [Hz|Hz].
  { subst q. cbn [sval]. rewrite Z.mul_0_l. unfold clamp.
    destruct (Z.ltb_spec 0 (2 ^ (1024 + K))) as [_|Hc].
    - destruct s; reflexivity.
    - pose proof (pow2_pos (1024 + K) ltac:(lia)). lia. }
  assert (HpE : 0 < 2 ^ (E + K)) by (apply pow2_pos; lia).
  destruct (Z.ltb_spec q (2 ^ 53)) as [Hlt|Hge].
  - destruct (Z.leb_spec E 971) as [Hle|Hgt].
    + cbn [sval]. rewrite Z2Pos.id by lia. unfold clamp.
      assert (q * 2 ^ (E + K) < 2 ^ (1024 + K)).
      { rewrite Hsplit. pose proof (pow2_le (E + K) (971 + K) ltac:(lia)).
        pose proof (pow2_pos 53 ltac:(lia)). nia. }
      destruct (Z.ltb_spec (q * 2 ^ (E + K)) (2 ^ (1024 + K))); [|lia].
      destruct s; reflexivity.
    + cbn [sval]. unfold clamp.
      assert (2 ^ (1024 + K) <= q * 2 ^ (E + K)).
      { replace (1024 + K) with (52 + (972 + K)) by lia. rewrite pow2_split by lia.
        pose proof (pow2_le (972 + K) (E + K) ltac:(lia)).
        pose proof (pow2_pos (972 + K) ltac:(lia)). specialize (Hn ltac:(lia)). nia. }
      destruct (Z.ltb_spec (q * 2 ^ (E + K)) (2 ^ (1024 + K))); [lia|].
      destruct s; reflexivity.
  - assert (Hq53 : q = 2 ^ 53) by lia. rewrite Hq53.
    destruct (Z.leb_spec (E + 1) 971) as [Hle|Hgt].
    + cbn [sval]. rewrite Z2Pos.id by (apply pow2_pos; lia). unfold clamp.
      assert (Heq : 2 ^ 52 * 2 ^ (E + 1 + K) = 2 ^ 53 * 2 ^ (E + K)).
      { replace (E + 1 + K) with (1 + (E + K)) by lia. rewrite pow2_split by lia.
        change (2 ^ 53) with (2 ^ 52 * 2 ^ 1). ring. }
      rewrite Heq.
      assert (2 ^ 53 * 2 ^ (E + K) < 2 ^ (1024 + K)).
      { rewrite Hsplit. 
        assert (2 ^ (E + K) < 2 ^ (971 + K)) by (apply Z.pow_lt_mono_r; lia).
        pose proof (pow2_pos 53 ltac:(lia)). nia. }
      destruct (Z.ltb_spec (2 ^ 53 * 2 ^ (E + K)) (2 ^ (1024 + K))); [|lia].
      destruct s; reflexivity.
    + cbn [sval]. unfold clamp.
      assert (2 ^ (1024 + K) <= 2 ^ 53 * 2 ^ (E + K)).
      { rewrite Hsplit. pose proof (pow2_le (971 + K) (E + K) ltac:(lia)).
        pose proof (pow2_pos 53 ltac:(lia)). nia. }
      destruct (Z.ltb_spec (2 ^ 53 * 2 ^ (E + K)) (2 ^ (1024 + K))); [lia|].
      destruct s; reflexivity.
Qed.

Lemma compare_scale a b c : 0 < c -> (a * c ?= b * c) = (a ?= b).
Proof.
  intros Hc. destruct (Z.compare_spec a b) as [H|H|H].
  - subst. apply Z.compare_refl.
  - apply Z.compare_lt_iff. nia.
  - apply Z.compare_gt_iff. nia.
Qed.

Lemma rnd_scale x d c : 0 < d -> 0 < c -> rnd (x * c) (d * c) = rnd x d.
Proof.
  intros Hd Hc. unfold rnd.
  rewrite Z.div_mul_cancel_r by lia.
  rewrite Z.mul_mod_distr_r by lia.
  replace (2 * (x mod d * c)) with (2 * (x mod d) * c) by ring.
  rewrite compare_scale by exact Hc. reflexivity.
Qed.

Lemma rnd_mono x1 x2 d : 0 < d -> x1 <= x2 -> rnd x1 d <= rnd x2 d.
Proof.
  intros Hd H. pose proof (Z.div_le_mono x1 x2 d Hd H) as Hf.
  pose proof (rnd_bounds x1 d Hd) as [L1 U1]. pose proof (rnd_bounds x2 d Hd) as [L2 U2].
  destruct (Z.eq_dec (x1 / d) (x2 / d)) as [Heq|Hne]; [|lia].
  pose proof (Z.div_mod x1 d ltac:(lia)) as D1. pose proof (Z.div_mod x2 d ltac:(lia)) as D2.
  assert (Hr : x1 mod d <= x2 mod d) by (rewrite Heq in D1; lia).
  unfold rnd. rewrite Heq.
  destruct (Z.compare_spec (2 * (x1 mod d)) d), (Z.compare_spec (2 * (x2 mod d)) d);
    try lia; destruct (Z.even (x2 / d)); lia.
Qed.

Lemma fexp64_ge L : -1074 <= fexp64 L.
Proof. unfold fexp64. lia. Qed.

Lemma fexp64_mono L1 L2 : L1 <= L2 -> fexp64 L1 <= fexp64 L2.
Proof. unfold fexp64. lia. Qed.

Lemma binade_le x1 x2 L1 L2 :
  2 ^ (L1 - 1 + K) <= x1 -> x2 < 2 ^ (L2 + K) -> x1 <= x2 -> L1 <= L2.
Proof.
  intros H1 H2 H. destruct (Z_le_gt_dec L1 L2) as [|Hgt]; [assumption|].
  destruct (Z_le_gt_dec 0 (L2 + K)) as [Hp|Hn].
  - pose proof (pow2_le (L2 + K) (L1 - 1 + K) ltac:(lia)). lia.
  - rewrite (Z.pow_neg_r 2 (L2 + K)) in H2 by lia.
    assert (0 <= 2 ^ (L1 - 1 + K)) by (apply Z.pow_nonneg; lia). lia.
Qed.

Lemma rounded_mono x1 x2 L1 L2 :
  1 <= L1 + K ->
  2 ^ (L1 - 1 + K) <= x1 < 2 ^ (L1 + K) ->
  2 ^ (L2 - 1 + K) <= x2 < 2 ^ (L2 + K) ->
  x1 <= x2 ->
  rounded x1 L1 <= rounded x2 L2.
Proof.
  intros HL1 [Hlo1 Hhi1] [Hlo2 Hhi2] Hx.
  assert (HK : K = 2148) by reflexivity.
  pose proof (binade_le x1 x2 L1 L2 Hlo1 Hhi2 Hx) as HL.
  pose proof (fexp64_mono L1 L2 HL) as HE.
  pose proof (fexp64_ge L1) as G1. pose proof (fexp64_ge L2) as G2.
  unfold rounded.
  set (E1 := fexp64 L1) in *. set (E2 := fexp64 L2) in *.
  assert (HD1 : 0 < 2 ^ (E1 + K)) by (apply pow2_pos; lia).
  assert (HD2 : 0 < 2 ^ (E2 + K)) by (apply pow2_pos; lia).
  destruct (Z.eq_dec E1 E2) as [Heq|Hne].
  - rewrite <- Heq. pose proof (rnd_mono x1 x2 (2 ^ (E1 + K)) HD1 Hx). nia.
  - assert (Hlt : E1 < E2) by lia.
    assert (HE2 : E2 = L2 - 53) by (unfold E2, E1, fexp64 in *; lia).
    assert (HE1 : L1 - 53 <= E1) by (unfold E1, fexp64; lia).
    (* the power of two between them *)
    assert (HB2 : 2 ^ (L2 - 1 + K) = 2 ^ 52 * 2 ^ (E2 + K)).
    { rewrite <- pow2_split by lia. f_equal. lia. }
    assert (HB1 : 2 ^ (L2 - 1 + K) = 2 ^ (L2 - 1 - E1) * 2 ^ (E1 + K)).
    { rewrite <- pow2_split by lia. f_equal. lia. }
    assert (Hx1 : x1 < 2 ^ (L2 - 1 + K)).
    { pose proof (pow2_le (L1 + K) (L2 - 1 + K) ltac:(lia)). lia. }
    pose proof (rnd_ge_of_le x2 (2 ^ (E2 + K)) (2 ^ 52) HD2 ltac:(lia)) as H2.
    pose proof (rnd_le_of_lt x1 (2 ^ (E1 + K)) (2 ^ (L2 - 1 - E1)) HD1 ltac:(lia)) as H1.
    apply Z.le_trans with (2 ^ (L2 - 1 + K)).
    + rewrite HB1. nia.
    + rewrite HB2. nia.
Qed.

Lemma valid_canon s m e : valid (S754_finite s m e) = true -> canon m e /\ e <= 971.
Proof.
  unfold valid, valid_binary, bounded, canonical_mantissa. intros H.
  apply andb_true_iff in H. destruct H as [H1 H2].
  apply Z.eqb_eq in H1. apply Z.leb_le in H2. split; [exact H1|exact H2].
Qed.

Lemma canon_facts m e :
  canon m e ->
  Zpos (digits2_pos m) <= 53 /\ -1074 <= e
  /\ (Zpos (digits2_pos m) = 53 \/ e = -1074).
Proof. unfold canon, fexp64. lia. Qed.

Lemma digits_mul_ge m1 m2 :
  Zpos (digits2_pos m1) + Zpos (digits2_pos m2) - 1 <= Zpos (digits2_pos (m1 * m2)).
Proof.
  pose proof (digits_bounds m1) as [L1 _]. pose proof (digits_bounds m2) as [L2 _].
  pose proof (digits_bounds (m1 * m2)) as [_ U]. rewrite Pos2Z.inj_mul in U.
  set (d1 := Zpos (digits2_pos m1)) in *. set (d2 := Zpos (digits2_pos m2)) in *.
  set (d := Zpos (digits2_pos (m1 * m2))) in *.
  assert (0 < d1) by (unfold d1; lia). assert (0 < d2) by (unfold d2; lia).
  destruct (Z_le_gt_dec (d1 + d2 - 1) d) as [|Hgt]; [assumption|].
  assert (H2 : 2 ^ (d1 - 1 + (d2 - 1)) <= Zpos m1 * Zpos m2).
  { rewrite pow2_split by lia.
    pose proof (pow2_pos (d1 - 1) ltac:(lia)). pose proof (pow2_pos (d2 - 1) ltac:(lia)).
    nia. }
  assert (0 < d) by (unfold d; lia).
  pose proof (pow2_le d (d1 - 1 + (d2 - 1)) ltac:(lia)). lia.
Qed.

Lemma mul_no_shift m1 e1 m2 e2 :
  canon m1 e1 -> canon m2 e2 ->
  e1 + e2 <= fexp64 (Zpos (digits2_pos (m1 * m2)) + (e1 + e2)).
Proof.
  intros C1 C2. apply canon_facts in C1, C2.
  pose proof (digits_mul_ge m1 m2).
  assert (0 < Zpos (digits2_pos m1)) by lia. assert (0 < Zpos (digits2_pos m2)) by lia.
  unfold fexp64. lia.
Qed.

(** The binade of a scaled positive number. *)
Lemma scaled_binade m e :
  0 <= e + K ->
  let L := Zpos (digits2_pos m) + e in
  2 ^ (L - 1 + K) <= Zpos m * 2 ^ (e + K) < 2 ^ (L + K) /\ 1 <= L + K.
Proof.
  intros He L. pose proof (digits_bounds m) as [Lo Hi].
  assert (0 < Zpos (digits2_pos m)) by lia.
  pose proof (pow2_pos (e + K) He).
  replace (L - 1 + K) with (Zpos (digits2_pos m) - 1 + (e + K)) by (unfold L; lia).
  replace (L + K) with (Zpos (digits2_pos m) + (e + K)) by (unfold L; lia).
  rewrite (pow2_split (Zpos (digits2_pos m) - 1) (e + K)) by lia.
  rewrite (pow2_split (Zpos (digits2_pos m)) (e + K)) by lia.
  split; [split; nia|unfold L; lia].
Qed.

(** The value of a rounded positive number. *)
Lemma round_aux_sval s m e :
  0 <= e + K ->
  let L := Zpos (digits2_pos m) + e in
  e <= fexp64 L ->
  sval (binary_round_aux prec emax s (Zpos m) e loc_Exact)
  = Some (signed s (clamp (rounded (Zpos m * 2 ^ (e + K)) L))).
Proof.
  intros He L HE. rewrite round_aux_spec by exact HE. fold L.
  destruct (rnd_mantissa m e HE) as [Hq Hn]. fold L in Hq, Hn.
  rewrite packed_sval; [|exact Hq|apply fexp64_ge|exact Hn].
  do 3 f_equal. unfold rounded.
  pose proof (fexp64_ge L).
  assert (HK : K = 2148) by reflexivity.
  replace (2 ^ (fexp64 L + K)) with (2 ^ (fexp64 L - e) * 2 ^ (e + K))
    by (rewrite <- pow2_split by lia; f_equal; lia).
  rewrite rnd_scale; [reflexivity|apply pow2_pos; lia|apply pow2_pos; lia].
Qed.

(** The value of a product of finite floats. *)
Lemma fmul_finite_sval s1 m1 e1 s2 m2 e2 :
  canon m1 e1 -> canon m2 e2 ->
  sval (fmul (S754_finite s1 m1 e1) (S754_finite s2 m2 e2))
  = Some (signed (xorb s1 s2)
            (clamp (rounded (Zpos m1 * Zpos m2 * 2 ^ (e1 + e2 + K))
                      (Zpos (digits2_pos (m1 * m2)) + (e1 + e2))))).
Proof.
  intros C1 C2. unfold fmul, SFmul.
  pose proof (canon_facts _ _ C1). pose proof (canon_facts _ _ C2).
  assert (HK : K = 2148) by reflexivity.
  rewrite round_aux_sval; [|lia|now apply mul_no_shift].
  now rewrite Pos2Z.inj_mul.
Qed.

(** The order of canonical positive floats, on scaled values. *)
Lemma canon_lt m1 e1 m2 e2 :
  canon m1 e1 -> canon m2 e2 ->
  SFcompare (S754_finite false m1 e1) (S754_finite false m2 e2) = Some Lt ->
  Zpos m1 * 2 ^ (e1 + 1074) < Zpos m2 * 2 ^ (e2 + 1074).
Proof.
  intros C1 C2 H. apply canon_facts in C1, C2. cbn [SFcompare] in H.
  pose proof (digits_bounds m1) as [Lo1 Hi1]. pose proof (digits_bounds m2) as [Lo2 Hi2].
  destruct (Z.compare_spec e1 e2) as [Heq|Hlt|Hgt]; [| |discriminate].
  - subst e2. injection H as H.
    change (Pos.compare_cont Eq m1 m2) with (Pos.compare m1 m2) in H.
    apply Pos.compare_lt_iff in H. pose proof (pow2_pos (e1 + 1074) ltac:(lia)).
    apply Pos2Z.pos_lt_pos in H. nia.
  - assert (Hd2 : Zpos (digits2_pos m2) = 53) by lia. rewrite Hd2 in Lo2.
    assert (Zpos m1 < 2 ^ 53).
    { pose proof (pow2_le (Zpos (digits2_pos m1)) 53 ltac:(lia)). lia. }
    change (2 ^ (53 - 1)) with (2 ^ 52) in Lo2.
    replace (e2 + 1074) with (e2 - e1 - 1 + 1 + (e1 + 1074)) by lia.
    rewrite (pow2_split (e2 - e1 - 1 + 1) (e1 + 1074)) by lia.
    rewrite (pow2_split (e2 - e1 - 1) 1) by lia. change (2 ^ 1) with 2.
    pose proof (pow2_pos (e2 - e1 - 1) ltac:(lia)).
    pose proof (pow2_pos (e1 + 1074) ltac:(lia)).
    change (2 ^ 53) with (2 ^ 52 * 2) in H0.
    assert (Zpos m1 < Zpos m2 * (2 ^ (e2 - e1 - 1) * 2)) by nia.
    nia.
Qed.

Lemma digits_of_range q d :
  0 < q -> 2 ^ (d - 1) <= q < 2 ^ d -> Zpos (digits2_pos (Z.to_pos q)) = d.
Proof.
  intros Hq H. apply digits_unique. rewrite Z2Pos.id by exact Hq. exact H.
Qed.

Lemma digits_le_53 q : 0 < q < 2 ^ 53 -> Zpos (digits2_pos (Z.to_pos q)) <= 53.
Proof.
  intros Hq. pose proof (digits_bounds (Z.to_pos q)) as [Lo _].
  rewrite Z2Pos.id in Lo by lia.
  destruct (Z_le_gt_dec (Zpos (digits2_pos (Z.to_pos q))) 53); [assumption|].
  pose proof (pow2_le 53 (Zpos (digits2_pos (Z.to_pos q)) - 1) ltac:(lia)). lia.
Qed.

Lemma packed_form s q E :
  0 <= q <= 2 ^ 53 -> -1074 <= E -> (-1074 < E -> 2 ^ 52 <= q) ->
  rounded_form s (packed s q E).
Proof.
  intros Hq HE Hn. unfold packed.
  destruct (Z.eqb_spec q 0); [constructor|].
  destruct (Z.ltb_spec q (2 ^ 53)) as [Hlt|Hge].
  - destruct (Z.leb_spec E 971); [|constructor]. constructor; [|assumption].
    unfold canon, fexp64. destruct (Z.eq_dec E (-1074)) as [->|Hne].
    + pose proof (digits_le_53 q ltac:(lia)). lia.
    + rewrite (digits_of_range q 53); [lia|lia|]. specialize (Hn ltac:(lia)).
      change (2 ^ (53 - 1)) with (2 ^ 52). lia.
  - destruct (Z.leb_spec (E + 1) 971); [|constructor]. constructor; [|assumption].
    unfold canon, fexp64. rewrite (digits_of_range (2 ^ 52) 53); [lia|reflexivity|].
    cbn. lia.
Qed.

Lemma round_aux_form s m e :
  e <= fexp64 (Zpos (digits2_pos m) + e) ->
  rounded_form s (binary_round_aux prec emax s (Zpos m) e loc_Exact).
Proof.
  intros HE. rewrite round_aux_spec by exact HE.
  destruct (rnd_mantissa m e HE) as [Hq Hn].
  apply packed_form; [exact Hq|apply fexp64_ge|exact Hn].
Qed.

Lemma fmul_finite_form s1 m1 e1 s2 m2 e2 :
  canon m1 e1 -> canon m2 e2 ->
  rounded_form (xorb s1 s2) (fmul (S754_finite s1 m1 e1) (S754_finite s2 m2 e2)).
Proof.
  intros C1 C2. unfold fmul, SFmul. apply round_aux_form. now apply mul_no_shift.
Qed.

(** [float(z)] for a natural number. *)
Lemma iter_xO p k : Zpos (Pos.iter xO p k) = Zpos p * 2 ^ Zpos k.
Proof.
  change (Pos.iter xO p k) with (shift_pos k p). rewrite shift_pos_correct.
  rewrite Zpower_pos_is_exp || idtac. 
  rewrite Z.mul_comm. f_equal.
Qed.

(** * binary64: multiplication is monotone *)

Lemma float_of_nat_form z : 0 <= z -> rounded_form false (float_of_int z).
Proof.
  intros Hz. destruct z as [|p|p]; [constructor| |lia].
  unfold float_of_int, binary_normalize, binary_round, shl_align.
  rewrite fexp64_eq. set (d := Zpos (digits2_pos p)).
  rewrite Z.add_0_r, Z.sub_0_r.
  destruct (fexp64 d) as [|k|k] eqn:Ef.
  - apply round_aux_form. fold d. replace (d + 0) with d by lia. lia.
  - apply round_aux_form. fold d. replace (d + 0) with d by lia. lia.
  - apply round_aux_form.
    assert (Hd : Zpos (digits2_pos (Pos.iter xO p k)) = d + Zpos k).
    { apply digits_unique. rewrite iter_xO. pose proof (digits_bounds p) as [Lo Hi].
      fold d in Lo, Hi. assert (0 < d) by (unfold d; lia).
      replace (d + Zpos k - 1) with (d - 1 + Zpos k) by lia.
      rewrite !pow2_split by lia. pose proof (pow2_pos (Zpos k) ltac:(lia)).
      split; nia. }
    rewrite Hd. replace (d + Zpos k + Zneg k) with d by lia. rewrite Ef. lia.
Qed.

Lemma f0_04_canon : canon 5764607523034235 (-57).
Proof. reflexivity. Qed.

(** The factor [min(w, h) * 0.04] of the threshold. *)
Lemma base_form z : 0 <= z -> rounded_form false (fmul (float_of_int z) f0_04).
Proof.
  intros Hz. destruct (float_of_nat_form z Hz) as [| |m e C B].
  - constructor.
  - constructor.
  - change false with (xorb false false) at 1. apply fmul_finite_form;
      [exact C|exact f0_04_canon].
Qed.

Lemma SFltb_Lt a b : SFltb a b = true -> SFcompare a b = Some Lt.
Proof.
  unfold SFltb. destruct (SFcompare a b) as [[]|]; congruence.
Qed.

Lemma rounded_nonneg x L : 0 <= x -> 0 <= rounded x L.
Proof.
  intros Hx. unfold rounded. cbv zeta. pose proof (fexp64_ge L) as HE.
  assert (HK : K = 2148) by reflexivity.
  assert (HD : 0 < 2 ^ (fexp64 L + K)) by (apply pow2_pos; lia).
  pose proof (rnd_ge_of_le x (2 ^ (fexp64 L + K)) 0 HD ltac:(lia)). nia.
Qed.

Lemma scaled_nonneg (m1 m2 : positive) e : 0 <= Zpos m1 * Zpos m2 * 2 ^ e.
Proof. pose proof (Z.pow_nonneg 2 e ltac:(lia)). nia. Qed.

(** Multiplying by a non-negative rounded factor keeps the order, NaN
    results apart. *)
Lemma fmul_mono c a b xa xb :
  rounded_form false c -> valid a = true -> valid b = true ->
  SFltb a b = true ->
  sval (fmul c a) = Some xa -> sval (fmul c b) = Some xb -> ext_le xa xb.
Proof.
  intros Hc Va Vb Hlt Ha Hb. apply SFltb_Lt in Hlt.
  assert (HK : K = 2148) by reflexivity.
  destruct Hc as [| |mc ec Cc Bc].
  - (* c = +0 *)
    destruct a as [sa|sa| |sa ma ea], b as [sb|sb| |sb mb eb];
      cbn in Ha, Hb; try discriminate; injection Ha as <-; injection Hb as <-; cbn; lia.
  - (* c = +inf *)
    destruct a as [sa|sa| |sa ma ea], b as [sb|sb| |sb mb eb];
      cbn in Ha, Hb, Hlt; try discriminate;
      injection Ha as <-; injection Hb as <-;
      repeat match goal with s : bool |- _ => destruct s end;
      cbn in *; try exact I; try discriminate;
      repeat match goal with
             | H : context [?x ?= ?y] |- _ => destruct (x ?= y)
             end; discriminate.
  - (* c finite *)
    destruct a as [sa|sa| |sa ma ea]; try discriminate.
    + (* a zero *)
      cbn in Ha. injection Ha as <-.
      destruct b as [sb|sb| |sb mb eb]; cbn in Hlt; try discriminate.
      * destruct sb; discriminate || (cbn in Hb; injection Hb as <-; exact I).
      * destruct sb; [discriminate|].
        destruct (valid_canon _ _ _ Vb) as [Cb _].
        rewrite (fmul_finite_sval false mc ec false mb eb Cc Cb) in Hb.
        injection Hb as <-. cbn [xorb signed]. apply clamp_nonneg.
        apply rounded_nonneg, scaled_nonneg.
    + (* a infinite *)
      destruct sa.
      * cbn in Ha. injection Ha as <-. exact I.
      * destruct b as [sb|sb| |sb mb eb]; cbn in Hlt; try discriminate.
        destruct sb; discriminate.
    + (* a finite *)
      destruct (valid_canon _ _ _ Va) as [Ca _].
      rewrite (fmul_finite_sval false mc ec sa ma ea Cc Ca) in Ha. injection Ha as <-.
      pose proof (canon_facts _ _ Cc) as Fc. pose proof (canon_facts _ _ Ca) as Fa.
      assert (Hra : 0 <= rounded (Zpos mc * Zpos ma * 2 ^ (ec + ea + K))
                          (Zpos (digits2_pos (mc * ma)) + (ec + ea))).
      { apply rounded_nonneg, scaled_nonneg. }
      destruct b as [sb|sb| |sb mb eb]; try discriminate.
      * (* b zero *)
        cbn in Hb. injection Hb as <-. cbn in Hlt. destruct sa; [|discriminate].
        cbn [xorb signed]. apply (ext_opp_le (Fin 0)). now apply clamp_nonneg.
      * (* b infinite *)
        cbn in Hb. injection Hb as <-. cbn in Hlt.
        destruct sb; [discriminate|]. destruct (signed _ _); exact I.
      * destruct (valid_canon _ _ _ Vb) as [Cb _].
        rewrite (fmul_finite_sval false mc ec sb mb eb Cc Cb) in Hb. injection Hb as <-.
        pose proof (canon_facts _ _ Cb) as Fb.
        assert (Hrb : 0 <= rounded (Zpos mc * Zpos mb * 2 ^ (ec + eb + K))
                            (Zpos (digits2_pos (mc * mb)) + (ec + eb))).
        { apply rounded_nonneg, scaled_nonneg. }
        assert (Hsplit : forall e, -1074 <= e ->
                   2 ^ (ec + e + K) = 2 ^ (ec + 1074) * 2 ^ (e + 1074)).
        { intros e He. rewrite <- pow2_split by lia. f_equal. lia. }
        pose proof (pow2_pos (ec + 1074) ltac:(lia)) as Hpc.
        assert (Hmono : forall m1 e1 m2 e2, canon m1 e1 -> canon m2 e2 ->
                  SFcompare (S754_finite false m1 e1) (S754_finite false m2 e2) = Some Lt ->
                  rounded (Zpos mc * Zpos m1 * 2 ^ (ec + e1 + K))
                    (Zpos (digits2_pos (mc * m1)) + (ec + e1))
                  <= rounded (Zpos mc * Zpos m2 * 2 ^ (ec + e2 + K))
                       (Zpos (digits2_pos (mc * m2)) + (ec + e2))).
        { intros m1 e1 m2 e2 C1 C2 Hcmp.
          pose proof (canon_lt m1 e1 m2 e2 C1 C2 Hcmp) as Hv.
          pose proof (canon_facts _ _ C1) as F1. pose proof (canon_facts _ _ C2) as F2.
          destruct (scaled_binade (mc * m1) (ec + e1) ltac:(lia)) as [B1 L1].
          destruct (scaled_binade (mc * m2) (ec + e2) ltac:(lia)) as [B2 _].
          rewrite Pos2Z.inj_mul in B1, B2.
          apply rounded_mono; [exact L1|exact B1|exact B2|].
          rewrite !Hsplit by lia. nia. }
        destruct sa, sb; cbn [xorb signed].
        -- (* both negative *)
           apply ext_opp_le, clamp_mono, Hmono; [exact Cb|exact Ca|].
           cbn [SFcompare] in Hlt |- *.
           destruct (ea ?= eb) eqn:Ec; rewrite (Z.compare_antisym ea eb), Ec; cbn [CompOpp];
             try discriminate; try reflexivity.
           injection Hlt as Hlt. f_equal.
           change (Pos.compare_cont Eq ma mb) with (Pos.compare ma mb) in Hlt.
           change (Pos.compare_cont Eq mb ma) with (Pos.compare mb ma).
           rewrite (Pos.compare_antisym ma mb). exact Hlt.
        -- (* a negative, b positive *)
           apply ext_le_trans with (Fin 0).
           ++ apply (ext_opp_le (Fin 0)). now apply clamp_nonneg.
           ++ now apply clamp_nonneg.
        -- cbn in Hlt. discriminate.
        -- apply clamp_mono, Hmono; assumption.
Qed.

(** * The size search is monotone in [font_size] *)

Lemma some_eq {A} (a b : A) : Some a = Some b <-> a = b.
Proof. split; [intros H; injection H; trivial|congruence]. Qed.

Lemma some_lt_iff a b : Some (a ?= b) = Some Lt <-> a < b.
Proof. rewrite some_eq. apply Z.compare_lt_iff. Qed.

Lemma sval_finite s m e :
  sval (S754_finite s m e) = Some (Fin (cond_Zopp s (Zpos m) * 2 ^ (e + K))).
Proof. destruct s; unfold sval, cond_Zopp; do 2 f_equal; ring. Qed.

Lemma compare_float_Z_sval T z x :
  sval T = Some x ->
  (forall s m e, T = S754_finite s m e -> - K <= e) ->
  (compare_float_Z T z = Some Lt <-> ext_lt x (Fin (z * 2 ^ K))).
Proof.
  intros Hx He. assert (HK : K = 2148) by reflexivity.
  pose proof (pow2_pos K ltac:(lia)) as HpK.
  destruct T as [s|s| |s m e].
  - apply (proj1 (some_eq _ _)) in Hx. subst x. unfold compare_float_Z, ext_lt.
    rewrite some_lt_iff. nia.
  - apply (proj1 (some_eq _ _)) in Hx. subst x. unfold compare_float_Z.
    destruct s; unfold ext_lt; split; intros H; try reflexivity; try exact I;
      try discriminate; contradiction.
  - discriminate.
  - specialize (He s m e eq_refl). rewrite sval_finite in Hx.
    apply (proj1 (some_eq _ _)) in Hx. subst x. unfold compare_float_Z, ext_lt.
    pose proof (pow2_pos (e + K) ltac:(lia)) as Hp.
    destruct (Z.leb_spec 0 e) as [Hpos|Hneg]; rewrite some_lt_iff.
    + replace (2 ^ (e + K)) with (2 ^ e * 2 ^ K) by (rewrite <- pow2_split by lia; reflexivity).
      pose proof (pow2_pos e Hpos). nia.
    + replace (2 ^ K) with (2 ^ (- e) * 2 ^ (e + K))
        by (rewrite <- pow2_split by lia; f_equal; lia).
      pose proof (pow2_pos (- e) ltac:(lia)). nia.
Qed.

Lemma fmul_exponent c a s m e :
  rounded_form false c -> valid a = true ->
  fmul c a = S754_finite s m e -> - K <= e.
Proof.
  intros Hc Va H. assert (HK : K = 2148) by reflexivity.
  destruct Hc as [| |mc ec Cc Bc];
    destruct a as [sa|sa| |sa ma ea]; try discriminate H.
  destruct (valid_canon _ _ _ Va) as [Ca _].
  pose proof (fmul_finite_form false mc ec sa ma ea Cc Ca) as F.
  rewrite H in F. inversion F as [| |m' e' C B]; subst.
  apply canon_facts in C. lia.
Qed.

Lemma num_gt_int_float z T :
  num_gt (NInt z) (NFloat T) = true <-> compare_float_Z T z = Some Lt.
Proof.
  unfold num_gt, num_compare.
  destruct (compare_float_Z T z) as [[| |]|]; cbn; split; congruence.
Qed.

Lemma threshold_float sz font_size :
  threshold sz font_size
  = NFloat (fmul (fmul (float_of_int (Z.min (fst sz) (snd sz))) f0_04) font_size).
Proof. reflexivity. Qed.

(** What exceeds the bound of a larger [font_size] exceeds the bound of
    a smaller one, unless that bound is NaN. *)
Lemma exceeds_antitone sz fs1 fs2 z1 z2 :
  0 <= fst sz -> 0 <= snd sz ->
  valid fs1 = true -> valid fs2 = true -> SFltb fs1 fs2 = true ->
  num_gt (NInt z1) (threshold sz fs1) = true ->
  num_gt (NInt z2) (threshold sz fs2) = true ->
  num_gt (NInt z2) (threshold sz fs1) = true.
Proof.
  intros Hw Hh V1 V2 Hlt H1 H2. rewrite threshold_float in *.
  set (c := fmul (float_of_int (Z.min (fst sz) (snd sz))) f0_04) in *.
  assert (Hc : rounded_form false c) by (apply base_form; lia).
  apply num_gt_int_float in H1, H2. apply num_gt_int_float.
  destruct (sval (fmul c fs1)) as [x1|] eqn:S1;
    [|destruct (fmul c fs1); cbn in S1, H1; discriminate].
  destruct (sval (fmul c fs2)) as [x2|] eqn:S2;
    [|destruct (fmul c fs2); cbn in S2, H2; discriminate].
  pose proof (fmul_mono c fs1 fs2 x1 x2 Hc V1 V2 Hlt S1 S2) as Hle.
  apply (compare_float_Z_sval _ z2 x1 S1).
  { intros s m e E. exact (fmul_exponent c fs1 s m e Hc V1 E). }
  apply (compare_float_Z_sval _ z2 x2 S2) in H2.
  2:{ intros s m e E. exact (fmul_exponent c fs2 s m e Hc V2 E). }
  exact (ext_le_lt_trans _ _ _ Hle H2).
Qed.

Section Monotone.
Variable E : engine.
Variable font_file : str.

Lemma autosize_some thr : forall fuel size s lh,
  autosize E font_file thr fuel size = Some (s, lh) ->
  exists k, s = size + 2 * Z.of_nat k
    /\ lh = line_height_at E font_file s
    /\ exceeds E font_file thr s = true
    /\ forall j, (j < k)%nat -> exceeds E font_file thr (size + 2 * Z.of_nat j) = false.
Proof.
  induction fuel as [|fuel IH]; intros size s lh H; [discriminate|].
  rewrite autosize_step in H. destruct (exceeds E font_file thr size) eqn:Ex.
  - injection H as <- <-. exists 0%nat. rewrite Z.add_0_r.
    repeat split; [exact Ex|]. intros j Hj. lia.
  - destruct (IH _ _ _ H) as (k & -> & -> & Hk & Hmin). exists (S k).
    replace (size + 2 * Z.of_nat (S k)) with (size + 2 + 2 * Z.of_nat k) by lia.
    repeat split; [exact Hk|]. intros [|j] Hj.
    + now rewrite Z.add_0_r.
    + replace (size + 2 * Z.of_nat (S j)) with (size + 2 + 2 * Z.of_nat j) by lia.
      apply Hmin. lia.
Qed.

(** C4. On an image of non-negative width and height and with the same
    font, when the search for [font_size = fs1] ends with size [s1] and the
    search for a larger [font_size = fs2] ends with size [s2], then
    [s1 <= s2]. *)
Theorem autosize_monotone sz fs1 fs2 fuel1 fuel2 s1 m1 s2 m2 :
  0 <= fst sz -> 0 <= snd sz ->
  valid fs1 = true -> valid fs2 = true -> SFltb fs1 fs2 = true ->
  autosize E font_file (threshold sz fs1) fuel1 2 = Some (s1, m1) ->
  autosize E font_file (threshold sz fs2) fuel2 2 = Some (s2, m2) ->
  s1 <= s2.
Proof.
  intros Hw Hh V1 V2 Hlt A1 A2.
  destruct (autosize_some _ _ _ _ _ A1) as (k1 & -> & _ & Hx1 & Hmin1).
  destruct (autosize_some _ _ _ _ _ A2) as (k2 & -> & _ & Hx2 & _).
  destruct (Nat.le_gt_cases k1 k2) as [Hle|Hgt]; [lia|].
  specialize (Hmin1 k2 Hgt). unfold exceeds in *.
  rewrite (exceeds_antitone sz fs1 fs2 _ _ Hw Hh V1 V2 Hlt Hx1 Hx2) in Hmin1.
  discriminate.
Qed.
End Monotone.

(** * The first size above the bound; the compositor on an example *)

(** The layout of the two lines "ab" and "c", at the top left. *)
Lemma plot_lines_layout_witness :
  [lit "ab"; lit "c"] <> []
  /\ exists c0 c1,
       plot_lines demo_engine demo_font 4 (100, 50) LEFT TOP 4 (NInt 1) (NInt 9)
         [lit "ab"; lit "c"] = [c0; c1]
       /\ call_y c0 = NInt 4 /\ call_x c1 = NInt 4 /\ call_y c1 = NInt 9.
Proof.
  assert (Hne : [lit "ab"; lit "c"] <> []) by discriminate.
  split; [exact Hne|].
  destruct (plot_lines_layout demo_engine demo_font 4 100 50 LEFT TOP 4 (NInt 1) (NInt 9)
              [lit "ab"; lit "c"] Hne) as [(c0 & H0 & Htop & _) Hall].
  destruct (Hall 0%nat (lit "ab") eq_refl) as (c0' & H0' & _ & _ & _ & Hnext).
  destruct (Hall 1%nat (lit "c") eq_refl) as (c1 & H1 & _ & Hleft & _ & _).
  exists c0, c1. rewrite H0 in H0'. injection H0' as <-.
  specialize (Hnext c1 H1). specialize (Htop eq_refl). specialize (Hleft eq_refl).
  vm_compute in H0, H1. injection H0 as <-. injection H1 as <-.
  repeat split.
Defined.

(** C3. The sizes tried are 2, 4, 6, ...  When at one of them the measured
    line height of the calibration string exceeds
    [min(width, height) * 0.04 * font_size], there is a first such size; the
    search returns it, with the line height measured at it, as soon as it is
    given more iterations than the index of that size, and the compositor
    goes on with that size and with that line height as the margin.  When no
    size of the sequence exceeds the bound, the search ends within no number
    of iterations, and neither does the compositor once the position is
    parsed. *)
Theorem autosize_first_exceeding (E : engine) font_file input o shadow_color :
  let thr := threshold (Pillow.size input) (font_size o) in
  let size_at (k : nat) := 2 + 2 * Z.of_nat k in
  ((exists k, exceeds E font_file thr (size_at k) = true) ->
   exists k,
     exceeds E font_file thr (size_at k) = true
     /\ (forall j, (j < k)%nat -> exceeds E font_file thr (size_at j) = false)
     /\ forall fuel, (k < fuel)%nat ->
          autosize E font_file thr fuel 2
          = Some (size_at k, line_height_at E font_file (size_at k))
          /\ add_watermark E fuel input o font_file shadow_color
             = match parse_position (position o) with
               | Raise e => Some (Raise e)
               | Ok (h_pos, v_pos) =>
                   Some (compose E input o font_file shadow_color h_pos v_pos
                           (size_at k) (line_height_at E font_file (size_at k)))
               end)
  /\ ((forall k, exceeds E font_file thr (size_at k) = false) ->
      forall fuel,
        autosize E font_file thr fuel 2 = None
        /\ add_watermark E fuel input o font_file shadow_color
           = match parse_position (position o) with
             | Raise e => Some (Raise e)
             | Ok _ => None
             end).
Proof.
  intros thr size_at. split.
  - intros [n Hn].
    destruct (first_hit (fun k => exceeds E font_file thr (size_at k)) n Hn)
      as (k & _ & Hk & Hmin).
    exists k. split; [exact Hk|]. split; [exact Hmin|]. intros fuel Hf.
    pose proof (autosize_hit E font_file thr k fuel 2 Hk Hmin Hf) as Ha.
    split; [exact Ha|]. unfold add_watermark. fold thr. rewrite Ha.
    destruct (parse_position (position o)) as [[h v]|e]; reflexivity.
  - intros Hnone fuel.
    pose proof (autosize_miss E font_file thr fuel 2 (fun j _ => Hnone j)) as Ha.
    split; [exact Ha|]. unfold add_watermark. fold thr. rewrite Ha.
    destruct (parse_position (position o)) as [[h v]|e]; reflexivity.
Qed.

(** On a 100 by 50 image with [font_size = 1.0] the bound is 2.0 and the
    search stops at size 4. *)
Lemma autosize_first_exceeding_witness :
  (exists k, exceeds demo_engine demo_font
               (threshold (100, 50) f1_0) (2 + 2 * Z.of_nat k) = true)
  /\ autosize demo_engine demo_font (threshold (100, 50) f1_0) 5 2 = Some (4, 4).
Proof.
  assert (H : exists k, exceeds demo_engine demo_font
                          (threshold (100, 50) f1_0) (2 + 2 * Z.of_nat k) = true)
    by (exists 3%nat; reflexivity).
  split; [exact H|].
  destruct (autosize_first_exceeding demo_engine demo_font demo_image
              (demo_options (lit "hi") f1_0 f0_75) default_shadow_color) as [Hit _].
  destruct (Hit H) as (k & Hk & Hmin & Hrun).
  destruct k as [|[|k]].
  - vm_compute in Hk. discriminate.
  - exact (proj1 (Hrun 5%nat ltac:(lia))).
  - specialize (Hmin 1%nat ltac:(lia)). vm_compute in Hmin. discriminate.
Defined.

(** Font sizes 1.0 and 2.0 on a 100 by 50 image: sizes 4 and 6. *)
Lemma autosize_monotone_witness :
  valid f1_0 = true /\ valid f2_0 = true /\ SFltb f1_0 f2_0 = true
  /\ autosize demo_engine demo_font (threshold (100, 50) f1_0) 9 2 = Some (4, 4)
  /\ autosize demo_engine demo_font (threshold (100, 50) f2_0) 9 2 = Some (6, 6)
  /\ 4 <= 6.
Proof.
  assert (V1 : valid f1_0 = true) by reflexivity.
  assert (V2 : valid f2_0 = true) by reflexivity.
  assert (L : SFltb f1_0 f2_0 = true) by reflexivity.
  assert (A1 : autosize demo_engine demo_font (threshold (100, 50) f1_0) 9 2
               = Some (4, 4)) by reflexivity.
  assert (A2 : autosize demo_engine demo_font (threshold (100, 50) f2_0) 9 2
               = Some (6, 6)) by reflexivity.
  repeat (split; [assumption|]).
  exact (autosize_monotone demo_engine demo_font (100, 50) f1_0 f2_0 9 9 4 4 6 6
           ltac:(cbn; lia) ltac:(cbn; lia) V1 V2 L A1 A2).
Defined.

Lemma demo_image_ok : image_ok demo_image.
Proof.
  intros x y _ _. cbn. unfold byte, clip8.
  destruct (x <? 0) eqn:X0, (255 <? x) eqn:X1, (y <? 0) eqn:Y0, (255 <? y) eqn:Y1;
    lia.
Qed.

(** The text "hi" at opacity 0.0 on the example image. *)
Lemma opacity_zero_identity_witness :
  opacity (demo_options (lit "hi") f1_0 f0_0) = S754_zero false
  /\ exists out,
       add_watermark demo_engine 9 demo_image (demo_options (lit "hi") f1_0 f0_0)
         demo_font default_shadow_color = Some (Ok out)
       /\ pixel_identical out demo_image.
Proof.
  split; [reflexivity|].
  destruct (add_watermark demo_engine 9 demo_image (demo_options (lit "hi") f1_0 f0_0)
              demo_font default_shadow_color) as [[out|e]|] eqn:H.
  - exists out. split; [reflexivity|].
    exact (opacity_zero_identity demo_engine 9 demo_image
             (demo_options (lit "hi") f1_0 f0_0) demo_font
             default_shadow_color out false eq_refl demo_image_ok H).
  - vm_compute in H. discriminate.
  - vm_compute in H. discriminate.
Defined.

(** The empty text with line spacing 0.2 and margin 4. *)
Lemma empty_text_height_witness :
  text (demo_options [] f1_0 f0_75) = []
  /\ snd (getsize demo_engine demo_font 4 []) = 0
  /\ snd (text_bbox demo_engine demo_font 4
            (spacing_of (line_spacing (demo_options [] f1_0 f0_75)) 4)
            (split_sep 10%N (text (demo_options [] f1_0 f0_75))))
     = NFloat f0_0.
Proof.
  assert (H0 : text (demo_options [] f1_0 f0_75) = []) by reflexivity.
  assert (H2 : snd (getsize demo_engine demo_font 4 []) = 0) by reflexivity.
  split; [exact H0|]. split; [exact H2|].
  exact (proj1 (empty_text_height demo_engine demo_image (demo_options [] f1_0 f0_75)
                  demo_font default_shadow_color RIGHT BOTTOM 4 4 H0 H2)).
Defined.

(** The empty text with an infinite line spacing: [wm_height] is NaN, which
    is neither below zero nor zero, and the compositor returns an image. *)
Lemma empty_text_height_nan :
  let o := Options [] (lit "left top") f1_0 f0_75 (S754_infinity false) f0_04 f0_05 in
  let spacing := spacing_of (line_spacing o) 4 in
  let wm_height :=
    snd (text_bbox demo_engine demo_font 4 spacing (split_sep 10%N (text o))) in
  text o = []
  /\ snd (getsize demo_engine demo_font 4 []) = 0
  /\ wm_height = NFloat S754_nan
  /\ num_lt wm_height (NInt 0) = false
  /\ num_le wm_height (NInt 0) = false
  /\ exists res,
       add_watermark demo_engine 100 demo_image o demo_font default_shadow_color
       = Some (compose demo_engine demo_image o demo_font default_shadow_color
                 LEFT TOP 4 4)
       /\ compose demo_engine demo_image o demo_font default_shadow_color LEFT TOP 4 4
          = Ok res.
Proof.
  cbv zeta. repeat (split; [reflexivity|]).
  eexists. split; [reflexivity|]. vm_compute. reflexivity.
Qed.

(** The shadow of the example image, taken as the text layer, with margin
    100. *)
Lemma shadow_layer_spec_witness :
  exists shadow,
    shadow_layer demo_engine demo_image (demo_options (lit "hi") f1_0 f0_75)
      default_shadow_color 100 = Ok shadow
    /\ size shadow = (100, 50)
    /\ getpixel shadow 10 10 = (0, 0, 0, 255).
Proof.
  destruct (shadow_layer demo_engine demo_image (demo_options (lit "hi") f1_0 f0_75)
              default_shadow_color 100) as [shadow|e] eqn:H.
  - exists shadow. split; [reflexivity|].
    pose proof (shadow_layer_spec demo_engine demo_image _ default_shadow_color 100
                  shadow H) as S.
    cbv beta iota delta [default_shadow_color] in S.
    destruct S as (r & g & b & dx & moved & _ & _ & _ & _ & _ & _ & _ & Hs).
    split; [exact Hs|]. vm_compute in H. injection H as <-. reflexivity.
  - vm_compute in H. discriminate.
Defined.

Lemma shadow_base_size im c base : shadow_base im c = Ok base -> size base = size im.
Proof.
  destruct c as [[[cr cg] cb] ca]. unfold shadow_base. intros H.
  repeat (apply rbind_ok in H; destruct H as (? & _ & H)).
  injection H as <-. reflexivity.
Qed.

Lemma shadow_base_default im : exists base, shadow_base im default_shadow_color = Ok base.
Proof. eexists. vm_compute. reflexivity. Qed.

(** With margin 20 and shadow offset 0.04 the product 0.8 lies strictly
    between 0 and 1 and [int] makes it 0: whatever the rasterizer and the
    text layer, the shadow is the blur of the layer moved by (0, 0), whose
    pixels are those of the layer that was not moved; it is not moved by
    (0.8, 0.8). *)
Lemma shadow_offset_truncated :
  let o := demo_options (lit "hi") f1_0 f0_75 in
  let off := num_mul (NInt 20) (NFloat (shadow_offset o)) in
  num_gt off (NInt 0) = true
  /\ num_lt off (NInt 1) = true
  /\ py_int off = Ok 0
  /\ forall (E : engine) (wm : image),
       exists base,
         shadow_base wm default_shadow_color = Ok base
         /\ shadow_layer E wm o default_shadow_color 20
            = (d <- gaussian_blur E (num_mul (NFloat (shadow_blur_radius o)) (NInt 20))
                      (size wm) (getpixel (Pillow.offset base 0 0)) ;;
               Ok (Image (size wm) d))%result
         /\ forall x y, 0 <= x < width wm -> 0 <= y < height wm ->
              getpixel (Pillow.offset base 0 0) x y = getpixel base x y.
Proof.
  cbv zeta. split; [reflexivity|]. split; [reflexivity|]. split; [reflexivity|].
  intros E wm. destruct (shadow_base_default wm) as [base Hb].
  pose proof (shadow_base_size _ _ _ Hb) as Hs.
  exists base. split; [exact Hb|]. split.
  - unfold shadow_layer, make_shadow. rewrite Hb. cbn [rbind fst snd].
    change (py_int (num_mul (NInt 20)
                      (NFloat (shadow_offset (demo_options (lit "hi") f1_0 f0_75)))))
      with (Ok 0 : result Z).
    cbn [rbind]. change (c_int 0) with (Ok 0 : result Z). cbn [rbind].
    change (size (Pillow.offset base 0 0)) with (size base). rewrite Hs. reflexivity.
  - intros x y Hx Hy. unfold Pillow.offset, width, height in *. cbn [getpixel].
    rewrite Hs, !Z.sub_0_r, !Z.mod_small by lia. reflexivity.
Qed.

(** The position "left" names no vertical token and is accepted, as is
    "left right left", which names the horizontal axis three times. *)
Lemma parse_position_accepts_omitted_axis :
  axis_count is_v_token (split_ws (lit "left")) = 0%nat
  /\ is_raise (parse_position (lit "left")) = false
  /\ parse_position (lit "left") = Ok (LEFT, BOTTOM)
  /\ axis_count is_h_token (split_ws (lit "left right left")) = 3%nat
  /\ parse_position (lit "left right left") = Ok (LEFT, BOTTOM).
Proof. vm_compute. repeat split. Qed.

(** * The driver *)

(** C7. In single mode, when the input path is the output path the driver
    raises, leaves the state as it was and emits only prints and reads
    before that; with a text given the error is the one of line 201.  In
    batch mode, when the sidecar of a file names that file as the output,
    the driver raises at that file, the state being the one the files before
    it left and the events of that file being prints and reads only.  And in
    whatever way the driver runs, every job it hands to the job runner has
    an output other than its input. *)
Theorem same_file_refused {W : Type} (sys : system W) (E : engine) (fuel : nat) :
  (forall a w p,
      cli_batch_files a = [] ->
      cli_input_file a = Some p -> cli_output_file a = Some p ->
      exists e t,
        main sys E fuel a w = (t, w, Raised e)
        /\ forallb harmless t = true
        /\ (cli_text a <> [] -> e = same_file))
  /\ (forall a (pre : list str) (f : str) (rest : list str) w t1 w1 cnt d,
      cli_batch_files a = pre ++ f :: rest -> cli_batch_files a <> [lit "."] ->
      cli_text a = [] -> cli_input_file a = None -> cli_output_file a = None ->
      batch_loop sys E fuel pre w = (t1, w1, Done tt) ->
      isfile W sys w1 (f ++ lit ".json") = true ->
      read_text W sys w1 (f ++ lit ".json") = Ok cnt ->
      json_loads W sys cnt = Ok (VDict d) ->
      dict_get (lit "output_file") d = Some (VStr f) ->
      exists e t2,
        main sys E fuel a w
        = (EPrint ("Enter batch mode"%string, []) :: t1 ++ t2, w1, Raised e)
        /\ forallb harmless t2 = true)
  /\ (forall a w, forallb job_ok (trace_of (main sys E fuel a w)) = true).
Proof.
  split; [|split].
  - intros a w p Hb Hi Ho. unfold main. rewrite Hb, Hi, Ho.
    destruct (cli_text a) as [|t ts].
    + exists single_missing, []. repeat split. congruence.
    + rewrite (proj2 (str_eqb_eq p p) eq_refl).
      eexists _, _. repeat split.
  - intros. eapply batch_same_file; eassumption.
  - intros a w. apply main_emits_ok.
Qed.

(** A single run with "a.jpg" as input and as output. *)
Lemma same_file_refused_witness :
  cli_batch_files (demo_args (lit "a.jpg") (lit "a.jpg")) = []
  /\ cli_input_file (demo_args (lit "a.jpg") (lit "a.jpg")) = Some (lit "a.jpg")
  /\ cli_output_file (demo_args (lit "a.jpg") (lit "a.jpg")) = Some (lit "a.jpg")
  /\ exists t,
       main demo_system demo_engine 9 (demo_args (lit "a.jpg") (lit "a.jpg")) []
       = (t, [], Raised same_file)
       /\ forallb harmless t = true.
Proof.
  repeat (split; [reflexivity|]).
  destruct (proj1 (same_file_refused demo_system demo_engine 9)
              (demo_args (lit "a.jpg") (lit "a.jpg")) [] (lit "a.jpg")
              eq_refl eq_refl eq_refl) as (e & t & Hm & Ht & He).
  exists t. rewrite (He ltac:(discriminate)) in Hm. split; [exact Hm|exact Ht].
Defined.



(** C10. The names searched for are the segments of the family between
    commas (joined by commas they give the family back, and none holds a
    comma), each stripped, the empty ones left out, in order.  Stripping
    takes whitespace, and nothing else, from both ends until none is left
    there.  So when every segment is whitespace only, or a name that
    neither starts nor ends with whitespace with whitespace around it, the
    names searched for are exactly those names, in order; no name is empty
    and none has blanks around it.  Blanks added around segments change
    nothing: "A, B" and "A,B" both give the names "A" and "B"; families
    with the same names resolve alike, the same events and the same font,
    or the same events and the not-found error, which quotes the family as
    given.  A family of commas and blanks only has no name to search for,
    and on macOS the locator raises the not-found error with no event at
    all: no directory is listed. *)
Theorem font_family_parsing {W : Type} (sys : system W) :
  (forall family,
      join [comma] (split_sep comma family) = family
      /\ Forall (fun seg => ~ In comma seg) (split_sep comma family)
      /\ search_names family
         = filter nonempty (List.map strip (split_sep comma family)))
  /\ (forall s, exists l r,
        blank l /\ blank r /\ s = l ++ strip s ++ r
        /\ (strip s = [] \/ trimmed (strip s) = true))
  /\ (forall names segs,
      segs <> [] -> Forall2 segment_of names segs ->
      search_names (join [comma] segs) = names_of names)
  /\ (forall family n, In n (search_names family) -> n <> [] /\ strip n = n)
  /\ (forall segs1 segs2,
      segs1 <> [] -> Forall (fun s => ~ In comma s) segs1 ->
      Forall2 (fun a b => exists l r, blank l /\ blank r /\ b = l ++ a ++ r) segs1 segs2 ->
      search_names (join [comma] segs2) = search_names (join [comma] segs1))
  /\ search_names (lit "A, B") = [lit "A"; lit "B"]
  /\ search_names (lit "A,B") = [lit "A"; lit "B"]
  /\ (forall f1 f2 w,
      search_names f1 = search_names f2 ->
      get_font sys (VStr f1) w = get_font sys (VStr f2) w
      \/ exists t w',
           get_font sys (VStr f1) w = (t, w', Raised (font_not_found f1))
           /\ get_font sys (VStr f2) w = (t, w', Raised (font_not_found f2)))
  /\ (forall family w,
      platform W sys = lit "darwin" ->
      Forall (fun c => c = comma \/ isspace c = true) family ->
      search_names family = []
      /\ get_font sys (VStr family) w = ([], w, Raised (font_not_found family))).
Proof.
  split; [|split; [|split; [|split; [|split; [|split; [|split; [|split]]]]]]].
  - intros family. split; [apply split_sep_concat|].
    split; [apply split_sep_segments|apply search_names_eq].
  - apply strip_split.
  - apply search_names_segments.
  - apply search_names_stripped.
  - apply search_names_padding.
  - reflexivity.
  - reflexivity.
  - intros f1 f2 w. apply get_font_by_names.
  - intros family w Hp Hb. pose proof (search_names_blank family Hb) as Hn.
    split; [exact Hn|]. now apply get_font_no_names.
Qed.

(** The family " A, ,B " has the names "A" and "B"; the family " , ," has
    none. *)
Lemma font_family_parsing_witness :
  search_names (lit " A, ,B ") = [lit "A"; lit "B"]
  /\ platform demo_world demo_system = lit "darwin"
  /\ Forall (fun c => c = comma \/ isspace c = true) (lit " , ,")
  /\ get_font demo_system (VStr (lit " , ,")) []
     = ([], [], Raised (font_not_found (lit " , ,"))).
Proof.
  assert (Hp : platform demo_world demo_system = lit "darwin") by reflexivity.
  assert (Hb : Forall (fun c => c = comma \/ isspace c = true) (lit " , ,")).
  { repeat constructor; (now left) || (now right). }
  assert (Hs : Forall2 segment_of [Some (lit "A"); None; Some (lit "B")]
                 [lit " A"; lit " "; lit "B "]).
  { constructor; [|constructor; [|constructor; [|constructor]]].
    - apply (segment_name (lit " ") (lit "A") []);
        [repeat constructor|constructor|reflexivity|].
      cbv; intros [H|[]]; discriminate.
    - apply segment_blank. repeat constructor.
    - apply (segment_name [] (lit "B") (lit " "));
        [constructor|repeat constructor|reflexivity|].
      cbv; intros [H|[]]; discriminate. }
  destruct (font_family_parsing demo_system) as (_ & _ & Hn & _ & _ & _ & _ & _ & H).
  assert (Hne : [lit " A"; lit " "; lit "B "] <> []) by discriminate.
  split; [exact (Hn _ _ Hne Hs)|].
  split; [exact Hp|]. split; [exact Hb|].
  exact (proj2 (H (lit " , ,") [] Hp Hb)).
Defined.

(** * More on the compositor: sizes, the text box, the calls, the mask *)

Lemma compose_size E input o font_file shadow_color h_pos v_pos sz margin out :
  compose E input o font_file shadow_color h_pos v_pos sz margin = Ok out ->
  size out = size input.
Proof.
  unfold compose. intros H.
  destruct (text_bbox E font_file sz _ _) as [wm_width wm_height].
  apply rbind_ok in H. destruct H as (wm & _ & H).
  apply rbind_ok in H. destruct H as (shadow & _ & H).
  injection H as <-. reflexivity.
Qed.

(** X1. An image the compositor returns has the size of the input image. *)
Theorem add_watermark_keeps_size E fuel input o font_file shadow_color out :
  add_watermark E fuel input o font_file shadow_color = Some (Ok out) ->
  size out = size input.
Proof.
  unfold add_watermark. intros H.
  destruct (parse_position (position o)) as [[h v]|e]; [|discriminate].
  destruct (autosize E font_file _ fuel 2) as [[s m]|]; [|discriminate].
  injection H as H. exact (compose_size _ _ _ _ _ _ _ _ _ _ H).
Qed.

(** The text "hi" on the example image of 100 by 50 pixels. *)
Lemma add_watermark_keeps_size_witness :
  exists out,
    add_watermark demo_engine 9 demo_image (demo_options (lit "hi") f1_0 f0_75)
      demo_font default_shadow_color = Some (Ok out)
    /\ size out = (100, 50).
Proof.
  destruct (add_watermark demo_engine 9 demo_image (demo_options (lit "hi") f1_0 f0_75)
              demo_font default_shadow_color) as [[out|e]|] eqn:H.
  - exists out. split; [reflexivity|].
    exact (add_watermark_keeps_size demo_engine 9 demo_image
             (demo_options (lit "hi") f1_0 f0_75) demo_font default_shadow_color out H).
  - vm_compute in H. discriminate.
  - vm_compute in H. discriminate.
Defined.

Lemma bbox_loop_width E font_file size spacing lines : forall w0 h0,
  let w := fst (bbox_loop E font_file size spacing lines w0 h0) in
  w0 <= w
  /\ (forall line, In line lines -> fst (getsize E font_file size line) <= w)
  /\ (w = w0 \/ exists line, In line lines /\ w = fst (getsize E font_file size line)).
Proof.
  induction lines as [|l ls IH]; intros w0 h0; cbn [bbox_loop].
  - cbn. split; [lia|]. split; [intros line []|now left].
  - destruct (getsize E font_file size l) as [wl hl] eqn:Hl.
    specialize (IH (Z.max w0 wl) (num_add (num_add h0 (NInt hl)) spacing)).
    cbv zeta in IH |- *.
    set (w := fst (bbox_loop E font_file size spacing ls (Z.max w0 wl)
                     (num_add (num_add h0 (NInt hl)) spacing))) in *.
    destruct IH as (H1 & H2 & H3). split; [lia|]. split.
    + intros line [<-|Hin]; [rewrite Hl; cbn; lia|now apply H2].
    + destruct H3 as [H3|(line & Hin & H3)].
      * destruct (Z.max_spec w0 wl) as [[_ Hm]|[_ Hm]]; rewrite Hm in H3.
        -- right. exists l. split; [now left|]. now rewrite Hl.
        -- now left.
      * right. exists line. split; [now right|exact H3].
Qed.

(** X2. The width [wm_width] of the text box is not negative, is at least
    the measured width of every line, and is 0 or the measured width of one
    of the lines. *)
Theorem text_bbox_width E font_file size spacing lines :
  let w := fst (text_bbox E font_file size spacing lines) in
  0 <= w
  /\ (forall line, In line lines -> fst (getsize E font_file size line) <= w)
  /\ (w = 0 \/ exists line, In line lines /\ w = fst (getsize E font_file size line)).
Proof.
  pose proof (bbox_loop_width E font_file size spacing lines 0 (NInt 0)) as H.
  unfold text_bbox. cbv zeta in H |- *.
  destruct (bbox_loop E font_file size spacing lines 0 (NInt 0)) as [w h].
  exact H.
Qed.

Lemma plot_loop_calls E font_file size im_w h_pos margin spacing lines : forall y,
  let calls := plot_loop E font_file size im_w h_pos margin spacing lines y in
  List.map call_text calls = lines
  /\ Forall (fun c => call_align c = if h_pos =? 1 then AlignLeft else AlignRight) calls.
Proof.
  induction lines as [|l ls IH]; intros y; cbn [plot_loop].
  - split; [reflexivity|constructor].
  - destruct (getsize E font_file size l) as [w h].
    destruct (IH (num_add y (num_add (NInt h) spacing))) as [H1 H2].
    cbv zeta. cbn [List.map call_text]. split; [now rewrite H1|].
    constructor; [reflexivity|exact H2].
Qed.

(** X3. [plot_lines] makes one [draw.text] call per line, with the lines as
    their texts in order, and every call has the same alignment: left when
    [h_pos] is 1, right otherwise. *)
Theorem plot_lines_calls E font_file size sz h_pos v_pos margin spacing wm_height lines :
  let calls := plot_lines E font_file size sz h_pos v_pos margin spacing wm_height lines in
  List.map call_text calls = lines
  /\ Forall (fun c => call_align c = if h_pos =? 1 then AlignLeft else AlignRight) calls.
Proof. unfold plot_lines. apply plot_loop_calls. Qed.

Lemma blend8_full in1 in2 : 0 <= in2 <= 255 -> blend8 255 in1 in2 = in2.
Proof.
  intros H. unfold blend8. replace (in1 * (255 - 255) + in2 * 255) with (in2 * 255) by lia.
  now apply div255_byte.
Qed.

(** X4. The image of lines 98-104 has the size of the input image; its pixel
    at a position is the input pixel with the layer of shadow under text
    pasted through the alpha that [enhance(opacity)] leaves there.  Where
    that alpha is 0 the input pixel is kept; where it is 255 the pixel is
    the pixel of the layer, with alpha 255. *)
Theorem overlay_mask_extremes E input wm shadow opacity x y :
  let layer := alpha_composite E shadow wm in
  let mask := brightness_enhance E (alpha_band layer) opacity x y in
  let out := overlay E input wm shadow opacity in
  size out = size input
  /\ getpixel out x y
     = paste_pixel mask (getpixel input x y) (with_alpha (getpixel layer x y) mask)
  /\ (pixel_ok (getpixel input x y) -> mask = 0 ->
      getpixel out x y = getpixel input x y)
  /\ (pixel_ok (getpixel layer x y) -> mask = 255 ->
      getpixel out x y = with_alpha (getpixel layer x y) 255).
Proof.
  intros layer mask out.
  assert (Hout : getpixel out x y
                 = paste_pixel mask (getpixel input x y)
                     (with_alpha (getpixel layer x y) mask)).
  { unfold out, overlay, composite, putalpha. cbn [getpixel].
    fold layer. fold mask.
    destruct (getpixel layer x y) as [[[r g] b] a]. reflexivity. }
  split; [reflexivity|]. split; [exact Hout|]. split.
  - intros Hok Hm. rewrite Hout, Hm. now apply paste_pixel_zero.
  - intros Hok Hm. rewrite Hout, Hm.
    destruct (getpixel layer x y) as [[[r g] b] a].
    destruct (getpixel input x y) as [[[r1 g1] b1] a1].
    destruct Hok as (Hr & Hg & Hb & _). unfold byte in *.
    cbn [with_alpha paste_pixel]. rewrite !blend8_full by lia. reflexivity.
Qed.

(** * More on the size search: the margin, and font sizes that are no numbers *)

Lemma nonneg_float_cases a :
  nonneg_float a = true ->
  valid a = true
  /\ ((exists s, a = S754_zero s) \/ a = S754_infinity false
      \/ exists m e, a = S754_finite false m e).
Proof.
  unfold nonneg_float. intros H. apply andb_prop in H. destruct H as [V H].
  split; [exact V|].
  destruct a as [s|[|]| |[|] m e]; try discriminate; eauto.
Qed.

(** The product of two floats that are not below zero is not below zero,
    unless it is NaN (zero times infinity). *)
Lemma fmul_above_zero c a :
  rounded_form false c -> nonneg_float a = true ->
  fmul c a = S754_nan \/ above_zero (fmul c a).
Proof.
  intros Hc Ha. destruct (nonneg_float_cases a Ha) as [V [[s ->]|[->|(m & e & ->)]]].
  - destruct Hc; cbn; auto.
  - destruct Hc; cbn; auto.
  - destruct Hc as [| |mc ec Cc Bc]; [cbn; auto|cbn; auto|].
    right. apply valid_canon in V. destruct V as [Ca _].
    pose proof (fmul_finite_form false mc ec false m e Cc Ca) as F.
    cbn [xorb] in F.
    remember (fmul (S754_finite false mc ec) (S754_finite false m e)) as r.
    destruct F; cbn; auto.
Qed.

Lemma below_int_positive T z :
  above_zero T -> compare_float_Z T z = Some Lt -> 0 < z.
Proof.
  destruct T as [s|s| |s m e]; cbn; intros Hs H; try contradiction.
  - apply (proj1 (some_lt_iff 0 z)) in H. exact H.
  - subst s. discriminate.
  - subst s. cbn [cond_Zopp] in H. destruct (0 <=? e) eqn:He.
    + apply (proj1 (some_lt_iff _ _)) in H. apply Z.leb_le in He.
      assert (0 < 2 ^ e) by (apply Z.pow_pos_nonneg; lia). nia.
    + apply (proj1 (some_lt_iff _ _)) in H. apply Z.leb_gt in He.
      assert (0 < 2 ^ (- e)) by (apply Z.pow_pos_nonneg; lia). nia.
Qed.

(** X5. On an image of non-negative width and height and with a
    [font_size] that is not below zero, a size search that ends gives a
    margin of at least 1, the line height measured at the size it returns,
    and that size is even and at least 2. *)
Theorem margin_positive E font_file sz fs fuel s m :
  0 <= fst sz -> 0 <= snd sz -> nonneg_float fs = true ->
  autosize E font_file (threshold sz fs) fuel 2 = Some (s, m) ->
  1 <= m /\ m = line_height_at E font_file s /\ 2 <= s /\ Z.even s = true.
Proof.
  intros Hw Hh Hfs Ha.
  destruct (autosize_some E font_file _ fuel 2 s m Ha) as (k & Hs & Hm & Hx & _).
  unfold exceeds in Hx. rewrite <- Hm, threshold_float in Hx.
  apply num_gt_int_float in Hx.
  assert (Hb : rounded_form false (fmul (float_of_int (Z.min (fst sz) (snd sz))) f0_04))
    by (apply base_form; lia).
  destruct (fmul_above_zero _ fs Hb Hfs) as [Hn|Hp].
  - rewrite Hn in Hx. discriminate.
  - pose proof (below_int_positive _ _ Hp Hx). split; [lia|]. split; [exact Hm|].
    split; [lia|]. subst s. rewrite Z.even_add_mul_2. reflexivity.
Qed.

(** [font_size = 1.0] on a 100 by 50 image: size 4, margin 4. *)
Lemma margin_positive_witness :
  nonneg_float f1_0 = true
  /\ autosize demo_engine demo_font (threshold (100, 50) f1_0) 9 2 = Some (4, 4)
  /\ 1 <= 4.
Proof.
  assert (N : nonneg_float f1_0 = true) by reflexivity.
  assert (A : autosize demo_engine demo_font (threshold (100, 50) f1_0) 9 2 = Some (4, 4))
    by reflexivity.
  split; [exact N|]. split; [exact A|].
  exact (proj1 (margin_positive demo_engine demo_font (100, 50) f1_0 9 4 4
                  ltac:(cbn; lia) ltac:(cbn; lia) N A)).
Defined.

(** ** A font size that is no number *)

Lemma never_exceeds E font_file thr :
  (forall z, num_gt (NInt z) thr = false) ->
  forall fuel size, autosize E font_file thr fuel size = None.
Proof.
  intros H fuel size. apply autosize_miss. intros j _. unfold exceeds. apply H.
Qed.

Lemma threshold_unbounded sz fs :
  fs = S754_nan \/ (fs = S754_infinity false /\ 0 <= fst sz /\ 0 <= snd sz) ->
  forall z, num_gt (NInt z) (threshold sz fs) = false.
Proof.
  intros H z. rewrite threshold_float.
  destruct H as [->|(-> & Hw & Hh)].
  - destruct (fmul (float_of_int _) f0_04); reflexivity.
  - assert (Hb : rounded_form false (fmul (float_of_int (Z.min (fst sz) (snd sz))) f0_04))
      by (apply base_form; lia).
    destruct Hb; reflexivity.
Qed.

(** X6. When [font_size] is NaN, or is plus infinity on an image of
    non-negative width and height, no line height exceeds the bound of line
    56: the size search ends within no number of iterations, and the
    compositor does not return once the position is parsed. *)
Theorem unbounded_font_size_hangs E fuel input o font_file shadow_color :
  font_size o = S754_nan
  \/ (font_size o = S754_infinity false
      /\ 0 <= fst (size input) /\ 0 <= snd (size input)) ->
  autosize E font_file (threshold (size input) (font_size o)) fuel 2 = None
  /\ add_watermark E fuel input o font_file shadow_color
     = match parse_position (position o) with
       | Raise e => Some (Raise e)
       | Ok _ => None
       end.
Proof.
  intros H.
  pose proof (never_exceeds E font_file _ (threshold_unbounded _ _ H) fuel 2) as Ha.
  split; [exact Ha|]. unfold add_watermark. rewrite Ha.
  destruct (parse_position (position o)) as [[h v]|e]; reflexivity.
Qed.

(** [font_size = nan] with a thousand iterations allowed. *)
Lemma unbounded_font_size_hangs_witness :
  font_size (demo_options (lit "hi") S754_nan f0_75) = S754_nan
  /\ add_watermark demo_engine 1000 demo_image (demo_options (lit "hi") S754_nan f0_75)
       demo_font default_shadow_color = None.
Proof.
  split; [reflexivity|].
  exact (proj2 (unbounded_font_size_hangs demo_engine 1000 demo_image
                  (demo_options (lit "hi") S754_nan f0_75) demo_font
                  default_shadow_color (or_introl eq_refl))).
Defined.

(** * The base of the shadow for colours between 0.0 and 1.0 *)

Lemma fmul_comm a b : fmul a b = fmul b a.
Proof.
  destruct a as [sa|sa| |sa ma ea], b as [sb|sb| |sb mb eb]; cbn;
    try reflexivity; try (now rewrite xorb_comm).
  now rewrite xorb_comm, Pos.mul_comm, Z.add_comm.
Qed.

Lemma trunc_scaled m e :
  - K <= e ->
  (if 0 <=? e then Z.pos m * 2 ^ e else Z.pos m / 2 ^ (- e))
  = Z.pos m * 2 ^ (e + K) / 2 ^ K.
Proof.
  intros He.
  assert (HK : 0 < 2 ^ K) by (apply Z.pow_pos_nonneg; unfold K; lia).
  assert (0 < 2 ^ (e + K)) by (apply Z.pow_pos_nonneg; lia).
  destruct (0 <=? e) eqn:E0.
  - apply Z.leb_le in E0. rewrite Z.pow_add_r by (unfold K; lia).
    rewrite Z.mul_assoc, Z.div_mul by lia. reflexivity.
  - apply Z.leb_gt in E0.
    replace (2 ^ K) with (2 ^ (e + K) * 2 ^ (- e)).
    + assert (0 < 2 ^ (- e)) by (apply Z.pow_pos_nonneg; lia).
      rewrite (Z.mul_comm (Z.pos m)), Z.div_mul_cancel_l by lia. reflexivity.
    + rewrite <- Z.pow_add_r by lia. f_equal. lia.
Qed.

(** [int(f)] from the scaled value of [f]. *)
Lemma py_int_sval r x :
  above_zero r -> sval r = Some (Fin x) ->
  (forall s m e, r = S754_finite s m e -> - K <= e) ->
  py_int (NFloat r) = Ok (x / 2 ^ K) /\ 0 <= x.
Proof.
  destruct r as [s|s| |s m e]; cbn [above_zero]; intros Hs Hx He;
    try contradiction.
  - cbn in Hx. injection Hx as <-. split; [reflexivity|lia].
  - cbn in Hx. destruct s; discriminate.
  - subst s. specialize (He false m e eq_refl). rewrite sval_finite in Hx.
    change (cond_Zopp false (Z.pos m)) with (Z.pos m) in Hx.
    assert (Ex : x = Z.pos m * 2 ^ (e + K)) by congruence.
    assert (0 < 2 ^ (e + K)) by (apply Z.pow_pos_nonneg; lia).
    assert (Hnn : 0 <= Z.pos m * 2 ^ (e + K)) by (apply Z.mul_nonneg_nonneg; lia).
    rewrite Ex. split; [|exact Hnn].
    change (py_int (NFloat (S754_finite false m e)))
      with (Ok (if 0 <=? e then Z.pos m * 2 ^ e else Z.pos m / 2 ^ (- e))).
    now rewrite trunc_scaled.
Qed.

(** A byte times 1.0 is the byte. *)
Lemma byte_times_one n :
  0 <= n <= 255 -> sval (fmul (float_of_int n) f1_0) = Some (Fin (n * 2 ^ K)).
Proof.
  intros H.
  pose (test := fun k : nat =>
                  match sval (fmul (float_of_int (Z.of_nat k)) f1_0) with
                  | Some (Fin x) => x =? Z.of_nat k * 2 ^ K
                  | _ => false
                  end).
  assert (A : forallb test (seq 0 256) = true) by (vm_compute; reflexivity).
  rewrite forallb_forall in A. specialize (A (Z.to_nat n)).
  rewrite in_seq in A. specialize (A ltac:(lia)). unfold test in A.
  rewrite Z2Nat.id in A by lia.
  destruct (sval (fmul (float_of_int n) f1_0)) as [[|x|]|]; try discriminate.
  apply Z.eqb_eq in A. now subst.
Qed.

Lemma finite_compare_eq m e m' e' :
  SFcompare (S754_finite false m e) (S754_finite false m' e') = Some Eq ->
  S754_finite false m e = S754_finite false m' e'.
Proof.
  unfold SFcompare. intros C. destruct (e ?= e') eqn:Ce; try discriminate.
  apply Z.compare_eq in Ce. subst e'.
  change (Pos.compare_cont Eq m m') with (Pos.compare m m') in C.
  apply (proj1 (some_eq _ _)) in C. apply Pos.compare_eq in C. now subst m'.
Qed.

Lemma unit_float_cases a :
  unit_float a = true ->
  nonneg_float a = true /\ (a = f1_0 \/ SFltb a f1_0 = true).
Proof.
  unfold unit_float. intros H. apply andb_prop in H. destruct H as [N L].
  split; [exact N|]. unfold SFleb in L. unfold SFltb.
  destruct (SFcompare a f1_0) as [[| |]|] eqn:C; try discriminate; [|now right].
  left. destruct a as [s|[|]| |[|] m e]; try discriminate.
  exact (finite_compare_eq m e _ _ C).
Qed.

(** [int(n * a)] for a byte [n] and [a] between 0.0 and 1.0. *)
Lemma unit_scale n a :
  0 <= n <= 255 -> unit_float a = true ->
  exists v, py_int (num_mul (NInt n) (NFloat a)) = Ok v /\ 0 <= v <= n.
Proof.
  intros Hn Ha. destruct (unit_float_cases a Ha) as [Na H1].
  assert (HK : 0 < 2 ^ K) by (apply Z.pow_pos_nonneg; unfold K; lia).
  change (num_mul (NInt n) (NFloat a)) with (NFloat (fmul (float_of_int n) a)).
  pose proof (byte_times_one n Hn) as H255.
  assert (Hc : rounded_form false (float_of_int n)) by (apply float_of_nat_form; lia).
  destruct (nonneg_float_cases a Na) as [Va _].
  assert (Hle : forall xa, sval (fmul (float_of_int n) a) = Some xa ->
                           ext_le xa (Fin (n * 2 ^ K))).
  { intros xa Hxa. destruct H1 as [->|Hlt].
    - rewrite H255 in Hxa. assert (Ex : xa = Fin (n * 2 ^ K)) by congruence.
      rewrite Ex. cbn [ext_le]. apply Z.le_refl.
    - exact (fmul_mono _ a f1_0 xa _ Hc Va eq_refl Hlt Hxa H255). }
  destruct (fmul_above_zero _ a Hc Na) as [Hnan|Hpos].
  - (* zero times infinity: [a] is no infinity, [float(n)] neither *)
    exfalso. destruct (nonneg_float_cases a Na) as [_ [[s ->]|[->|(m & e & ->)]]].
    + remember (float_of_int n) as c. destruct Hc; cbn in Hnan; discriminate.
    + destruct H1 as [H1|H1]; discriminate.
    + remember (float_of_int n) as c. destruct Hc as [| |mc ec Cc Bc].
      * discriminate.
      * cbn in H255. discriminate.
      * apply valid_canon in Va. destruct Va as [Ca _].
        pose proof (fmul_finite_form false mc ec false m e Cc Ca) as F.
        rewrite Hnan in F. inversion F.
  - destruct (sval (fmul (float_of_int n) a)) as [xa|] eqn:Hs.
    + specialize (Hle xa eq_refl). destruct xa as [|x|]; cbn [ext_le] in Hle;
        try contradiction.
      * destruct (fmul (float_of_int n) a) as [s|[|]| |[|] m e];
          cbn in Hs, Hpos; try discriminate; try contradiction.
      * destruct (py_int_sval _ x Hpos Hs) as [Hi Hx].
        { intros s m e Hr. exact (fmul_exponent _ a s m e Hc Va Hr). }
        exists (x / 2 ^ K). split; [exact Hi|]. split.
        -- apply Z.div_pos; lia.
        -- apply Z.div_le_upper_bound; lia.
    + destruct (fmul (float_of_int n) a); cbn in Hs, Hpos; try discriminate.
      contradiction.
Qed.

Lemma color_channel_byte v :
  unit_float v = true -> exists c, color_channel v = Ok c /\ 0 <= c <= 255.
Proof.
  intros Hv. unfold color_channel.
  change (num_mul (NFloat v) (NInt 255)) with (NFloat (fmul v (float_of_int 255))).
  rewrite fmul_comm.
  exact (unit_scale 255 v ltac:(lia) Hv).
Qed.

Lemma build_lut_total f : forall n i,
  (forall j, (j < n)%nat -> exists v, f (i + Z.of_nat j) = Ok v) ->
  exists lut, build_lut f n i = Ok lut.
Proof.
  induction n as [|n IH]; intros i H; cbn [build_lut]; [eauto|].
  destruct (H 0%nat ltac:(lia)) as [v Hv]. rewrite Z.add_0_r in Hv. rewrite Hv.
  destruct (IH (i + 1)) as [rest Hr].
  { intros j Hj. destruct (H (S j) ltac:(lia)) as [x Hx]. exists x.
    rewrite <- Hx. f_equal. lia. }
  cbn. rewrite Hr. cbn. eauto.
Qed.

Lemma c_int_byte z : 0 <= z <= 255 -> c_int z = Ok z.
Proof.
  intros H. unfold c_int.
  assert ((- 2 ^ 31 <=? z) && (z <? 2 ^ 31) = true) as ->; [|reflexivity].
  apply andb_true_intro. split; [apply Z.leb_le|apply Z.ltb_lt]; lia.
Qed.

Lemma c_long_small z : - 2 ^ 63 <= z < 2 ^ 63 -> c_long z = Ok z.
Proof.
  intros H. unfold c_long.
  assert ((- 2 ^ 63 <=? z) && (z <? 2 ^ 63) = true) as ->; [|reflexivity].
  apply andb_true_intro. split; [apply Z.leb_le|apply Z.ltb_lt]; lia.
Qed.

Lemma build_lut_longs f : forall n i lut,
  build_lut f n i = Ok lut ->
  (forall j v, (j < n)%nat -> f (i + Z.of_nat j) = Ok v -> - 2 ^ 63 <= v < 2 ^ 63) ->
  c_longs lut = Ok lut.
Proof.
  induction n as [|n IH]; intros i lut H B; cbn [build_lut] in H.
  - injection H as <-. reflexivity.
  - apply rbind_ok in H. destruct H as (v & Hv & H).
    apply rbind_ok in H. destruct H as (rest & Hr & H). injection H as <-.
    cbn [c_longs]. rewrite c_long_small.
    2:{ apply (B 0%nat v); [lia|]. rewrite Z.add_0_r. exact Hv. }
    cbn [rbind]. rewrite (IH (i + 1) rest Hr); [reflexivity|].
    intros j x Hj Hx. apply (B (S j) x); [lia|]. rewrite <- Hx. f_equal. lia.
Qed.

Lemma clip8_byte z : 0 <= z <= 255 -> clip8 z = z.
Proof.
  intros H. unfold clip8.
  destruct (z <? 0) eqn:A; [apply Z.ltb_lt in A; lia|].
  destruct (255 <? z) eqn:B; [apply Z.ltb_lt in B; lia|reflexivity].
Qed.

Lemma shadow_base_range im cr cg cb ca :
  unit_float cr = true -> unit_float cg = true -> unit_float cb = true ->
  unit_float ca = true ->
  exists base r g b,
    shadow_base im (cr, cg, cb, ca) = Ok base
    /\ size base = size im
    /\ color_channel cr = Ok r /\ color_channel cg = Ok g /\ color_channel cb = Ok b
    /\ 0 <= r <= 255 /\ 0 <= g <= 255 /\ 0 <= b <= 255
    /\ forall x y,
         0 <= alpha_of (getpixel im x y) <= 255 ->
         exists a,
           getpixel base x y = (r, g, b, a)
           /\ py_int (num_mul (NInt (alpha_of (getpixel im x y))) (NFloat ca)) = Ok a
           /\ 0 <= a <= alpha_of (getpixel im x y).
Proof.
  intros Hr Hg Hb Ha.
  destruct (color_channel_byte cr Hr) as (r & Er & Br).
  destruct (color_channel_byte cg Hg) as (g & Eg & Bg).
  destruct (color_channel_byte cb Hb) as (b & Eb & Bb).
  destruct (color_channel_byte ca Ha) as (a & Ea & Ba).
  destruct (build_lut_total (fun i => py_int (num_mul (NInt i) (NFloat ca))) 256 0)
    as [lut Hlut].
  { intros j Hj. destruct (unit_scale (0 + Z.of_nat j) ca ltac:(lia) Ha) as (v & Hv & _).
    eauto. }
  eexists _, r, g, b. unfold shadow_base.
  rewrite Er, Eg, Eb, Ea. cbn [rbind].
  rewrite c_long_small by lia. cbn [rbind].
  rewrite !c_int_byte by assumption. cbn [rbind]. rewrite Hlut. cbn [rbind].
  rewrite (build_lut_longs _ _ _ _ Hlut).
  2:{ intros j v Hj Hv.
      destruct (unit_scale (0 + Z.of_nat j) ca ltac:(lia) Ha) as (v' & Hv' & Bv').
      cbv beta in Hv. rewrite Hv' in Hv. injection Hv as <-. lia. }
  cbn [rbind].
  split; [reflexivity|]. split; [reflexivity|].
  repeat (split; [reflexivity || assumption|]).
  intros x y Hxy. cbn [getpixel putalpha new with_alpha].
  unfold point, alpha_band. set (i := alpha_of (getpixel im x y)) in *.
  destruct (unit_scale i ca Hxy Ha) as (v & Hv & Bv).
  pose proof (lookup_spec _ lut i Hlut ltac:(lia)) as Hl. cbv beta in Hl.
  rewrite Hv in Hl. injection Hl as Hl. rewrite <- Hl.
  exists v. rewrite !clip8_byte by lia. repeat split; (exact Hv || lia).
Qed.

(** X7. For a shadow colour whose four components lie between 0.0 and 1.0,
    lines 18-19 of [make_shadow] do not raise: the layer has the size of
    the text layer, its colour channels are the bytes [int(c * 255)], the
    same at every pixel, and its alpha at a pixel is [int(i * a)] for the
    alpha [i] of the text layer there, which lies between 0 and [i]. *)
Theorem shadow_base_in_range im cr cg cb ca :
  unit_float cr = true -> unit_float cg = true -> unit_float cb = true ->
  unit_float ca = true ->
  exists base r g b,
    shadow_base im (cr, cg, cb, ca) = Ok base
    /\ size base = size im
    /\ color_channel cr = Ok r /\ color_channel cg = Ok g /\ color_channel cb = Ok b
    /\ 0 <= r <= 255 /\ 0 <= g <= 255 /\ 0 <= b <= 255
    /\ forall x y,
         0 <= alpha_of (getpixel im x y) <= 255 ->
         exists a,
           getpixel base x y = (r, g, b, a)
           /\ py_int (num_mul (NInt (alpha_of (getpixel im x y))) (NFloat ca)) = Ok a
           /\ 0 <= a <= alpha_of (getpixel im x y).
Proof. apply shadow_base_range. Qed.

(** The default colour, opaque black, on the example image. *)
Lemma shadow_base_in_range_witness :
  unit_float f0_0 = true /\ unit_float f1_0 = true
  /\ exists base,
       shadow_base demo_image default_shadow_color = Ok base
       /\ getpixel base 3 4 = (0, 0, 0, 255).
Proof.
  assert (U0 : unit_float f0_0 = true) by reflexivity.
  assert (U1 : unit_float f1_0 = true) by reflexivity.
  split; [exact U0|]. split; [exact U1|].
  destruct (shadow_base_in_range demo_image f0_0 f0_0 f0_0 f1_0 U0 U0 U0 U1)
    as (base & r & g & b & Hb & _ & Er & Eg & Eb & _ & _ & _ & Hpix).
  exists base. split; [exact Hb|].
  destruct (Hpix 3 4 ltac:(cbn; lia)) as (a & Hp & Ea & _).
  rewrite Hp. vm_compute in Er, Eg, Eb, Ea.
  injection Er as <-. injection Eg as <-. injection Eb as <-. injection Ea as <-.
  reflexivity.
Defined.

(** * More on the font locator *)

Section Locator.
Context {W : Type}.
Variable sys : system W.

Lemma yields_ret {A} (w : W) (a : A) (Q : A -> Prop) : Q a -> yields w (ret a) Q.
Proof. intros H t w' a' E. injection E as _ _ <-. exact H. Qed.

Lemma yields_bind {A B} (w : W) (m : M W A) (k : A -> M W B) Q1 (Q2 : B -> Prop) :
  pure_read m -> yields w m Q1 -> (forall a, Q1 a -> yields w (k a) Q2) ->
  yields w (bind m k) Q2.
Proof.
  intros Hp Hm Hk t w' b E.
  apply bind_done_inv in E. destruct E as (t1 & w1 & a & t2 & E1 & E2 & _).
  destruct (Hp w) as [Hw _]. unfold world_of in Hw. rewrite E1 in Hw. cbn in Hw. subst w1.
  exact (Hk a (Hm _ _ _ E1) _ _ _ E2).
Qed.

Lemma yields_ask ev (f : W -> bool) (w : W) :
  yields w (ask ev f) (fun b => b = f w).
Proof. intros t w' a E. unfold ask in E. congruence. Qed.

Lemma yields_ask_result {A} ev (f : W -> result A) (w : W) :
  yields w (ask_result ev f) (fun a => f w = Ok a).
Proof.
  intros t w' a E. unfold ask_result in E.
  destruct (f w) as [x|e]; [congruence|discriminate].
Qed.

(** ** What [get_font] does to the file system: it only asks *)

Lemma find_ext_queries d n exts : emits is_query (find_ext sys d n exts).
Proof.
  induction exts as [|ext exts IH]; cbn [find_ext]; [apply emits_ret|].
  apply emits_bind; [now apply emits_ask|]. intros [|]; [apply emits_ret|exact IH].
Qed.

Lemma traverse_dir_queries depth : forall d n, emits is_query (traverse_dir sys depth d n).
Proof.
  induction depth as [|depth IH]; intros d n; cbn [traverse_dir]; [apply emits_raise|].
  apply emits_bind; [apply find_ext_queries|]. intros [p|]; [apply emits_ret|].
  apply emits_bind; [now apply emits_ask_result|]. intros subdirs.
  induction subdirs as [|sd rest IHs]; [apply emits_ret|].
  apply emits_bind; [now apply emits_ask|]. intros [|]; [|exact IHs].
  apply emits_bind; [apply IH|]. intros [p|]; [apply emits_ret|exact IHs].
Qed.

Lemma search_in_dirs_queries n dirs : emits is_query (search_in_dirs sys n dirs).
Proof.
  induction dirs as [|d dirs IH]; cbn [search_in_dirs]; [apply emits_ret|].
  apply emits_bind; [apply traverse_dir_queries|]. intros [p|]; [apply emits_ret|exact IH].
Qed.

Lemma search_for_names_queries names dirs :
  emits is_query (search_for_names sys names dirs).
Proof.
  induction names as [|n names IH]; cbn [search_for_names]; [apply emits_ret|].
  apply emits_bind; [apply search_in_dirs_queries|]. intros [p|];
    [apply emits_ret|exact IH].
Qed.

Lemma get_font_queries family : emits is_query (get_font sys family).
Proof.
  unfold get_font. destruct (eqb _ _); [|apply emits_raise].
  apply emits_bind; [apply emits_lift|]. intros f.
  apply emits_bind; [apply search_for_names_queries|]. intros [p|];
    [apply emits_ret|apply emits_raise].
Qed.

(** X11. [get_font] only asks the file system: every event of it is an
    [isfile], [isdir] or [listdir] call, the state is left as it was, and
    the search ends (a chain of directories deeper than the recursion limit
    raises [RecursionError]). *)
Theorem get_font_only_asks family w :
  forallb is_query (trace_of (get_font sys family w)) = true
  /\ world_of (get_font sys family w) = w
  /\ outcome_of (get_font sys family w) <> Diverged.
Proof.
  split; [apply get_font_queries|].
  exact (proj2 (get_font_looks sys family) w).
Qed.

(** ** What [get_font] returns is a file it has seen *)

Lemma find_ext_run d n w : forall exts,
  find_ext sys d n exts w
  = (List.map (fun e => EIsFile (candidate d n e))
       (upto (fun e => isfile W sys w (candidate d n e)) exts),
     w,
     Done (option_map (candidate d n)
             (find (fun e => isfile W sys w (candidate d n e)) exts))).
Proof.
  induction exts as [|ext exts IH]; cbn [find_ext]; [reflexivity|].
  rewrite bind_ask. fold (candidate d n ext). cbn [upto find].
  destruct (isfile W sys w (candidate d n ext)) eqn:H; [reflexivity|].
  rewrite IH. reflexivity.
Qed.

Lemma find_ext_hit_in w root d n exts :
  below sys w root d -> incl exts search_exts ->
  yields w (find_ext sys d n exts) (hit sys w root n).
Proof.
  intros Hd Hi t w' r E. rewrite find_ext_run in E.
  assert (Hr : r = option_map (candidate d n)
                     (find (fun e => isfile W sys w (candidate d n e)) exts))
    by congruence.
  clear E. intros p Hp. rewrite Hr in Hp.
  destruct (find _ exts) as [ext|] eqn:F; [|discriminate].
  injection Hp as <-. apply find_some in F. destruct F as [Hin Hf].
  split; [exact Hf|]. exists d, ext. auto.
Qed.

Lemma find_ext_hit w root d n :
  below sys w root d -> yields w (find_ext sys d n search_exts) (hit sys w root n).
Proof. intros Hd. apply find_ext_hit_in; [exact Hd|apply incl_refl]. Qed.

Lemma traverse_dir_hit w root n depth : forall d,
  below sys w root d -> yields w (traverse_dir sys depth d n) (hit sys w root n).
Proof.
  induction depth as [|depth IH]; intros d Hd; cbn [traverse_dir].
  - intros t w' a E. discriminate.
  - eapply yields_bind;
      [apply (find_ext_looks sys)|apply (find_ext_hit w root d n Hd)|].
    intros [p|] Hp; [apply yields_ret; exact Hp|].
    eapply yields_bind; [now apply pure_ask_result|apply yields_ask_result|].
    intros subdirs Hl. cbv beta in Hl.
    assert (Hin : incl subdirs subdirs) by apply incl_refl.
    revert Hin. generalize subdirs at 1 3. intros rest.
    induction rest as [|sd rest IHs]; intros Hin;
      [apply yields_ret; intros p; discriminate|].
    eapply yields_bind; [apply pure_ask|apply yields_ask|].
    intros b Hb. cbv beta in Hb.
    assert (Hrest : incl rest subdirs) by (intros x Hx; apply Hin; now right).
    destruct b; [|exact (IHs Hrest)].
    eapply yields_bind; [apply (traverse_dir_looks sys)| |].
    + apply IH. apply (below_sub sys w root d subdirs sd Hd Hl); [|now symmetry].
      apply Hin. now left.
    + intros [p|] Hp'; [apply yields_ret; exact Hp'|exact (IHs Hrest)].
Qed.

Lemma search_in_dirs_hit w n dirs :
  yields w (search_in_dirs sys n dirs)
    (fun r => forall p, r = Some p -> exists root, In root dirs /\ hit sys w root n (Some p)).
Proof.
  induction dirs as [|d dirs IH]; cbn [search_in_dirs].
  - apply yields_ret. intros p; discriminate.
  - eapply yields_bind;
      [apply (traverse_dir_looks sys)|apply (traverse_dir_hit w d n); constructor|].
    intros [p|] Hp.
    + apply yields_ret. intros p' E. injection E as <-. exists d. split; [now left|exact Hp].
    + intros t w' r E p' ->. destruct (IH _ _ _ E p' eq_refl) as (root & Hin & Hh).
      exists root. split; [now right|exact Hh].
Qed.

Lemma search_for_names_hit w names dirs :
  yields w (search_for_names sys names dirs)
    (fun r => forall p, r = Some p ->
       exists n root, In n names /\ In root dirs /\ hit sys w root n (Some p)).
Proof.
  induction names as [|n names IH]; cbn [search_for_names].
  - apply yields_ret. intros p; discriminate.
  - eapply yields_bind;
      [apply (search_in_dirs_looks sys)|apply (search_in_dirs_hit w n dirs)|].
    intros [p|] Hp.
    + apply yields_ret. intros p' E. injection E as <-.
      destruct (Hp p eq_refl) as (root & Hin & Hh). exists n, root. auto with datatypes.
    + intros t w' r E p' ->. destruct (IH _ _ _ E p' eq_refl) as (n' & root & Hn & Hr & Hh).
      exists n', root. auto with datatypes.
Qed.

(** X12. A path [get_font] returns is a file that is there; it is
    [os.path.join(dir, name + ext)] for one of the names searched for, one
    of the three extensions and a directory [dir] the traversal reaches
    from one of the two font directories: that directory itself, or an
    entry that [os.listdir] gives for a reached directory and that
    [os.path.isdir] accepts. *)
Theorem get_font_sound family w t w' p :
  get_font sys (VStr family) w = (t, w', Done p) ->
  w' = w
  /\ isfile W sys w p = true
  /\ exists root dir n ext,
       In root (font_roots sys) /\ below sys w root dir
       /\ In n (search_names family) /\ In ext search_exts
       /\ p = path_join dir (n ++ ext).
Proof.
  intros E. split.
  { pose proof (proj2 (get_font_looks sys (VStr family)) w) as [Hw _].
    unfold world_of in Hw. rewrite E in Hw. exact Hw. }
  unfold get_font in E. destruct (eqb (platform W sys) (lit "darwin")); [|discriminate].
  cbn [as_str] in E. rewrite bind_lift_ok in E.
  apply bind_done_inv in E. destruct E as (t1 & w1 & r & t2 & E1 & E2 & _).
  pose proof (proj2 (search_for_names_looks sys (search_names family) (font_roots sys)) w)
    as [Hw _].
  unfold world_of in Hw. change (font_roots sys) with
    [lit "/System/Library/Fonts"; expanduser W sys (lit "~/Library/Fonts")] in Hw.
  rewrite E1 in Hw. cbn in Hw. subst w1.
  destruct r as [q|]; [|discriminate]. injection E2 as _ _ <-.
  destruct (search_for_names_hit w _ _ _ _ _ E1 q eq_refl) as (n & root & Hn & Hr & Hh).
  destruct (Hh q eq_refl) as (Hf & dir & ext & Hb & He & Hp).
  split; [exact Hf|]. exists root, dir, n, ext. auto.
Qed.

(** ** The order of the search *)

(** X13. On macOS, a file for the first name of the family that lies in
    [/System/Library/Fonts] itself is returned, with the first existing
    extension in the order .otf, .ttf, .ttc; no directory is listed and the
    other names are not looked at. *)
Theorem get_font_direct_hit family n rest w ext :
  platform W sys = lit "darwin" ->
  recursion_limit W sys <> 0%nat ->
  search_names family = n :: rest ->
  find (fun e => isfile W sys w (candidate (lit "/System/Library/Fonts") n e)) search_exts
  = Some ext ->
  get_font sys (VStr family) w
  = (List.map (fun e => EIsFile (candidate (lit "/System/Library/Fonts") n e))
       (upto (fun e => isfile W sys w (candidate (lit "/System/Library/Fonts") n e))
          search_exts),
     w,
     Done (candidate (lit "/System/Library/Fonts") n ext)).
Proof.
  intros Hp Hl Hs Hf. unfold get_font. rewrite Hp.
  rewrite (proj2 (str_eqb_eq _ _) eq_refl). cbn [as_str]. rewrite bind_lift_ok, Hs.
  cbn [search_for_names search_in_dirs].
  destruct (recursion_limit W sys) as [|depth]; [congruence|]. cbn [traverse_dir].
  unfold bind. rewrite find_ext_run, Hf. cbn. rewrite !app_nil_r. reflexivity.
Qed.

(** X14. On macOS, when no file for the first name lies in
    [/System/Library/Fonts] itself and listing that directory raises, the
    error of [os.listdir] is what [get_font] raises: neither the second
    directory nor the other names are tried. *)
Theorem get_font_listdir_error family n rest w e :
  platform W sys = lit "darwin" ->
  recursion_limit W sys <> 0%nat ->
  search_names family = n :: rest ->
  (forall ext, In ext search_exts ->
     isfile W sys w (candidate (lit "/System/Library/Fonts") n ext) = false) ->
  listdir W sys w (lit "/System/Library/Fonts") = Raise e ->
  get_font sys (VStr family) w
  = (List.map (fun ext => EIsFile (candidate (lit "/System/Library/Fonts") n ext))
       search_exts ++ [EListDir (lit "/System/Library/Fonts")],
     w,
     Raised e).
Proof.
  intros Hp Hl Hs Hf He. unfold get_font. rewrite Hp.
  rewrite (proj2 (str_eqb_eq _ _) eq_refl). cbn [as_str]. rewrite bind_lift_ok, Hs.
  cbn [search_for_names search_in_dirs].
  destruct (recursion_limit W sys) as [|depth]; [congruence|]. cbn [traverse_dir].
  unfold bind. rewrite find_ext_run.
  unfold search_exts in *. cbn [find upto List.map].
  rewrite !Hf by auto with datatypes. cbn [find upto List.map option_map].
  unfold ask_result. rewrite He. reflexivity.
Qed.

(** X15. A name comes before a directory: when the first name is not found
    under [/System/Library/Fonts] but a file for it lies in
    [~/Library/Fonts] itself, that file is returned, whatever files the
    later names have in the first directory. *)
Theorem get_font_family_priority family n rest w t1 ext :
  platform W sys = lit "darwin" ->
  search_names family = n :: rest ->
  traverse_dir sys (recursion_limit W sys) (lit "/System/Library/Fonts") n w
  = (t1, w, Done None) ->
  recursion_limit W sys <> 0%nat ->
  find (fun e => isfile W sys w
                   (candidate (expanduser W sys (lit "~/Library/Fonts")) n e))
    search_exts = Some ext ->
  get_font sys (VStr family) w
  = (t1 ++ List.map (fun e => EIsFile
                                (candidate (expanduser W sys (lit "~/Library/Fonts")) n e))
             (upto (fun e => isfile W sys w
                               (candidate (expanduser W sys (lit "~/Library/Fonts")) n e))
                search_exts),
     w,
     Done (candidate (expanduser W sys (lit "~/Library/Fonts")) n ext)).
Proof.
  intros Hp Hs H1 Hl Hf. unfold get_font. rewrite Hp.
  rewrite (proj2 (str_eqb_eq _ _) eq_refl). cbn [as_str]. rewrite bind_lift_ok, Hs.
  cbn [search_for_names search_in_dirs].
  unfold bind at 1 2 3. rewrite H1.
  destruct (recursion_limit W sys) as [|depth]; [congruence|]. cbn [traverse_dir].
  unfold bind. rewrite find_ext_run, Hf. cbn. rewrite !app_nil_r. reflexivity.
Qed.

End Locator.

(** * More on the job runner and on batch mode *)

Section Jobs.
Context {W : Type}.
Variable sys : system W.
Variable E : engine.

(** ** The job runner writes once, at the end *)

(** X16. [run_job] changes no file before the compositor has returned.
    Either no event of it writes, the state is as it was and the job did not
    return; or, for a still image, its last event is the saving of the
    image to the output file and no event before it writes; or, for a
    video, the temporary directory is made first: when that fails the job
    fails there; otherwise [watermark.png] is written in that directory,
    then, if that went well, the overlay is run to the output file, and the
    directory is removed last.  The output file is written by at most one
    event. *)
Theorem run_job_writes_last fuel i o ff q opts ov w :
  let r := run_job sys E fuel i o ff q opts ov w in
  (forallb quiet (trace_of r) = true
   /\ world_of r = w
   /\ outcome_of r <> Done tt)
  \/ (exists t0,
        trace_of r = t0 ++ [EImageSave o]
        /\ forallb quiet t0 = true)
  \/ (exists t0,
        trace_of r = t0 ++ [ETempDir]
        /\ forallb quiet t0 = true
        /\ (exists e, snd (make_temp_dir W sys w) = Raise e)
        /\ outcome_of r <> Done tt)
  \/ (exists t0 dir mid,
        trace_of r
        = t0 ++ ETempDir :: EPngSave (path_join dir (lit "watermark.png"))
               :: mid ++ [ECleanup dir]
        /\ forallb quiet t0 = true
        /\ snd (make_temp_dir W sys w) = Ok dir
        /\ (mid = [] /\ outcome_of r <> Done tt \/ mid = [EOverlay i o ov])).
Proof.
  cbv zeta. unfold run_job. rewrite bind_emit.
  destruct (existsb (eqb (lower_ext W sys i)) image_exts).
  - unfold bind, ask_result.
    destruct (image_open W sys w i) as [im|e];
      [|left; repeat split; discriminate].
    unfold call_add_watermark.
    destruct (bind_options opts) as [[o' c]|e];
      [|left; repeat split; discriminate].
    destruct (add_watermark E fuel im o' ff c) as [[out|e]|];
      [|left; repeat split; discriminate|left; repeat split; discriminate].
    unfold act. right. left.
    destruct (image_save W sys w out o q) as [w2 [u|e]];
      exists [ERunJob i o ff q opts ov; EImageOpen i]; cbn; auto.
  - destruct (existsb (eqb (lower_ext W sys i)) video_exts).
    + unfold bind, ask_result.
      destruct (probe_size W sys w i) as [wh|e];
        [|left; repeat split; discriminate].
      unfold call_add_watermark.
      destruct (bind_options opts) as [[o' c]|e];
        [|left; repeat split; discriminate].
      destruct (add_watermark E fuel _ o' ff c) as [[out|e]|];
        [|left; repeat split; discriminate|left; repeat split; discriminate].
      right. right. unfold render_video.
      destruct (make_temp_dir W sys w) as [w1 [dir|e]].
      * right. exists [ERunJob i o ff q opts ov; EProbe i], dir.
        unfold bind, act.
        destruct (png_save W sys w1 out (path_join dir (lit "watermark.png")))
          as [w2 [u|e]].
        -- exists [EOverlay i o ov].
           destruct (overlay_video W sys w2 i (path_join dir (lit "watermark.png")) o ov)
             as [w3 [u'|e]];
             destruct (cleanup W sys w3 dir) as [w4 [u''|e']]; cbn; auto.
        -- exists []. destruct (cleanup W sys w2 dir) as [w4 [u''|e']]; cbn;
             repeat split; auto; left; split; auto; discriminate.
      * left. exists [ERunJob i o ff q opts ov; EProbe i]. cbn.
        repeat split; eauto; discriminate.
    + left. repeat split; discriminate.
Qed.

(** ** What a run may emit *)

Lemma run_job_emits P fuel i o ff q opts ov :
  (forall ev, is_query ev = false -> no_sidecar ev = true -> P ev = true) ->
  emits P (run_job sys E fuel i o ff q opts ov).
Proof.
  intros HP. unfold run_job. apply emits_bind; [apply emits_emit; now apply HP|].
  intros _. destruct (existsb _ image_exts).
  - apply emits_bind; [apply emits_ask_result; now apply HP|]. intros im.
    apply emits_bind; [apply call_add_watermark_emits|]. intros out.
    apply emits_act. now apply HP.
  - destruct (existsb _ video_exts); [|apply emits_raise].
    apply emits_bind; [apply emits_ask_result; now apply HP|]. intros wh.
    apply emits_bind; [apply call_add_watermark_emits|]. intros out.
    apply render_video_emits; intros; now apply HP.
Qed.

Lemma query_no_sidecar ev : is_query ev = true -> no_sidecar ev = true.
Proof. destruct ev; cbn; congruence. Qed.

Lemma batch_job_no_sidecar fuel f : emits no_sidecar (batch_job sys E fuel f).
Proof.
  unfold batch_job. apply emits_bind; [now apply emits_ask|]. intros [|]; [|apply emits_ret].
  apply emits_bind; [now apply emits_emit|]. intros _.
  apply emits_bind; [now apply emits_ask_result|]. intros cnt.
  apply emits_bind; [apply emits_lift|]. intros options.
  apply emits_bind; [apply emits_lift|]. intros fo.
  apply emits_bind;
    [apply (emits_weaken is_query); [apply query_no_sidecar|apply get_font_queries]|].
  intros ff.
  apply emits_bind; [apply emits_lift|]. intros oo.
  apply emits_bind; [apply emits_lift|]. intros qo.
  apply emits_bind; [now apply emits_emit|]. intros _.
  destruct (str_equals f (fst oo)); [apply emits_raise|].
  apply run_job_emits. auto.
Qed.

Lemma batch_loop_no_sidecar fuel files : emits no_sidecar (batch_loop sys E fuel files).
Proof.
  induction files as [|f files IH]; cbn [batch_loop]; [apply emits_ret|].
  apply emits_bind; [apply batch_job_no_sidecar|]. intros _. exact IH.
Qed.

(** X25. Batch mode never writes a sidecar: no event of a run with batch
    files opens a file for writing through [codecs]. *)
Theorem batch_mode_writes_no_sidecar fuel a w :
  cli_batch_files a <> [] ->
  forallb no_sidecar (trace_of (main sys E fuel a w)) = true.
Proof.
  intros Hb. revert w. change (emits no_sidecar (main sys E fuel a)).
  unfold main. destruct (cli_batch_files a) as [|f fs]; [congruence|].
  apply emits_bind.
  - destruct (list_eq_dec _ _ _); [now apply emits_ask_result|apply emits_ret].
  - intros files. destruct (cli_text a); [|apply emits_raise].
    destruct (cli_input_file a); [apply emits_raise|].
    destruct (cli_output_file a); [apply emits_raise|].
    apply emits_bind; [now apply emits_emit|]. intros _. apply batch_loop_no_sidecar.
Qed.

(** ** Files without a sidecar *)

Lemma batch_job_skips fuel f w :
  isfile W sys w (f ++ lit ".json") = false ->
  batch_job sys E fuel f w = ([EIsFile (f ++ lit ".json")], w, Done tt).
Proof. intros H. unfold batch_job. rewrite bind_ask, H. reflexivity. Qed.

Lemma batch_loop_skips fuel w : forall files,
  (forall f, In f files -> isfile W sys w (f ++ lit ".json") = false) ->
  batch_loop sys E fuel files w
  = (List.map (fun f => EIsFile (f ++ lit ".json")) files, w, Done tt).
Proof.
  induction files as [|f files IH]; intros H; cbn [batch_loop]; [reflexivity|].
  unfold bind. rewrite batch_job_skips by (apply H; now left).
  rewrite IH by (intros g Hg; apply H; now right). reflexivity.
Qed.

(** X21. Batch mode skips a file that has no sidecar: when none of the files
    has one, [main] prints "Enter batch mode", asks for each sidecar in
    order, changes nothing and returns. *)
Theorem batch_without_sidecars fuel a w :
  cli_batch_files a <> [] -> cli_batch_files a <> [lit "."] ->
  cli_text a = [] -> cli_input_file a = None -> cli_output_file a = None ->
  (forall f, In f (cli_batch_files a) -> isfile W sys w (f ++ lit ".json") = false) ->
  main sys E fuel a w
  = (EPrint ("Enter batch mode"%string, [])
     :: List.map (fun f => EIsFile (f ++ lit ".json")) (cli_batch_files a),
     w, Done tt).
Proof.
  intros Hne Hdot Ht Hi Ho Hf. unfold main.
  destruct (cli_batch_files a) as [|f fs] eqn:Hb; [congruence|].
  destruct (list_eq_dec _ _ _) as [Heq|_]; [congruence|].
  rewrite bind_ret, Ht, Hi, Ho, bind_emit. rewrite batch_loop_skips by exact Hf.
  reflexivity.
Qed.

(** ** A failing file ends the batch *)

(** X22. A file whose job does not return ends the batch: the files after it
    are not looked at, and the batch ends as that job did, in the state it
    left. *)
Theorem batch_stops_at_failure fuel (pre : list str) (f : str) (rest : list str)
    w t1 w1 t2 w2 o :
  batch_loop sys E fuel pre w = (t1, w1, Done tt) ->
  batch_job sys E fuel f w1 = (t2, w2, o) ->
  o <> Done tt ->
  batch_loop sys E fuel (pre ++ f :: rest) w = (t1 ++ t2, w2, o).
Proof.
  intros H1 H2 Ho. rewrite batch_loop_app. unfold bind at 1. rewrite H1.
  cbn [batch_loop]. unfold bind. rewrite H2.
  destruct o as [[]| |]; [congruence|reflexivity|reflexivity].
Qed.

(** ** Arguments that fit neither mode *)

(** X20. Arguments that fit neither mode are refused with a [ValueError]
    before anything is printed or written: no batch files and a missing
    text, input or output; batch files together with a text, an input or an
    output.  For the batch file ".", the directory is listed before the
    arguments are checked, and an error of the listing comes first. *)
Theorem main_rejects_arguments fuel a w :
  (cli_batch_files a = [] ->
   cli_text a = [] \/ cli_input_file a = None \/ cli_output_file a = None ->
   main sys E fuel a w = ([], w, Raised single_missing))
  /\ (cli_batch_files a <> [] -> cli_batch_files a <> [lit "."] ->
      cli_text a <> [] \/ cli_input_file a <> None \/ cli_output_file a <> None ->
      main sys E fuel a w = ([], w, Raised batch_conflict))
  /\ (cli_batch_files a = [lit "."] ->
      cli_text a <> [] \/ cli_input_file a <> None \/ cli_output_file a <> None ->
      main sys E fuel a w
      = ([EListDir (lit ".")], w,
         match listdir W sys w (lit ".") with
         | Ok _ => Raised batch_conflict
         | Raise e => Raised e
         end)).
Proof.
  split; [|split].
  - intros Hb H. unfold main. rewrite Hb.
    destruct (cli_text a) as [|t ts]; [reflexivity|].
    destruct (cli_input_file a) as [i|]; [|reflexivity].
    destruct (cli_output_file a) as [o|]; [|reflexivity].
    destruct H as [H|[H|H]]; discriminate.
  - intros Hne Hdot H. unfold main.
    destruct (cli_batch_files a) as [|f fs] eqn:Hb; [congruence|].
    destruct (list_eq_dec _ _ _) as [Heq|_]; [congruence|].
    rewrite bind_ret.
    destruct (cli_text a) as [|t ts]; [|reflexivity].
    destruct (cli_input_file a) as [i|]; [reflexivity|].
    destruct (cli_output_file a) as [o|]; [reflexivity|].
    destruct H as [H|[H|H]]; congruence.
  - intros Hb H. unfold main. rewrite Hb.
    destruct (list_eq_dec _ _ _) as [_|Hn]; [|congruence].
    unfold bind, ask_result. destruct (listdir W sys w (lit ".")) as [l|e]; [|reflexivity].
    destruct (cli_text a) as [|t ts]; [|reflexivity].
    destruct (cli_input_file a) as [i|]; [reflexivity|].
    destruct (cli_output_file a) as [o|]; [reflexivity|].
    destruct H as [H|[H|H]]; congruence.
Qed.

End Jobs.

(** * Sidecars that lack an entry *)

Section Sidecars.
Context {W : Type}.
Variable sys : system W.
Variable E : engine.

Lemma dict_pop_missing k d : dict_get k d = None -> dict_pop k d = Raise (KeyError k).
Proof. intros H. unfold dict_pop. now rewrite H. Qed.

(** What is left of [batch_job] once the sidecar is loaded (lines 185-192). *)
Lemma batch_job_opened fuel (f : str) w cnt v t w' o :
  isfile W sys w (f ++ lit ".json") = true ->
  read_text W sys w (f ++ lit ".json") = Ok cnt ->
  json_loads W sys cnt = Ok v ->
  bind (lift (py_pop (lit "font_family") v))
    (fun fo =>
       bind (get_font sys (fst fo))
         (fun font_file =>
            bind (lift (py_pop (lit "output_file") (snd fo)))
              (fun oo =>
                 bind (lift (py_pop (lit "quality") (snd oo)))
                   (fun qo =>
                      bind (emit (EPrint ("Font file: {font_file}"%string,
                                          [font_file])))
                        (fun _ =>
                           if str_equals f (fst oo) then raise same_file
                           else run_job sys E fuel f (fst oo) font_file (fst qo)
                                  (snd qo) true))))) w
  = (t, w', o) ->
  batch_job sys E fuel f w
  = (EIsFile (f ++ lit ".json")
     :: EPrint ("> Input file: {input_file}"%string, [f])
     :: EOpenRead (f ++ lit ".json") :: t, w', o).
Proof.
  intros Hfile Hread Hjson Hrest. unfold batch_job.
  rewrite bind_ask, Hfile, bind_emit.
  unfold ask_result at 1. unfold bind at 1. rewrite Hread, Hjson.
  rewrite bind_lift_ok. rewrite Hrest. destruct o; reflexivity.
Qed.

(** X23. A sidecar without its font family, output file or quality makes the
    batch job raise without running a job: the events are prints and reads
    and the state is as it was.  Without the font family the error is
    [KeyError('font_family')], raised before any font is searched. *)
Theorem batch_incomplete_sidecar fuel (f : str) w cnt d k :
  isfile W sys w (f ++ lit ".json") = true ->
  read_text W sys w (f ++ lit ".json") = Ok cnt ->
  json_loads W sys cnt = Ok (VDict d) ->
  In k popped_keys -> dict_get k d = None ->
  (exists e t,
     batch_job sys E fuel f w = (t, w, Raised e)
     /\ forallb harmless t = true
     /\ run_jobs t = [])
  /\ (k = lit "font_family" ->
      batch_job sys E fuel f w
      = ([EIsFile (f ++ lit ".json");
          EPrint ("> Input file: {input_file}"%string, [f]);
          EOpenRead (f ++ lit ".json")],
         w, Raised (KeyError (lit "font_family")))).
Proof.
  intros Hfile Hread Hjson Hk Hd.
  assert (Hfam : dict_get (lit "font_family") d = None ->
                 batch_job sys E fuel f w
                 = ([EIsFile (f ++ lit ".json");
                     EPrint ("> Input file: {input_file}"%string, [f]);
                     EOpenRead (f ++ lit ".json")],
                    w, Raised (KeyError (lit "font_family")))).
  { intros Hn. apply (batch_job_opened fuel f w cnt (VDict d)); try assumption.
    cbn [py_pop]. rewrite (dict_pop_missing _ _ Hn). apply bind_lift_raise. }
  split; [|intros ->; exact (Hfam Hd)].
  destruct (dict_get (lit "font_family") d) as [fam|] eqn:Efam.
  2:{ rewrite (Hfam eq_refl). eexists _, _. repeat split. }
  destruct (get_font sys fam w) as [[tf wf] oft] eqn:Ef.
  destruct (get_font_run sys w fam tf wf oft Ef) as [-> Hnone].
  pose proof (proj1 (get_font_looks sys fam) w) as Hharm.
  unfold trace_of in Hharm. rewrite Ef in Hharm. cbn [fst] in Hharm.
  assert (Hshape : forall e,
            bind (get_font sys fam)
              (fun font_file =>
                 bind (lift (py_pop (lit "output_file")
                               (VDict (dict_remove (lit "font_family") d))))
                   (fun oo =>
                      bind (lift (py_pop (lit "quality") (snd oo)))
                        (fun qo =>
                           bind (emit (EPrint ("Font file: {font_file}"%string,
                                               [font_file])))
                             (fun _ =>
                                if str_equals f (fst oo) then raise same_file
                                else run_job sys E fuel f (fst oo) font_file (fst qo)
                                       (snd qo) true)))) w
            = (tf, w, Raised e) ->
            exists e t,
              batch_job sys E fuel f w = (t, w, Raised e)
              /\ forallb harmless t = true /\ run_jobs t = []).
  { intros e He. eexists _, _. split.
    - apply (batch_job_opened fuel f w cnt (VDict d)); try assumption.
      cbn [py_pop]. unfold dict_pop at 1. rewrite Efam. rewrite bind_lift_ok.
      cbn [fst snd]. exact He.
    - cbn [forallb harmless andb]. split; [exact Hharm|].
      cbn [run_jobs filter is_run_job]. exact Hnone. }
  unfold bind at 1 in Hshape. rewrite Ef in Hshape.
  destruct oft as [font| e |].
  - destruct (dict_get (lit "output_file") (dict_remove (lit "font_family") d))
      as [out|] eqn:Eout.
    + assert (Hq : dict_get (lit "quality")
                     (dict_remove (lit "output_file")
                        (dict_remove (lit "font_family") d)) = None).
      { rewrite !dict_get_remove_other by reflexivity.
        rewrite dict_get_remove_other in Eout by reflexivity.
        destruct Hk as [<-|[<-|[<-|[]]]]; congruence. }
      cbn [py_pop] in Hshape. unfold dict_pop at 1 in Hshape. rewrite Eout in Hshape.
      rewrite bind_lift_ok in Hshape. cbn [fst snd py_pop] in Hshape.
      rewrite (dict_pop_missing _ _ Hq), bind_lift_raise in Hshape.
      rewrite app_nil_r in Hshape. exact (Hshape _ eq_refl).
    + cbn [py_pop] in Hshape.
      rewrite (dict_pop_missing _ _ Eout), bind_lift_raise in Hshape.
      rewrite app_nil_r in Hshape. exact (Hshape _ eq_refl).
  - exact (Hshape _ eq_refl).
  - exfalso. pose proof (proj2 (get_font_looks sys fam) w) as [_ Hdiv].
    unfold outcome_of in Hdiv. rewrite Ef in Hdiv. now apply Hdiv.
Qed.

End Sidecars.

(** * The sidecar of a single run *)

Section SingleRun.
Context {W : Type}.
Variable sys : system W.
Variable E : engine.

Lemma get_font_no_sidecar family w :
  forallb no_sidecar (trace_of (get_font sys family w)) = true.
Proof.
  apply (emits_weaken is_query no_sidecar); [apply query_no_sidecar|].
  apply get_font_queries.
Qed.

Lemma run_job_no_sidecar fuel i o ff q opts ov w :
  forallb no_sidecar (trace_of (run_job sys E fuel i o ff q opts ov w)) = true.
Proof. apply run_job_emits. auto. Qed.

(** X19. In single mode a sidecar is written only after the job has
    returned, as the last step, to [input.json], holding the options of the
    run with the font family, the output file and the quality.  A run that
    writes no sidecar did not return. *)
Theorem single_sidecar_last fuel a w t w' o :
  cli_batch_files a = [] ->
  main sys E fuel a w = (t, w', o) ->
  (forallb no_sidecar t = true /\ o <> Done tt)
  \/ exists A out font t0 tj wj,
       cli_input_file a = Some A /\ cli_output_file a = Some out
       /\ run_job sys E fuel A (VStr out) font (VInt (cli_quality a))
            (VDict (single_options a (join newline (cli_text a)))) false w
          = (tj, wj, Done tt)
       /\ t = t0 ++ [EOpenWrite (A ++ lit ".json")
                       (json_dumps W sys
                          (VDict (sidecar_options a
                                    (single_options a (join newline (cli_text a)))
                                    out)))]
       /\ forallb no_sidecar t0 = true
       /\ w' = fst (write_text W sys wj (A ++ lit ".json")
                      (json_dumps W sys
                         (VDict (sidecar_options a
                                   (single_options a (join newline (cli_text a)))
                                   out)))).
Proof.
  intros Hb Hm. unfold main in Hm. rewrite Hb in Hm.
  destruct (cli_text a) as [|l ls] eqn:Ht;
    [left; injection Hm as <- _ <-; split; [reflexivity|discriminate]|].
  destruct (cli_input_file a) as [A|];
    [|left; injection Hm as <- _ <-; split; [reflexivity|discriminate]].
  destruct (cli_output_file a) as [out|];
    [|left; injection Hm as <- _ <-; split; [reflexivity|discriminate]].
  rewrite bind_emit in Hm.
  destruct (eqb A out);
    [left; injection Hm as <- _ <-; split; [reflexivity|discriminate]|].
  pose proof (get_font_no_sidecar (VStr (cli_font_family a)) w) as Hf.
  pose proof (get_font_run sys w (VStr (cli_font_family a))) as Hw.
  unfold bind at 1 in Hm.
  destruct (get_font sys (VStr (cli_font_family a)) w) as [[tf wf] oft].
  destruct (Hw tf wf oft eq_refl) as [-> _]. cbn [trace_of fst] in Hf.
  destruct oft as [font|e|];
    [|left; injection Hm as <- _ <-; split; [exact Hf|discriminate]
     |left; injection Hm as <- _ <-; split; [exact Hf|discriminate]].
  rewrite bind_emit in Hm. fold newline in Hm.
  pose proof (run_job_no_sidecar fuel A (VStr out) font (VInt (cli_quality a))
                (VDict (single_options a (join newline (l :: ls)))) false w) as Hj.
  unfold bind at 1 in Hm.
  destruct (run_job sys E fuel A (VStr out) font (VInt (cli_quality a))
              (VDict (single_options a (join newline (l :: ls)))) false w)
    as [[tj wj] oj] eqn:Ej.
  cbn [trace_of fst] in Hj.
  destruct oj as [[]|e|].
  - right. exists A, out, font.
    exists (EPrint ("> Input file: {input_file}\n  Output file: {output_file}"%string,
                    [A; out])
            :: tf ++ EPrint ("Font file: {font_file}"%string, [font]) :: tj), tj, wj.
    split; [reflexivity|]. split; [reflexivity|]. split; [exact Ej|].
    unfold act in Hm.
    destruct (write_text W sys wj (A ++ lit ".json") _) as [w2 [u|e]] eqn:Ew;
      injection Hm as <- <- _; cbn [fst];
      (split; [cbn [app]; rewrite <- !app_assoc; reflexivity|]);
      (split; [|reflexivity]);
      cbn [forallb no_sidecar andb]; rewrite forallb_app, Hf;
      cbn [forallb no_sidecar andb]; exact Hj.
  - left. injection Hm as <- _ <-. split; [|discriminate].
    cbn [forallb no_sidecar andb]. rewrite forallb_app, Hf.
    cbn [forallb no_sidecar andb]. exact Hj.
  - left. injection Hm as <- _ <-. split; [|discriminate].
    cbn [forallb no_sidecar andb]. rewrite forallb_app, Hf.
    cbn [forallb no_sidecar andb]. exact Hj.
Qed.

End SingleRun.

(** * Whitespace around a position *)

Lemma split_ws_blank s : blank s -> split_ws s = [].
Proof.
  induction 1 as [|c s Hc _ IH]; cbn [split_ws]; [reflexivity|]. now rewrite Hc.
Qed.

Lemma split_ws_lead l s : blank l -> split_ws (l ++ s) = split_ws s.
Proof.
  induction 1 as [|c l Hc _ IH]; cbn [app split_ws]; [reflexivity|]. now rewrite Hc.
Qed.

Lemma split_ws_trail r : blank r -> forall s, split_ws (s ++ r) = split_ws s.
Proof.
  intros Hr. induction s as [|c s IH]; cbn [app].
  - now apply split_ws_blank.
  - cbn [split_ws]. destruct (isspace c); [exact IH|].
    destruct s as [|d s']; cbn [app].
    + destruct Hr as [|d r Hd Hr]; [reflexivity|]. rewrite Hd.
      change (d :: r) with ([d] ++ r).
      rewrite split_ws_blank; [reflexivity|]. now constructor.
    + cbn [app] in IH. now rewrite IH.
Qed.

(** X10. Whitespace before and after a position changes neither its tokens
    nor what it parses to: the same pair of codes, or the error for an
    unrecognized token (which quotes the position as given). *)
Theorem parse_position_padding l s r :
  blank l -> blank r ->
  split_ws (l ++ s ++ r) = split_ws s
  /\ (forall hv, parse_position (l ++ s ++ r) = Ok hv <-> parse_position s = Ok hv)
  /\ (parse_position (l ++ s ++ r) = Raise (unrecognized (l ++ s ++ r))
      <-> parse_position s = Raise (unrecognized s)).
Proof.
  intros Hl Hr.
  assert (Hs : split_ws (l ++ s ++ r) = split_ws s)
    by (rewrite split_ws_lead by exact Hl; now apply split_ws_trail).
  split; [exact Hs|]. unfold parse_position. rewrite !parse_tokens_spec, Hs.
  destruct (forallb is_token (split_ws s)); split; try intros hv; split;
    congruence.
Qed.

(** The position " top left  ". *)
Lemma parse_position_padding_witness :
  blank (lit " ") /\ blank (lit "  ")
  /\ parse_position (lit " " ++ lit "top left" ++ lit "  ") = Ok (LEFT, TOP).
Proof.
  assert (B1 : blank (lit " ")) by (repeat constructor).
  assert (B2 : blank (lit "  ")) by (repeat constructor).
  split; [exact B1|]. split; [exact B2|].
  apply (proj1 (proj2 (parse_position_padding (lit " ") (lit "top left") (lit "  ") B1 B2))).
  reflexivity.
Defined.

(** * A single run from end to end; options that do not fit *)

Section EndToEnd.
Context {W : Type}.
Variable sys : system W.
Variable E : engine.

(** ** A single run on a still image, from the command line to the sidecar *)

(** X18. A single run on a still image: with a text, an output other than
    the input, a font that is found, an image that opens, a compositor that
    returns, and a save and a sidecar write that succeed, [main] returns;
    it prints the files, searches the font, prints it, runs the job (open,
    save) and last writes the sidecar [input.json] with the dumped
    options. *)
Theorem single_run_succeeds fuel a w A out tf font im res w1 w2 :
  cli_batch_files a = [] -> cli_text a <> [] ->
  cli_input_file a = Some A -> cli_output_file a = Some out ->
  eqb A out = false ->
  get_font sys (VStr (cli_font_family a)) w = (tf, w, Done font) ->
  existsb (eqb (lower_ext W sys A)) image_exts = true ->
  image_open W sys w A = Ok im ->
  add_watermark E fuel im (single_style a) font default_shadow_color = Some (Ok res) ->
  image_save W sys w res (VStr out) (VInt (cli_quality a)) = (w1, Ok tt) ->
  write_text W sys w1 (A ++ lit ".json")
    (json_dumps W sys
       (VDict (sidecar_options a (single_options a (join newline (cli_text a))) out)))
  = (w2, Ok tt) ->
  main sys E fuel a w
  = (EPrint ("> Input file: {input_file}\n  Output file: {output_file}"%string, [A; out])
     :: tf
     ++ [EPrint ("Font file: {font_file}"%string, [font]);
         ERunJob A (VStr out) font (VInt (cli_quality a))
           (VDict (single_options a (join newline (cli_text a)))) false;
         EImageOpen A;
         EImageSave (VStr out);
         EOpenWrite (A ++ lit ".json")
           (json_dumps W sys
              (VDict (sidecar_options a
                        (single_options a (join newline (cli_text a))) out)))],
     w2, Done tt).
Proof.
  intros Hb Ht Hi Ho Hne Hf Hext Hopen Hadd Hsave Hwrite.
  unfold main. rewrite Hb, Hi, Ho.
  destruct (cli_text a) as [|l ls] eqn:Etext; [congruence|].
  rewrite bind_emit, Hne. unfold bind at 1. rewrite Hf. rewrite bind_emit.
  fold newline. unfold run_job. rewrite Hext.
  unfold bind, emit, ask_result, call_add_watermark, act.
  rewrite Hopen. rewrite single_options_bind.
  unfold single_style in Hadd. rewrite ?Etext in Hadd. rewrite Hadd, Hsave.
  rewrite ?Etext in Hwrite. rewrite Hwrite. cbn [app]. reflexivity.
Qed.

(** ** Options that do not fit the parameters of [add_watermark] *)

Lemma keyword_missing k d : dict_get k d = None -> keyword k d = Raise TypeError.
Proof. intros H. unfold keyword. now rewrite H. Qed.

Lemma rbind_raise_inv {A B} (m : result A) (k : A -> result B) :
  is_raise m = true -> is_raise (rbind m k) = true.
Proof. destruct m; [discriminate|reflexivity]. Qed.

Lemma rbind_step {A B} (m : result A) (k : A -> result B) :
  (forall a, is_raise (k a) = true) -> is_raise (rbind m k) = true.
Proof. intros H. destruct m; [apply H|reflexivity]. Qed.

Lemma bind_options_strict d :
  (exists kv, In kv d /\ existsb (eqb (fst kv)) keyword_names = false)
  \/ (exists k, In k required_names /\ dict_get k d = None) ->
  is_raise (bind_options (VDict d)) = true.
Proof.
  intros H. cbn [bind_options].
  destruct (forallb (fun kv => existsb (eqb (fst kv)) keyword_names) d) eqn:Hall;
    [|reflexivity].
  destruct H as [(kv & Hin & Hkv)|(k & Hk & Hd)].
  - rewrite forallb_forall in Hall. rewrite (Hall kv Hin) in Hkv. discriminate.
  - unfold required_names in Hk. cbn [In] in Hk.
    repeat (first
      [ match goal with
        | |- is_raise (rbind (keyword ?n d) _) = true =>
            destruct (dict_get n d) as [?v|] eqn:?;
            [unfold keyword at 1;
             match goal with H : dict_get n d = Some _ |- _ => rewrite H end;
             cbn [rbind]
            |rewrite keyword_missing by assumption; reflexivity]
        | |- is_raise (rbind (as_str ?v) _) = true =>
            destruct (as_str v); [cbn [rbind]|reflexivity]
        | |- is_raise (rbind (as_float ?v) _) = true =>
            destruct (as_float v); [cbn [rbind]|reflexivity]
        end ]).
    exfalso. destruct Hk as [<-|[<-|[<-|[<-|[<-|[<-|[<-|[]]]]]]]]; congruence.
Qed.

(** X17. Options with a key that is no parameter of [add_watermark], or
    without one of the parameters that have no default, make [run_job]
    raise; nothing is written and the state is as it was. *)
Theorem run_job_bad_options fuel i o ff q d ov w :
  (exists kv, In kv d /\ existsb (eqb (fst kv)) keyword_names = false)
  \/ (exists k, In k required_names /\ dict_get k d = None) ->
  exists e t,
    run_job sys E fuel i o ff q (VDict d) ov w = (t, w, Raised e)
    /\ forallb quiet t = true.
Proof.
  intros H. apply bind_options_strict in H.
  unfold run_job. rewrite bind_emit.
  destruct (existsb (eqb (lower_ext W sys i)) image_exts).
  - unfold bind, ask_result.
    destruct (image_open W sys w i) as [im|e]; [|eexists _, _; split; reflexivity].
    unfold call_add_watermark.
    destruct (bind_options (VDict d)) as [[o' c]|e]; [discriminate|].
    eexists _, _; split; reflexivity.
  - destruct (existsb (eqb (lower_ext W sys i)) video_exts).
    + unfold bind, ask_result.
      destruct (probe_size W sys w i) as [wh|e]; [|eexists _, _; split; reflexivity].
      unfold call_add_watermark.
      destruct (bind_options (VDict d)) as [[o' c]|e]; [discriminate|].
      eexists _, _; split; reflexivity.
    + eexists _, _; split; reflexivity.
Qed.

(** ** A sidecar that cannot be used *)

(** X24. A sidecar that cannot be read or parsed makes the batch job raise
    that error, and one that is no JSON object makes [options.pop] raise
    ([TypeError] for a list, [AttributeError] otherwise); in each case
    right after the file is opened: no font is searched, no job is run. *)
Theorem batch_unreadable_sidecar fuel (f : str) w :
  isfile W sys w (f ++ lit ".json") = true ->
  (forall e, read_text W sys w (f ++ lit ".json") = Raise e ->
     batch_job sys E fuel f w
     = ([EIsFile (f ++ lit ".json");
         EPrint ("> Input file: {input_file}"%string, [f]);
         EOpenRead (f ++ lit ".json")], w, Raised e))
  /\ (forall cnt e, read_text W sys w (f ++ lit ".json") = Ok cnt ->
        json_loads W sys cnt = Raise e ->
        batch_job sys E fuel f w
        = ([EIsFile (f ++ lit ".json");
            EPrint ("> Input file: {input_file}"%string, [f]);
            EOpenRead (f ++ lit ".json")], w, Raised e))
  /\ (forall cnt v, read_text W sys w (f ++ lit ".json") = Ok cnt ->
        json_loads W sys cnt = Ok v ->
        (forall d, v <> VDict d) ->
        batch_job sys E fuel f w
        = ([EIsFile (f ++ lit ".json");
            EPrint ("> Input file: {input_file}"%string, [f]);
            EOpenRead (f ++ lit ".json")], w,
           Raised (match v with VList _ => TypeError | _ => AttributeError end))).
Proof.
  intros Hfile. split; [|split].
  - intros e Hr. unfold batch_job. rewrite bind_ask, Hfile, bind_emit.
    unfold ask_result at 1. unfold bind at 1. rewrite Hr. reflexivity.
  - intros cnt e Hr Hj. unfold batch_job. rewrite bind_ask, Hfile, bind_emit.
    unfold ask_result at 1. unfold bind at 1. rewrite Hr, Hj.
    rewrite bind_lift_raise. reflexivity.
  - intros cnt v Hr Hj Hv.
    apply (batch_job_opened sys E fuel f w cnt v); try assumption.
    destruct v as [|b|z|x|s|l|d];
      try (cbn [py_pop]; rewrite bind_lift_raise; reflexivity).
    exfalso. exact (Hv d eq_refl).
Qed.

End EndToEnd.

(** * A shadow offset that is no number; the lines of the text *)

(** ** A shadow offset that is no number *)

Lemma fmul_nan_r a : fmul a S754_nan = S754_nan.
Proof. destruct a; reflexivity. Qed.

(** X8. With a shadow colour between 0.0 and 1.0 and a shadow offset that is
    NaN, the shadow cannot be made: [int(offset[0])] raises the
    [ValueError] of a NaN, whatever the text layer and the margin. *)
Theorem nan_shadow_offset E wm o cr cg cb ca margin :
  unit_float cr = true -> unit_float cg = true -> unit_float cb = true ->
  unit_float ca = true ->
  shadow_offset o = S754_nan ->
  shadow_layer E wm o (cr, cg, cb, ca) margin
  = Raise (ValueError ("cannot convert float NaN to integer"%string, [])).
Proof.
  intros Hr Hg Hb Ha Hn. unfold shadow_layer, make_shadow.
  destruct (shadow_base_range wm cr cg cb ca Hr Hg Hb Ha) as (base & _ & _ & _ & Hbase & _).
  rewrite Hbase, Hn. cbn [rbind fst snd].
  change (num_mul (NInt margin) (NFloat S754_nan))
    with (NFloat (fmul (float_of_int margin) S754_nan)).
  rewrite fmul_nan_r. reflexivity.
Qed.

(** The default colour and margin 4. *)
Lemma nan_shadow_offset_witness :
  unit_float f0_0 = true /\ unit_float f1_0 = true
  /\ shadow_layer demo_engine demo_image
       (Options (lit "hi") (lit "left top") f1_0 f0_75 f0_2 S754_nan f0_05)
       default_shadow_color 4
     = Raise (ValueError ("cannot convert float NaN to integer"%string, [])).
Proof.
  assert (U0 : unit_float f0_0 = true) by reflexivity.
  assert (U1 : unit_float f1_0 = true) by reflexivity.
  split; [exact U0|]. split; [exact U1|].
  exact (nan_shadow_offset demo_engine demo_image
           (Options (lit "hi") (lit "left top") f1_0 f0_75 f0_2 S754_nan f0_05)
           f0_0 f0_0 f0_0 f1_0 4 U0 U0 U0 U1 eq_refl).
Defined.

(** ** The lines of the text *)

Lemma split_sep_glue sep a b :
  split_sep sep (a ++ sep :: b)
  = removelast (split_sep sep a) ++ [last (split_sep sep a) []] ++ split_sep sep b.
Proof.
  induction a as [|c a IH]; cbn [app split_sep].
  - rewrite N.eqb_refl. reflexivity.
  - destruct (N.eqb c sep).
    + rewrite IH. pose proof (split_sep_nonempty sep a) as Hne.
      destruct (split_sep sep a) as [|x l]; [congruence|]. reflexivity.
    + rewrite IH. pose proof (split_sep_nonempty sep a) as Hne.
      destruct (split_sep sep a) as [|x l]; [congruence|].
      destruct l as [|y l]; reflexivity.
Qed.

Lemma removelast_last {A} (l : list A) d : l <> [] -> removelast l ++ [last l d] = l.
Proof. intros H. symmetry. now apply app_removelast_last. Qed.

Lemma split_sep_join_all sep items :
  items <> [] ->
  split_sep sep (join [sep] items) = List.concat (List.map (split_sep sep) items).
Proof.
  induction items as [|s items IH]; [congruence|]. intros _.
  destruct items as [|s2 items].
  - cbn. now rewrite app_nil_r.
  - change (join [sep] (s :: s2 :: items)) with (s ++ sep :: join [sep] (s2 :: items)).
    rewrite split_sep_glue, IH by discriminate.
    cbn [List.map List.concat]. rewrite app_assoc.
    rewrite removelast_last by apply split_sep_nonempty. reflexivity.
Qed.

(** X9. The lines the compositor lays out in a single run are the lines of
    the [--text] values, in order, each value split at its newlines; when
    no value holds a newline, they are the values themselves. *)
Theorem text_lines a :
  cli_text a <> [] ->
  split_sep 10%N (text (single_style a))
  = List.concat (List.map (split_sep 10%N) (cli_text a))
  /\ (Forall (fun s => ~ In 10%N s) (cli_text a) ->
      split_sep 10%N (text (single_style a)) = cli_text a).
Proof.
  intros Hne. cbn [single_style text]. split.
  - now apply (split_sep_join_all 10%N).
  - intros Hall. now apply (split_sep_join 10%N).
Qed.

(** The values "hi" and "there". *)
Lemma text_lines_witness :
  cli_text demo_single <> []
  /\ split_sep 10%N (text (single_style demo_single)) = [lit "hi"; lit "there"].
Proof.
  assert (H : cli_text demo_single <> []) by discriminate.
  split; [exact H|].
  apply (proj2 (text_lines demo_single H)).
  repeat constructor; intros Hin; vm_compute in Hin; intuition discriminate.
Defined.

(** * The overwrite flag; the command line in batch mode *)

Section Flags.
Context {W : Type}.
Variable sys : system W.
Variable E : engine.

(** ** The overwrite flag *)

(** X26. For a still image the [overwrite] flag changes nothing: but for
    the record of the call, the events, the final state and the outcome of
    [run_job] are the same with [overwrite=True] and [overwrite=False]
    (the flag is only handed to the overlay run of a video). *)
Theorem overwrite_only_for_videos fuel i o ff q opts w :
  existsb (eqb (lower_ext W sys i)) image_exts = true ->
  let r0 := run_job sys E fuel i o ff q opts false w in
  let r1 := run_job sys E fuel i o ff q opts true w in
  tl (trace_of r1) = tl (trace_of r0)
  /\ world_of r1 = world_of r0
  /\ outcome_of r1 = outcome_of r0.
Proof.
  intros Hext. cbv zeta. unfold run_job. rewrite !bind_emit, Hext.
  match goal with |- context [bind ?m ?k w] => destruct (bind m k w) as [[t w'] out] end.
  repeat split.
Qed.

(** ** What batch mode takes from the command line *)

(** X27. Batch mode takes nothing but the batch files from the command
    line: two batch runs on the same files do the same, whatever the
    position, font family, font size, opacity, line spacing, shadow options
    and quality given. *)
Theorem batch_mode_ignores_style fuel a a' w :
  cli_batch_files a <> [] ->
  cli_batch_files a' = cli_batch_files a ->
  cli_text a = [] -> cli_input_file a = None -> cli_output_file a = None ->
  cli_text a' = [] -> cli_input_file a' = None -> cli_output_file a' = None ->
  main sys E fuel a' w = main sys E fuel a w.
Proof.
  intros Hne Hb Ht Hi Ho Ht' Hi' Ho'. unfold main.
  rewrite Hb, Ht, Hi, Ho, Ht', Hi', Ho'. reflexivity.
Qed.

End Flags.

(** * Examples *)

(** [Deep.ttf] in the directory [Sub] of the system fonts. *)
Lemma get_font_sound_witness :
  get_font nested_system (VStr (lit "Deep")) []
  = ([EIsFile (lit "/System/Library/Fonts/Deep.otf");
      EIsFile (lit "/System/Library/Fonts/Deep.ttf");
      EIsFile (lit "/System/Library/Fonts/Deep.ttc");
      EListDir (lit "/System/Library/Fonts");
      EIsDir (lit "/System/Library/Fonts/readme");
      EIsDir (lit "/System/Library/Fonts/Sub");
      EIsFile (lit "/System/Library/Fonts/Sub/Deep.otf");
      EIsFile (lit "/System/Library/Fonts/Sub/Deep.ttf")],
     [], Done (lit "/System/Library/Fonts/Sub/Deep.ttf"))
  /\ isfile demo_world nested_system [] (lit "/System/Library/Fonts/Sub/Deep.ttf") = true
  /\ below nested_system [] (lit "/System/Library/Fonts") (lit "/System/Library/Fonts/Sub")
  /\ exists root dir n ext,
       In root (font_roots nested_system) /\ below nested_system [] root dir
       /\ In n (search_names (lit "Deep")) /\ In ext search_exts
       /\ lit "/System/Library/Fonts/Sub/Deep.ttf" = path_join dir (n ++ ext).
Proof.
  assert (H : get_font nested_system (VStr (lit "Deep")) []
              = ([EIsFile (lit "/System/Library/Fonts/Deep.otf");
                  EIsFile (lit "/System/Library/Fonts/Deep.ttf");
                  EIsFile (lit "/System/Library/Fonts/Deep.ttc");
                  EListDir (lit "/System/Library/Fonts");
                  EIsDir (lit "/System/Library/Fonts/readme");
                  EIsDir (lit "/System/Library/Fonts/Sub");
                  EIsFile (lit "/System/Library/Fonts/Sub/Deep.otf");
                  EIsFile (lit "/System/Library/Fonts/Sub/Deep.ttf")],
                 [], Done (lit "/System/Library/Fonts/Sub/Deep.ttf")))
    by (vm_compute; reflexivity).
  split; [exact H|].
  destruct (get_font_sound nested_system (lit "Deep") [] _ _ _ H) as (_ & Hf & Hex).
  split; [exact Hf|]. split; [|exact Hex].
  apply (below_sub nested_system [] (lit "/System/Library/Fonts")
           (lit "/System/Library/Fonts") [lit "readme"; lit "Sub"] (lit "Sub"));
    [apply below_root|reflexivity|right; now left|reflexivity].
Defined.

(** [Demo.ttf] is found after [Demo.otf] is not. *)
Lemma get_font_direct_hit_witness :
  platform demo_world demo_system = lit "darwin"
  /\ recursion_limit demo_world demo_system <> 0%nat
  /\ search_names (lit "Demo, Other") = [lit "Demo"; lit "Other"]
  /\ get_font demo_system (VStr (lit "Demo, Other")) []
     = ([EIsFile (lit "/System/Library/Fonts/Demo.otf");
         EIsFile (lit "/System/Library/Fonts/Demo.ttf")], [], Done demo_font).
Proof.
  assert (H1 : platform demo_world demo_system = lit "darwin") by reflexivity.
  assert (H2 : recursion_limit demo_world demo_system <> 0%nat) by discriminate.
  assert (H3 : search_names (lit "Demo, Other") = [lit "Demo"; lit "Other"])
    by reflexivity.
  split; [exact H1|]. split; [exact H2|]. split; [exact H3|].
  exact (get_font_direct_hit demo_system (lit "Demo, Other") (lit "Demo") [lit "Other"]
           [] (lit ".ttf") H1 H2 H3 eq_refl).
Defined.

(** A file system where no directory can be listed. *)
Lemma get_font_listdir_error_witness :
  platform demo_world locked_system = lit "darwin"
  /\ listdir demo_world locked_system [] (lit "/System/Library/Fonts") = Raise (OSError 13)
  /\ outcome_of (get_font locked_system (VStr (lit "Demo, Other")) [])
     = Raised (OSError 13).
Proof.
  assert (H1 : platform demo_world locked_system = lit "darwin") by reflexivity.
  assert (H2 : recursion_limit demo_world locked_system <> 0%nat) by discriminate.
  assert (H3 : search_names (lit "Demo, Other") = [lit "Demo"; lit "Other"])
    by reflexivity.
  assert (H4 : listdir demo_world locked_system [] (lit "/System/Library/Fonts")
               = Raise (OSError 13)) by reflexivity.
  split; [exact H1|]. split; [exact H4|].
  rewrite (get_font_listdir_error locked_system (lit "Demo, Other") (lit "Demo")
             [lit "Other"] [] (OSError 13) H1 H2 H3 (fun _ _ => eq_refl) H4).
  reflexivity.
Defined.

(** "Mine, Demo": [Mine.otf] of the user is preferred to the installed
    [Demo.ttf]. *)
Lemma get_font_family_priority_witness :
  search_names (lit "Mine, Demo") = [lit "Mine"; lit "Demo"]
  /\ isfile demo_world demo_system demo_home demo_font = true
  /\ outcome_of (get_font demo_system (VStr (lit "Mine, Demo")) demo_home)
     = Done (lit "/Users/demo/Library/Fonts/Mine.otf").
Proof.
  assert (H1 : platform demo_world demo_system = lit "darwin") by reflexivity.
  assert (H2 : recursion_limit demo_world demo_system <> 0%nat) by discriminate.
  assert (H3 : search_names (lit "Mine, Demo") = [lit "Mine"; lit "Demo"])
    by reflexivity.
  split; [exact H3|]. split; [reflexivity|].
  rewrite (get_font_family_priority demo_system (lit "Mine, Demo") (lit "Mine")
             [lit "Demo"] demo_home
             [EIsFile (lit "/System/Library/Fonts/Mine.otf");
              EIsFile (lit "/System/Library/Fonts/Mine.ttf");
              EIsFile (lit "/System/Library/Fonts/Mine.ttc");
              EListDir (lit "/System/Library/Fonts")]
             (lit ".otf") H1 H3 eq_refl H2 eq_refl).
  reflexivity.
Defined.

(** The batch run on three files. *)
Lemma batch_mode_writes_no_sidecar_witness :
  cli_batch_files demo_replay <> []
  /\ forallb no_sidecar (trace_of (main demo_system demo_engine 9 demo_replay demo_partial))
     = true.
Proof.
  assert (H : cli_batch_files demo_replay <> []) by discriminate.
  split; [exact H|].
  exact (batch_mode_writes_no_sidecar demo_system demo_engine 9 demo_replay demo_partial H).
Defined.

(** Three files in an empty directory. *)
Lemma batch_without_sidecars_witness :
  cli_batch_files demo_replay <> []
  /\ main demo_system demo_engine 9 demo_replay []
     = ([EPrint ("Enter batch mode"%string, []);
         EIsFile (lit "c.jpg.json"); EIsFile (lit "a.jpg.json");
         EIsFile (lit "b.jpg.json")], [], Done tt).
Proof.
  assert (H : cli_batch_files demo_replay <> []) by discriminate.
  assert (Hf : forall f, In f (cli_batch_files demo_replay) ->
                 isfile demo_world demo_system [] (f ++ lit ".json") = false).
  { intros f [<-|[<-|[<-|[]]]]; reflexivity. }
  split; [exact H|].
  exact (batch_without_sidecars demo_system demo_engine 9 demo_replay [] H
           ltac:(discriminate) eq_refl eq_refl eq_refl Hf).
Defined.

(** "c.jpg" has no sidecar, the sidecar of "a.jpg" is no JSON text, "b.jpg"
    is not reached. *)
Lemma batch_stops_at_failure_witness :
  batch_loop demo_system demo_engine 9 [lit "c.jpg"] demo_broken
  = ([EIsFile (lit "c.jpg.json")], demo_broken, Done tt)
  /\ batch_loop demo_system demo_engine 9 [lit "c.jpg"; lit "a.jpg"; lit "b.jpg"]
       demo_broken
     = ([EIsFile (lit "c.jpg.json"); EIsFile (lit "a.jpg.json");
         EPrint ("> Input file: {input_file}"%string, [lit "a.jpg"]);
         EOpenRead (lit "a.jpg.json")],
        demo_broken, Raised (ValueError ("Expecting value"%string, []))).
Proof.
  assert (H1 : batch_loop demo_system demo_engine 9 [lit "c.jpg"] demo_broken
               = ([EIsFile (lit "c.jpg.json")], demo_broken, Done tt)) by reflexivity.
  split; [exact H1|].
  exact (batch_stops_at_failure demo_system demo_engine 9 [lit "c.jpg"] (lit "a.jpg")
           [lit "b.jpg"] demo_broken _ _ _ _ _ H1 eq_refl ltac:(discriminate)).
Defined.

(** A sidecar that holds an output file only. *)
Lemma batch_incomplete_sidecar_witness :
  isfile demo_world demo_system demo_partial (lit "a.jpg" ++ lit ".json") = true
  /\ dict_get (lit "font_family") [(lit "output_file", VStr (lit "b.jpg"))] = None
  /\ outcome_of (batch_job demo_system demo_engine 9 (lit "a.jpg") demo_partial)
     = Raised (KeyError (lit "font_family")).
Proof.
  assert (H1 : isfile demo_world demo_system demo_partial (lit "a.jpg" ++ lit ".json")
               = true) by reflexivity.
  assert (H2 : dict_get (lit "font_family") [(lit "output_file", VStr (lit "b.jpg"))]
               = None) by reflexivity.
  split; [exact H1|]. split; [exact H2|].
  rewrite (proj2 (batch_incomplete_sidecar demo_system demo_engine 9 (lit "a.jpg")
                    demo_partial
                    (encode (VDict [(lit "output_file", VStr (lit "b.jpg"))]))
                    [(lit "output_file", VStr (lit "b.jpg"))] (lit "font_family")
                    H1 eq_refl eq_refl (or_introl eq_refl) H2) eq_refl).
  reflexivity.
Defined.

(** The single run on "a.jpg". *)
Lemma single_sidecar_last_witness :
  cli_batch_files demo_single = []
  /\ exists t0 cnt w',
       main demo_system demo_engine 9 demo_single []
       = (t0 ++ [EOpenWrite (lit "a.jpg" ++ lit ".json") cnt], w', Done tt)
       /\ forallb no_sidecar t0 = true.
Proof.
  split; [reflexivity|].
  destruct (main demo_system demo_engine 9 demo_single []) as [[t w'] o] eqn:Hm.
  assert (Ho : o = Done tt) by (vm_compute in Hm; congruence).
  subst o.
  destruct (single_sidecar_last demo_system demo_engine 9 demo_single [] t w' (Done tt)
              eq_refl Hm)
    as [[_ Hn]|(A & out & font & t0 & tj & wj & Hi & Ho & _ & Ht & Hq & _)].
  - congruence.
  - injection Hi as <-. exists t0. eexists _, w'. split; [|exact Hq].
    rewrite Ht. reflexivity.
Defined.

(** "a.jpg" to "b.jpg" on the example system. *)
Lemma single_run_succeeds_witness :
  cli_batch_files demo_single = []
  /\ exists w2,
       main demo_system demo_engine 9 demo_single []
       = ([EPrint ("> Input file: {input_file}\n  Output file: {output_file}"%string,
                   [lit "a.jpg"; lit "b.jpg"]);
           EIsFile (lit "/System/Library/Fonts/Demo.otf");
           EIsFile (lit "/System/Library/Fonts/Demo.ttf");
           EPrint ("Font file: {font_file}"%string, [demo_font]);
           ERunJob (lit "a.jpg") (VStr (lit "b.jpg")) demo_font (VInt 95)
             demo_single_options false;
           EImageOpen (lit "a.jpg");
           EImageSave (VStr (lit "b.jpg"));
           EOpenWrite (lit "a.jpg" ++ lit ".json")
             (encode (VDict (sidecar_options demo_single
                               (single_options demo_single
                                  (join newline (cli_text demo_single)))
                               (lit "b.jpg"))))],
          w2, Done tt).
Proof.
  split; [reflexivity|].
  destruct (add_watermark demo_engine 9 demo_image (single_style demo_single) demo_font
              default_shadow_color) as [[res|e]|] eqn:Hadd;
    [|vm_compute in Hadd; discriminate|vm_compute in Hadd; discriminate].
  eexists.
  exact (single_run_succeeds demo_system demo_engine 9 demo_single []
           (lit "a.jpg") (lit "b.jpg")
           [EIsFile (lit "/System/Library/Fonts/Demo.otf");
            EIsFile (lit "/System/Library/Fonts/Demo.ttf")]
           demo_font demo_image res _ _
           eq_refl ltac:(discriminate) eq_refl eq_refl eq_refl eq_refl eq_refl eq_refl
           Hadd eq_refl eq_refl).
Defined.

(** Options with the one key "colour". *)
Lemma run_job_bad_options_witness :
  (exists kv, In kv [(lit "colour", VNone)]
              /\ existsb (eqb (fst kv)) keyword_names = false)
  /\ exists e t,
       run_job demo_system demo_engine 9 (lit "a.jpg") (VStr (lit "b.jpg")) demo_font
         (VInt 95) (VDict [(lit "colour", VNone)]) false []
       = (t, [], Raised e).
Proof.
  assert (H : exists kv, In kv [(lit "colour", VNone)]
                         /\ existsb (eqb (fst kv)) keyword_names = false).
  { exists (lit "colour", VNone). split; [now left|reflexivity]. }
  split; [exact H|].
  destruct (run_job_bad_options demo_system demo_engine 9 (lit "a.jpg")
              (VStr (lit "b.jpg")) demo_font (VInt 95) [(lit "colour", VNone)] false []
              (or_introl H)) as (e & t & Hr & _).
  exists e, t. exact Hr.
Defined.

(** A sidecar holding the text "x". *)
Lemma batch_unreadable_sidecar_witness :
  isfile demo_world demo_system demo_broken (lit "a.jpg" ++ lit ".json") = true
  /\ outcome_of (batch_job demo_system demo_engine 9 (lit "a.jpg") demo_broken)
     = Raised (ValueError ("Expecting value"%string, [])).
Proof.
  assert (H : isfile demo_world demo_system demo_broken (lit "a.jpg" ++ lit ".json")
              = true) by reflexivity.
  split; [exact H|].
  rewrite (proj1 (proj2 (batch_unreadable_sidecar demo_system demo_engine 9 (lit "a.jpg")
                           demo_broken H))
             (lit "x") (ValueError ("Expecting value"%string, [])) eq_refl eq_refl).
  reflexivity.
Defined.

(** The job on "a.jpg". *)
Lemma overwrite_only_for_videos_witness :
  existsb (eqb (lower_ext demo_world demo_system (lit "a.jpg"))) image_exts = true
  /\ world_of (run_job demo_system demo_engine 9 (lit "a.jpg") (VStr (lit "b.jpg"))
                 demo_font (VInt 95) demo_single_options true [])
     = world_of (run_job demo_system demo_engine 9 (lit "a.jpg") (VStr (lit "b.jpg"))
                   demo_font (VInt 95) demo_single_options false []).
Proof.
  assert (H : existsb (eqb (lower_ext demo_world demo_system (lit "a.jpg"))) image_exts
              = true) by reflexivity.
  split; [exact H|].
  exact (proj1 (proj2 (overwrite_only_for_videos demo_system demo_engine 9 (lit "a.jpg")
                         (VStr (lit "b.jpg")) demo_font (VInt 95) demo_single_options
                         [] H))).
Defined.

(** Two batch runs with different styles, font families and qualities. *)
Lemma batch_mode_ignores_style_witness :
  cli_batch_files demo_replay <> []
  /\ cli_font_family demo_replay_other <> cli_font_family demo_replay
  /\ main demo_system demo_engine 9 demo_replay_other demo_partial
     = main demo_system demo_engine 9 demo_replay demo_partial.
Proof.
  assert (H : cli_batch_files demo_replay <> []) by discriminate.
  split; [exact H|]. split; [discriminate|].
  exact (batch_mode_ignores_style demo_system demo_engine 9 demo_replay demo_replay_other
           demo_partial H eq_refl eq_refl eq_refl eq_refl eq_refl eq_refl eq_refl).
Defined.
